(** * shader_io: export and import of shading networks

    A shallow embedding of [core.py] (functions [validate_file_path],
    [export_shaders], [import_shaders], [get_src_nodes], [build_shader_dict],
    [confirm_attr_order], [set_attr], [flatten_list]) and the properties of
    the specification that were checked against it.

    The program is a sequence of calls into the host application ([maya.cmds])
    interleaved with operations on Python dictionaries, lists and strings.
    The Python side is embedded as it is written; the host is a parameter:
    its queries are the fields of the record [Host], its scene-changing
    commands the fields of [World]. *)

From Stdlib Require Import ZArith List String Ascii Floats Bool Lia DecimalString.
From stdpp Require Import base list.
Import ListNotations.
Local Open Scope string_scope.
Local Open Scope list_scope.

Set Warnings "-register-all,-inexact-float".

(* ===================================================================== *)
(** ** Python values, exceptions and results *)
(* ===================================================================== *)

(** The Python objects the program handles: what [json.load] produces, what
    the host returns for an attribute, and the dictionaries the export builds.
    A [dict] keeps its insertion order, so it is an association list whose
    keys are pairwise distinct. *)
Inductive value : Type :=
| VNone
| VBool (b : bool)
| VInt (z : Z)
| VFloat (f : float)
| VStr (s : string)
| VList (l : list value)
| VTuple (l : list value)
| VDict (d : list (string * value)).

Inductive exn : Type :=
| TypeError | IndexError | KeyError | ValueError | AttributeError
| RecursionError | OSError | RuntimeError.

Inductive result (A : Type) : Type :=
| Ok (a : A)
| Raise (e : exn).
Arguments Ok {A} a.
Arguments Raise {A} e.

Definition bind {A B : Type} (m : result A) (k : A -> result B) : result B :=
  match m with
  | Ok a => k a
  | Raise e => Raise e
  end.

Declare Scope py_scope.
Delimit Scope py_scope with py.
Notation "x <- m ;; k" := (bind m (fun x => k))
  (at level 100, m at next level, right associativity) : py_scope.
Local Open Scope py_scope.

(** A [for] loop whose body can raise: the state is threaded, the first
    exception ends the loop. *)
Fixpoint for_each {A S : Type} (body : S -> A -> result S) (l : list A) (s : S)
  : result S :=
  match l with
  | [] => Ok s
  | x :: l' => s' <- body s x ;; for_each body l' s'
  end.

(** The state such a loop has reached when it ends, by running out of
    elements or by the exception of a pass; [reached s x] is the state that
    the pass on [x] leaves behind when it raises. *)
Fixpoint for_each_reached {A S : Type} (body : S -> A -> result S)
  (reached : S -> A -> S) (l : list A) (s : S) : S :=
  match l with
  | [] => s
  | x :: l' =>
      match body s x with
      | Ok s' => for_each_reached body reached l' s'
      | Raise _ => reached s x
      end
  end.

(** The scene-changing commands of the host, as the import issues them. *)
Inductive command : Type :=
| CShadingNode (node_type name : string)
| CSets (name : string)
| CCreateNode (node_type name : string)
| CDelete (name : string)
| CSetAttr (plug : string) (val : value) (type : option string)
| CConnectAttr (source destination : string)
| CForceElement (object set : string).

(** What the program does to the outside world. *)
Inductive event : Type :=
| LogError (msg : string)
| LogInfo (msg : string)
| Print (v : value)
| WriteJson (path : string) (doc : value)
| HostCmd (c : command).

(** *** Strings *)

Definition startswith (s p : string) : bool := String.prefix p s.

(** [sub in s] *)
Fixpoint str_contains (sub s : string) : bool :=
  String.prefix sub s ||
  match s with
  | EmptyString => false
  | String _ s' => str_contains sub s'
  end.

(** [s.replace(old, new)] for a non-empty [old]: every occurrence, found left
    to right without overlap, is replaced.  [skip] counts the characters of
    the occurrence just replaced that are still to be dropped. *)
Fixpoint replace_from (old new : string) (skip : nat) (s : string) : string :=
  match s with
  | EmptyString => EmptyString
  | String c s' =>
      match skip with
      | S k => replace_from old new k s'
      | O =>
          if String.prefix old s
          then new ++ replace_from old new (String.length old - 1) s'
          else String c (replace_from old new 0 s')
      end
  end.

(** With an empty [old], Python puts [new] before every character and at the
    end. *)
Fixpoint intersperse_str (new s : string) : string :=
  match s with
  | EmptyString => new
  | String c s' => new ++ String c (intersperse_str new s')
  end.

Definition replace (s old new : string) : string :=
  match old with
  | EmptyString => intersperse_str new s
  | _ => replace_from old new 0 s
  end.

(** [s.split(".")[0]]: the part before the first dot (all of [s] without one). *)
Fixpoint before_dot (s : string) : string :=
  match s with
  | EmptyString => EmptyString
  | String c s' => if Ascii.eqb c "." then EmptyString else String c (before_dot s')
  end.

(** ["{}.{}".format(a, b)] *)
Definition dotted (a b : string) : string := a ++ "." ++ b.

(** *** Truth and equality of values *)

Definition float_is_zero (f : float) : bool := PrimFloat.eqb f 0%float.

(** [bool(v)] *)
Definition truthy (v : value) : bool :=
  match v with
  | VNone => false
  | VBool b => b
  | VInt z => negb (z =? 0)%Z
  | VFloat f => negb (float_is_zero f)
  | VStr s => negb (String.eqb s "")
  | VList l | VTuple l => match l with [] => false | _ => true end
  | VDict d => match d with [] => false | _ => true end
  end.

(** [any(l)] *)
Definition any (l : list value) : bool := existsb truthy l.

(** An integer and a float are equal when they denote the same number. *)
Definition float_eq_Z (f : float) (z : Z) : bool :=
  match Prim2SF f with
  | S754_zero _ => (z =? 0)%Z
  | S754_finite s m e =>
      let mz := if s then Z.neg m else Z.pos m in
      if (0 <=? e)%Z then (z =? mz * 2 ^ e)%Z else (z * 2 ^ (- e) =? mz)%Z
  | _ => false
  end.

Definition Z_of_bool (b : bool) : Z := if b then 1%Z else 0%Z.

(** [a == b] *)
Fixpoint py_eq (a b : value) : bool :=
  let fix eq_items (l1 l2 : list value) : bool :=
    match l1, l2 with
    | [], [] => true
    | x :: l1', y :: l2' => py_eq x y && eq_items l1' l2'
    | _, _ => false
    end in
  let fix eq_entries (d1 d2 : list (string * value)) : bool :=
    match d1 with
    | [] => true
    | (k, v) :: d1' =>
        (fix find (d : list (string * value)) : bool :=
           match d with
           | [] => false
           | (k', v') :: d' => if String.eqb k k' then py_eq v v' else find d'
           end) d2
        && eq_entries d1' d2
    end in
  match a, b with
  | VNone, VNone => true
  | VBool x, VBool y => Bool.eqb x y
  | VBool x, VInt y | VInt y, VBool x => (Z_of_bool x =? y)%Z
  | VBool x, VFloat y | VFloat y, VBool x => float_eq_Z y (Z_of_bool x)
  | VInt x, VInt y => (x =? y)%Z
  | VInt x, VFloat y | VFloat y, VInt x => float_eq_Z y x
  | VFloat x, VFloat y => PrimFloat.eqb x y
  | VStr x, VStr y => String.eqb x y
  | VList x, VList y => eq_items x y
  | VTuple x, VTuple y => eq_items x y
  | VDict x, VDict y => (length x =? length y)%nat && eq_entries x y
  | _, _ => false
  end.

(** [isinstance(v, (tuple, list))] *)
Definition is_sequence (v : value) : bool :=
  match v with
  | VList _ | VTuple _ => true
  | _ => false
  end.

(** *** Dictionaries *)

Definition pydict : Type := list (string * value).

Fixpoint dict_lookup (k : string) (d : pydict) : option value :=
  match d with
  | [] => None
  | (k', v) :: d' => if String.eqb k k' then Some v else dict_lookup k d'
  end.

(** [d[k] = v]: an existing key keeps its place, a new one goes last. *)
Fixpoint dict_set (k : string) (v : value) (d : pydict) : pydict :=
  match d with
  | [] => [(k, v)]
  | (k', v') :: d' =>
      if String.eqb k k' then (k', v) :: d' else (k', v') :: dict_set k v d'
  end.

Fixpoint dict_remove (k : string) (d : pydict) : pydict :=
  match d with
  | [] => []
  | (k', v') :: d' => if String.eqb k k' then d' else (k', v') :: dict_remove k d'
  end.

Definition dict_keys (d : pydict) : list string := map fst d.

Definition dict_has (k : string) (d : pydict) : bool :=
  match dict_lookup k d with Some _ => true | None => false end.

(** [v[k]] for a string key *)
Definition getitem (v : value) (k : string) : result value :=
  match v with
  | VDict d => match dict_lookup k d with Some x => Ok x | None => Raise KeyError end
  | _ => Raise TypeError
  end.

(** [v[k] = x] *)
Definition setitem (v : value) (k : string) (x : value) : result value :=
  match v with
  | VDict d => Ok (VDict (dict_set k x d))
  | _ => Raise TypeError
  end.

(** [del v[k]] *)
Definition delitem (v : value) (k : string) : result value :=
  match v with
  | VDict d => if dict_has k d then Ok (VDict (dict_remove k d)) else Raise KeyError
  | _ => Raise TypeError
  end.

Definition as_str (v : value) : result string :=
  match v with VStr s => Ok s | _ => Raise TypeError end.

Definition as_list (v : value) : result (list value) :=
  match v with VList l => Ok l | _ => Raise TypeError end.

Definition as_dict (v : value) : result pydict :=
  match v with VDict d => Ok d | _ => Raise TypeError end.

(** The characters of a string, each a string of its own. *)
Definition chars (s : string) : list value :=
  map (fun c => VStr (String c EmptyString)) (list_ascii_of_string s).

(** [for x in v]: the elements of a list or tuple, the characters of a
    string, the keys of a dictionary; nothing else can be iterated. *)
Definition iterate (v : value) : result (list value) :=
  match v with
  | VList l | VTuple l => Ok l
  | VStr s => Ok (chars s)
  | VDict d => Ok (map (fun kv => VStr (fst kv)) d)
  | _ => Raise TypeError
  end.

(** [v[n]] for a position [n]: an element of a list or tuple, a character
    of a string; a dictionary with string keys has no key [n]. *)
Definition subscript (v : value) (n : nat) : result value :=
  match v with
  | VList l | VTuple l =>
      match l !! n with Some x => Ok x | None => Raise IndexError end
  | VStr s =>
      match chars s !! n with Some c => Ok c | None => Raise IndexError end
  | VDict _ => Raise KeyError
  | _ => Raise TypeError
  end.

Definition str_list (l : list string) : value := VList (map VStr l).

(* ===================================================================== *)
(** ** flatten_list *)
(* ===================================================================== *)

(** One pass over [matrix]: a tuple or list element is spliced in with
    [extend], anything else is appended. *)
Definition flatten_step (new_list : list value) (each : value) : list value :=
  match each with
  | VList items | VTuple items => new_list ++ items
  | _ => new_list ++ [each]
  end.

Definition flatten_list (matrix : list value) : list value :=
  fold_left flatten_step matrix [].

(** The example of the function's docstring:
    [[[1.0,2.3], [4, (), "string_val"]]]. *)
Definition docstring_example : list value :=
  [VList [VFloat 1.0; VFloat 2.3]; VList [VInt 4; VTuple []; VStr "string_val"]].

(** What one element contributes to the result. *)
Definition splice (each : value) : list value :=
  match each with
  | VList items | VTuple items => items
  | _ => [each]
  end.

(* ===================================================================== *)
(** ** The host application *)
(* ===================================================================== *)

(** The flags of [cmds.listConnections] the program sets, with the host's
    defaults for those it leaves out. *)
Record lc_flags : Type := {
  lc_connections : bool;
  lc_plugs : bool;
  lc_source : bool;
  lc_destination : bool;
  lc_shapes : bool;
  lc_type : option string
}.

Definition lc_default : lc_flags :=
  {| lc_connections := false; lc_plugs := false; lc_source := true;
     lc_destination := true; lc_shapes := false; lc_type := None |}.

(** The queries of [maya.cmds] the program consumes.  A query that can answer
    Python's [None] has an [option] result. *)
Record Host : Type := {
  (** [cmds.listConnections(x, **flags)] *)
  listConnections : string -> lc_flags -> option (list string);
  (** [cmds.listRelatives(x, shapes=True)] *)
  listRelatives_shapes : string -> option (list string);
  (** [cmds.listRelatives(x, parent=True)] *)
  listRelatives_parent : string -> option (list string);
  (** [cmds.ls(x, showType=True)] *)
  ls_showType : string -> list string;
  (** [cmds.ls(defaultNodes=True)] *)
  ls_defaultNodes : list string;
  (** [cmds.listAttr(x, visible=True, write=True, output=False, inUse=True)] *)
  listAttr : string -> option (list string);
  (** [cmds.attributeQuery(attr, node=x, exists=True)] *)
  attributeQuery_exists : string -> string -> bool;
  (** [cmds.attributeQuery(attr, node=x, listChildren=True)] *)
  attributeQuery_listChildren : string -> string -> option (list string);
  (** [cmds.getAttr(plug, type=True)] *)
  getAttr_type : string -> string;
  (** [cmds.getAttr(plug)] *)
  getAttr : string -> value;
  (** [cmds.objExists(x)] *)
  objExists : string -> bool;
  (** the selection that [cmds.hyperShade(objects=m)] leaves: the objects
      that use the material [m] *)
  hyperShade_objects : string -> list string;
  (** the selection that [cmds.select(deselect=True)] leaves, from the
      selection before *)
  select_deselect : list string -> list string
}.

(** The file system, as far as the program touches it. *)
Record FileSystem : Type := {
  (** [os.path.exists(p)] *)
  path_exists : string -> bool;
  (** [open(p, "w")] succeeds *)
  open_write : string -> bool;
  (** [json.load(open(p))] *)
  json_load : string -> result value
}.

(** *** Subscripts on what the host returns *)

(** [l[0]] *)
Definition first_of (l : option (list string)) : result string :=
  match l with
  | None => Raise TypeError
  | Some [] => Raise IndexError
  | Some (x :: _) => Ok x
  end.

(** [l[1]] *)
Definition second_of (l : option (list string)) : result string :=
  match l with
  | None => Raise TypeError
  | Some (_ :: y :: _) => Ok y
  | Some _ => Raise IndexError
  end.

(** [l[-1]] *)
Definition last_of (l : list string) : result string :=
  match List.last (map Some l) None with
  | Some x => Ok x
  | None => Raise IndexError
  end.

(** [l[1]] on a list *)
Definition index1 (l : list string) : result string :=
  match l with
  | _ :: y :: _ => Ok y
  | _ => Raise IndexError
  end.

(** [if l:] on a list or [None] *)
Definition nonempty (l : option (list string)) : bool :=
  match l with
  | Some (_ :: _) => true
  | _ => false
  end.

(** [for each in l] on a list or [None] *)
Definition iter_of (l : option (list string)) : result (list string) :=
  match l with
  | Some l => Ok l
  | None => Raise TypeError
  end.

(** [x in l] for strings *)
Definition str_in (x : string) (l : list string) : bool :=
  existsb (String.eqb x) l.

(** [l.remove(x)], for an [x] that is in [l]: the first occurrence goes. *)
Fixpoint list_remove (x : string) (l : list string) : list string :=
  match l with
  | [] => []
  | y :: l' => if String.eqb x y then l' else y :: list_remove x l'
  end.

(* ===================================================================== *)
(** ** validate_file_path *)
(* ===================================================================== *)

Definition newline : string := String (ascii_of_nat 10) EmptyString.
Definition backslash : string := String (ascii_of_nat 92) EmptyString.

Definition not_found (return_path : string) : event :=
  LogError ("File path not found. " ++ newline ++ "Used path: " ++ return_path).

(** The result is what the call logs and what it returns: the path, or
    [None] when the function ends without a [return]. *)
Definition validate_file_path (fs : FileSystem) (file_path : string)
  : list event * result value :=
  let return_path := file_path in
  let return_path :=
    if str_contains backslash return_path
    then
      let return_path := replace return_path backslash "/" in
      replace return_path "//" "/"
    else return_path in
  if path_exists fs return_path
  then ([], Ok (VStr return_path))
  else ([not_found return_path], Ok VNone).

(** The normal form the specification describes: backslashes replaced by
    slashes, then doubled slashes collapsed, whatever the path. *)
Definition normalized_path (file_path : string) : string :=
  replace (replace file_path backslash "/") "//" "/".

(** A file system that knows a directory entry under both spellings. *)
Definition fs_doubled_slash : FileSystem :=
  {| path_exists := fun p => String.eqb p "a/b" || String.eqb p "a//b";
     open_write := fun _ => true;
     json_load := fun _ => Raise OSError |}.

(* ===================================================================== *)
(** ** confirm_attr_order *)
(* ===================================================================== *)

Definition lc_plug_sources : lc_flags :=
  {| lc_connections := false; lc_plugs := true; lc_source := true;
     lc_destination := false; lc_shapes := false; lc_type := None |}.

(** [attr_2] is among the source plugs the host lists for [attr_1]. *)
Definition listed_source (h : Host) (attr_1 attr_2 : string) : bool :=
  match listConnections h attr_1 lc_plug_sources with
  | Some sources => str_in attr_2 sources
  | None => false
  end.

Definition confirm_attr_order (h : Host) (connected_attributes : option (list string))
  : result (list string) :=
  attr_1 <- first_of connected_attributes ;;
  attr_2 <- second_of connected_attributes ;;
  if nonempty (listConnections h attr_1 lc_plug_sources)
  then
    match listConnections h attr_1 lc_plug_sources with
    | Some sources =>
        if str_in attr_2 sources
        then Ok [attr_2; attr_1]
        else Ok [attr_1; attr_2]
    | None => Raise TypeError
    end
  else Ok [attr_1; attr_2].

(* ===================================================================== *)
(** ** get_src_nodes *)
(* ===================================================================== *)

Definition lc_node_sources : lc_flags :=
  {| lc_connections := false; lc_plugs := false; lc_source := true;
     lc_destination := false; lc_shapes := true; lc_type := None |}.

(** [cmds.ls(each, showType=True)[-1] == ty] *)
Definition has_type (h : Host) (each ty : string) : result bool :=
  t <- last_of (ls_showType h each) ;; Ok (String.eqb t ty).

(** First loop: the sources that are meshes. *)
Definition collect_shapes (h : Host) (src_nodes : list string) : result (list string) :=
  for_each (fun remove_shapes each =>
              is_mesh <- has_type h each "mesh" ;;
              Ok (if is_mesh then remove_shapes ++ [each] else remove_shapes))
           src_nodes [].

(** Second loop: each of them is removed from [src_nodes] once. *)
Definition drop_shapes (remove_shapes src_nodes : list string) : list string :=
  fold_left (fun src each => if str_in each src then list_remove each src else src)
            remove_shapes src_nodes.

(** Third loop: the sources not yet in [node_list] are appended to it. *)
Definition add_sources (h : Host) (src_nodes node_list : list string)
  : result (list string) :=
  for_each (fun node_list each =>
              is_mesh <- has_type h each "mesh" ;;
              if is_mesh then Ok node_list
              else if negb (str_in each node_list) then Ok (node_list ++ [each])
              else Ok node_list)
           src_nodes node_list.

(** [depth] is the number of frames the interpreter still allows: the
    recursion has no visited test of its own, and Python ends it with
    [RecursionError]. *)
Fixpoint get_src_nodes (h : Host) (depth : nat) (node_name : string)
  (node_list : list string) : result (list string) :=
  match depth with
  | O => Raise RecursionError
  | S depth' =>
      let src_nodes := listConnections h node_name lc_node_sources in
      src_nodes <-
        (if nonempty src_nodes
         then match src_nodes with
              | Some l => remove_shapes <- collect_shapes h l ;;
                          Ok (Some (drop_shapes remove_shapes l))
              | None => Raise TypeError
              end
         else Ok src_nodes) ;;
      if nonempty src_nodes
      then match src_nodes with
           | Some l =>
               node_list <- add_sources h l node_list ;;
               for_each (fun node_list each => get_src_nodes h depth' each node_list)
                        l node_list
           | None => Raise TypeError
           end
      else Ok node_list
  end.

(** [node_list] is one list object, appended to in place (line 220): what
    it holds when the call ends, whether the call returns or raises.  What
    was appended before an exception stays in it. *)
Fixpoint get_src_nodes_leaves (h : Host) (depth : nat) (node_name : string)
  (node_list : list string) : list string :=
  match depth with
  | O => node_list
  | S depth' =>
      match listConnections h node_name lc_node_sources with
      | Some l =>
          if nonempty (Some l)
          then
            match collect_shapes h l with
            | Ok remove_shapes =>
                let l := drop_shapes remove_shapes l in
                if nonempty (Some l)
                then
                  match add_sources h l node_list with
                  | Ok node_list =>
                      for_each_reached
                        (fun node_list each => get_src_nodes h depth' each node_list)
                        (fun node_list each =>
                           get_src_nodes_leaves h depth' each node_list)
                        l node_list
                  | Raise _ =>
                      for_each_reached
                        (fun node_list each =>
                           is_mesh <- has_type h each "mesh" ;;
                           if is_mesh then Ok node_list
                           else if negb (str_in each node_list)
                                then Ok (node_list ++ [each])
                                else Ok node_list)
                        (fun node_list _ => node_list)
                        l node_list
                  end
                else node_list
            | Raise _ => node_list
            end
          else node_list
      | None => node_list
      end
  end.

(* ===================================================================== *)
(** ** build_shader_dict *)
(* ===================================================================== *)

Definition filter_list : list string := ["float3"; "float2"; "double2"; "double3"].

Definition empty_shader_dict : value :=
  VDict [("base_material", VDict [("name", VStr ""); ("type", VStr "")]);
         ("nodes", VDict []);
         ("connections", VList []);
         ("meshes", VList [])].

(** [d[k1][k2] = x] *)
Definition setitem2 (d : value) (k1 k2 : string) (x : value) : result value :=
  inner <- getitem d k1 ;;
  inner' <- setitem inner k2 x ;;
  setitem d k1 inner'.

(** [d[k].append(x)] *)
Definition append_to (d : value) (k : string) (x : value) : result value :=
  l <- getitem d k ;;
  items <- as_list l ;;
  setitem d k (VList (items ++ [x])).

(** [x in d[k]] for a list [d[k]] *)
Definition member_of (d : value) (k : string) (x : value) : result bool :=
  l <- getitem d k ;;
  items <- as_list l ;;
  Ok (existsb (fun y => py_eq y x) items).

(** [shader_dict["nodes"][each]["Attributes"][attr] = val] *)
Definition set_node_attribute (shader_dict : value) (each attr : string) (val : value)
  : result value :=
  nodes <- getitem shader_dict "nodes" ;;
  node <- getitem nodes each ;;
  attributes <- getitem node "Attributes" ;;
  attributes' <- setitem attributes attr val ;;
  node' <- setitem node "Attributes" attributes' ;;
  nodes' <- setitem nodes each node' ;;
  setitem shader_dict "nodes" nodes'.

Definition lc_material : lc_flags :=
  {| lc_connections := false; lc_plugs := false; lc_source := true;
     lc_destination := false; lc_shapes := false; lc_type := None |}.

Definition lc_engine_src : lc_flags :=
  {| lc_connections := true; lc_plugs := true; lc_source := true;
     lc_destination := false; lc_shapes := false; lc_type := None |}.

Definition lc_engine_dest : lc_flags :=
  {| lc_connections := true; lc_plugs := true; lc_source := false;
     lc_destination := true; lc_shapes := false; lc_type := None |}.

Definition lc_engine_plug : lc_flags :=
  {| lc_connections := true; lc_plugs := true; lc_source := true;
     lc_destination := true; lc_shapes := false; lc_type := None |}.

Definition lc_attr_src : lc_flags :=
  {| lc_connections := true; lc_plugs := true; lc_source := true;
     lc_destination := false; lc_shapes := false; lc_type := None |}.

(** The loop over [meshes_with_material]. *)
Definition collect_meshes (h : Host) (meshes_with_material : list string)
  (shader_dict : value) : result value :=
  for_each (fun shader_dict each =>
              if str_in each meshes_with_material
              then append_to shader_dict "meshes" (VStr each)
              else
                parent <- first_of (listRelatives_parent h each) ;;
                if str_in parent meshes_with_material
                then append_to shader_dict "meshes" (VStr each)
                else Ok shader_dict)
           meshes_with_material shader_dict.

(** The loop over the plugs of the shading engine that have a source. *)
Definition engine_connections (h : Host) (shading_engine : string) (src : list string)
  (shader_dict : value) : result value :=
  for_each (fun shader_dict each =>
              if str_contains "dagSetMembers" each then Ok shader_dict
              else if String.eqb (before_dot each) shading_engine
              then
                connection_data <-
                  confirm_attr_order h (listConnections h each lc_engine_plug) ;;
                append_to shader_dict "connections" (str_list connection_data)
              else Ok shader_dict)
           src shader_dict.

(** One attribute of a node of the network: a connected attribute adds its
    connection (and hides its children), another one adds its value. *)
Definition node_attribute (h : Host) (each : string)
  (st : value * list string) (attr : string) : result (value * list string) :=
  let '(shader_dict, skip_attributes) := st in
  if attributeQuery_exists h attr each
  then
    let full_attr := dotted each attr in
    if nonempty (listConnections h full_attr lc_attr_src)
    then
      connection_data <-
        confirm_attr_order h (listConnections h full_attr lc_attr_src) ;;
      let child_attributes := attributeQuery_listChildren h attr each in
      let skip_attributes :=
        if nonempty child_attributes
        then match child_attributes with
             | Some children => skip_attributes ++ children
             | None => skip_attributes
             end
        else skip_attributes in
      known <- member_of shader_dict "connections" (str_list connection_data) ;;
      if negb known
      then shader_dict <- append_to shader_dict "connections" (str_list connection_data) ;;
           Ok (shader_dict, skip_attributes)
      else Ok (shader_dict, skip_attributes)
    else
      if negb (str_in attr skip_attributes)
      then
        if negb (str_in (getAttr_type h full_attr) filter_list)
        then
          let attr_val := getAttr h full_attr in
          match attr_val with
          | VList items =>
              if negb (any items) then Ok (shader_dict, skip_attributes)
              else
                let val := VList (flatten_list items) in
                shader_dict <- set_node_attribute shader_dict each attr val ;;
                Ok (shader_dict, skip_attributes)
          | _ =>
              shader_dict <- set_node_attribute shader_dict each attr attr_val ;;
              Ok (shader_dict, skip_attributes)
          end
        else Ok (shader_dict, skip_attributes)
      else Ok (shader_dict, skip_attributes)
  else Ok (shader_dict, skip_attributes).

(** The attributes of one node. *)
Definition node_attributes (h : Host) (each : string) (shader_dict : value)
  : result value :=
  shader_attrs <- iter_of (listAttr h each) ;;
  st <- for_each (node_attribute h each) shader_attrs (shader_dict, []) ;;
  Ok (fst st).

(** One node of the network: a transform with shapes and a default node are
    passed over, a transform without shapes is not recorded in [nodes] but its
    attributes are visited, any other node is recorded and visited. *)
Definition graph_node (h : Host) (shader_dict : value) (each : string) : result value :=
  is_transform <- has_type h each "transform" ;;
  if is_transform
  then
    match listRelatives_shapes h each with
    | None => Raise TypeError
    | Some shapes =>
        if negb (length shapes =? 0)%nat then Ok shader_dict
        else node_attributes h each shader_dict
    end
  else
    if str_in each (ls_defaultNodes h) then Ok shader_dict
    else
      node_type <- last_of (ls_showType h each) ;;
      nodes <- getitem shader_dict "nodes" ;;
      nodes' <- setitem nodes each
                  (VDict [("node_type", VStr node_type); ("Attributes", VDict [])]) ;;
      shader_dict <- setitem shader_dict "nodes" nodes' ;;
      node_attributes h each shader_dict.

(** The result comes with the selection the function leaves behind. *)
Definition build_shader_dict (h : Host) (depth : nat) (shading_engine : string)
  : result (value * list string) :=
  let shader_dict := empty_shader_dict in
  material_name <-
    first_of (listConnections h (shading_engine ++ ".surfaceShader") lc_material) ;;
  material_type <- index1 (ls_showType h material_name) ;;
  shader_dict <- setitem2 shader_dict "base_material" "name" (VStr material_name) ;;
  shader_dict <- setitem2 shader_dict "base_material" "type" (VStr material_type) ;;
  let selection := hyperShade_objects h material_name in
  let meshes_with_material := selection in
  let selection := select_deselect h selection in
  shader_dict <- collect_meshes h meshes_with_material shader_dict ;;
  src <- iter_of (listConnections h shading_engine lc_engine_src) ;;
  let dest := listConnections h shading_engine lc_engine_dest in
  shader_dict <- engine_connections h shading_engine src shader_dict ;;
  shader_graph_nodes <- get_src_nodes h depth shading_engine [] ;;
  shader_dict <- for_each (graph_node h) shader_graph_nodes shader_dict ;;
  Ok (shader_dict, selection).

(** *** The shape of a record *)

(** A dictionary with the four keys of [empty_shader_dict], in its order. *)
Definition shader_record (base_material : value) (nodes : pydict)
  (connections meshes : list value) : value :=
  VDict [("base_material", base_material);
         ("nodes", VDict nodes);
         ("connections", VList connections);
         ("meshes", VList meshes)].

Definition base_material_of (name type : string) : value :=
  VDict [("name", VStr name); ("type", VStr type)].

(** An entry of [nodes]: the node type and the attribute values. *)
Definition is_node (v : value) : bool :=
  match v with
  | VDict [(k1, VStr _); (k2, VDict _)] =>
      String.eqb k1 "node_type" && String.eqb k2 "Attributes"
  | _ => false
  end.

Definition is_str (v : value) : bool :=
  match v with VStr _ => true | _ => false end.

(** A pair of plugs. *)
Definition is_plug_pair (v : value) : bool :=
  match v with
  | VList [VStr _; VStr _] => true
  | _ => false
  end.

(** The ShaderNetwork shape: a [base_material] object with [name] and
    [type], a [nodes] mapping from node name to node type and attribute
    values, a [connections] sequence of plug pairs, a [meshes] sequence of
    names, and nothing else. *)
Definition is_shader_network (v : value) : bool :=
  match v with
  | VDict [(k1, VDict [(k11, VStr _); (k12, VStr _)]);
           (k2, VDict nodes); (k3, VList connections); (k4, VList meshes)] =>
      String.eqb k1 "base_material" && String.eqb k11 "name" && String.eqb k12 "type"
      && String.eqb k2 "nodes" && String.eqb k3 "connections" && String.eqb k4 "meshes"
      && forallb (fun kv : string * value => is_node (snd kv)) nodes
      && forallb is_plug_pair connections
      && forallb is_str meshes
  | _ => false
  end.

(** Where a stored connection comes from: the host's listing for a plug of
    the shading engine, or for an attribute of a visited node, put in order by
    [confirm_attr_order].  The visited node is a key of [nodes], or a
    transform. *)
Inductive connection_of (h : Host) (shading_engine : string) (nodes : pydict)
  : value -> Prop :=
| engine_connection (plug : string) (pair : list string) :
    before_dot plug = shading_engine ->
    confirm_attr_order h (listConnections h plug lc_engine_plug) = Ok pair ->
    connection_of h shading_engine nodes (str_list pair)
| node_connection (each attr : string) (pair : list string) :
    dict_has each nodes = true \/ has_type h each "transform" = Ok true ->
    confirm_attr_order h (listConnections h (dotted each attr) lc_attr_src) = Ok pair ->
    connection_of h shading_engine nodes (str_list pair).

(** A record whose nodes and connections are as the walk leaves them. *)
Definition walked (h : Host) (sg : string) (b : value) (m : list value) (d : value)
  : Prop :=
  exists (n : pydict) (c : list value),
    d = shader_record b n c m
    /\ Forall (fun kv : string * value => is_node (snd kv) = true) n
    /\ Forall (connection_of h sg n) c.

(** [walked], for a node whose attributes are being visited. *)
Definition walked_at (h : Host) (sg : string) (b : value) (m : list value)
  (each : string) (d : value) : Prop :=
  exists (n : pydict) (c : list value),
    d = shader_record b n c m
    /\ Forall (fun kv : string * value => is_node (snd kv) = true) n
    /\ Forall (connection_of h sg n) c
    /\ (dict_has each n = true \/ has_type h each "transform" = Ok true).

(* ===================================================================== *)
(** ** export_shaders *)
(* ===================================================================== *)

Definition lc_shading_engine : lc_flags :=
  {| lc_connections := false; lc_plugs := false; lc_source := true;
     lc_destination := true; lc_shapes := false; lc_type := Some "shadingEngine" |}.

(** The shapes under the selected objects. *)
Definition selected_meshes (h : Host) (selection : list string) : list string :=
  fold_left (fun meshes each =>
               if nonempty (listRelatives_shapes h each)
               then match listRelatives_shapes h each with
                    | Some shapes => meshes ++ shapes
                    | None => meshes
                    end
               else meshes)
            selection [].

(** The selected objects that are shading engines. *)
Definition selected_engines (h : Host) (selection : list string) : result (list string) :=
  for_each (fun shading_engines each =>
              is_engine <- has_type h each "shadingEngine" ;;
              Ok (if is_engine then shading_engines ++ [each] else shading_engines))
           selection [].

(** The loops that fill [shaders_dict]; the state is the dictionary and the
    host's selection. *)
Definition export_mesh_entry (h : Host) (depth : nat)
  (st : pydict * list string) (each : string) : result (pydict * list string) :=
  let '(shaders_dict, selection) := st in
  shading_engine <- first_of (listConnections h each lc_shading_engine) ;;
  if str_in shading_engine (dict_keys shaders_dict) then Ok (shaders_dict, selection)
  else
    built <- build_shader_dict h depth shading_engine ;;
    Ok (dict_set shading_engine (fst built) shaders_dict, snd built).

Definition export_engine_entry (h : Host) (depth : nat)
  (st : pydict * list string) (each : string) : result (pydict * list string) :=
  let '(shaders_dict, selection) := st in
  if str_in each (dict_keys shaders_dict) then Ok (shaders_dict, selection)
  else
    built <- build_shader_dict h depth each ;;
    let shaders_dict := dict_set each (fst built) shaders_dict in
    record <- getitem (VDict shaders_dict) each ;;
    record <- setitem record "meshes" (VList []) ;;
    Ok (dict_set each record shaders_dict, snd built).

Definition log_if (c : bool) (msg : string) : list event :=
  if c then [LogError msg] else [].

(** The part of [export_shaders] before the file is opened: what it logs and
    the dictionary it has built (with the selection left), or the exception. *)
Definition export_collect (h : Host) (depth : nat) (selection : list string)
  (selection_type : string) : list event * result (pydict * list string) :=
  let shaders_dict : pydict := [] in
  let log0 := log_if (length selection <? 1)%nat
                     "Cannot export because nothing is selected." in
  if String.eqb selection_type "mesh"
  then
    let meshes := selected_meshes h selection in
    (log0 ++ log_if (length meshes <? 1)%nat "No Meshes found in selection",
     for_each (export_mesh_entry h depth) meshes (shaders_dict, selection))
  else if String.eqb selection_type "shadingEngine"
  then
    match selected_engines h selection with
    | Raise e => (log0, Raise e)
    | Ok shading_engines =>
        (log0 ++ log_if (length shading_engines <? 1)%nat "No Meshes found in selection",
         for_each (export_engine_entry h depth) shading_engines (shaders_dict, selection))
    end
  else (log0, Ok (shaders_dict, selection)).

(** [selection] is what [cmds.ls(selection=True)] answers when the function
    is called.  The [WriteJson] event carries the dictionary handed to
    [json.dump]; the result is the selection the call leaves. *)
Definition export_shaders (h : Host) (fs : FileSystem) (depth : nat)
  (selection : list string) (full_export_path selection_type : string)
  : list event * result (list string) :=
  match export_collect h depth selection selection_type with
  | (log, Raise e) => (log, Raise e)
  | (log, Ok (shaders_dict, selection')) =>
      if open_write fs full_export_path
      then (log ++ [WriteJson full_export_path (VDict shaders_dict);
                    LogInfo "Shaders Successfully Exported."],
            Ok selection')
      else (log, Raise OSError)
  end.

(** *** What an exported document holds *)

Definition is_log_error (e : event) : bool :=
  match e with LogError _ => true | _ => false end.

(** The name is one the export takes for a shading group: the shading engine
    the host names for a mesh of the selection, or a selected object of type
    [shadingEngine]. *)
Definition engine_key (h : Host) (selection : list string) (selection_type k : string)
  : Prop :=
  (selection_type = "mesh"
   /\ exists mesh, In mesh (selected_meshes h selection)
                   /\ first_of (listConnections h mesh lc_shading_engine) = Ok k)
  \/ (selection_type = "shadingEngine"
      /\ In k selection /\ has_type h k "shadingEngine" = Ok true).

(** The objects that use the base material of the shading engine [k]. *)
Definition bound_meshes (h : Host) (k : string) : result (list string) :=
  material_name <- first_of (listConnections h (k ++ ".surfaceShader") lc_material) ;;
  Ok (hyperShade_objects h material_name).

(** An entry of the dictionary the export builds: the record of the shading
    engine [fst kv], with the objects that use its base material as [meshes]
    when the selection was one of meshes, and without meshes otherwise. *)
Definition exported_entry (h : Host) (selection_type : string) (kv : string * value)
  : Prop :=
  exists material_name material_type : string,
    first_of (listConnections h (fst kv ++ ".surfaceShader") lc_material)
    = Ok material_name
    /\ index1 (ls_showType h material_name) = Ok material_type
    /\ walked h (fst kv) (base_material_of material_name material_type)
              (if String.eqb selection_type "mesh"
               then map VStr (hyperShade_objects h material_name) else [])
              (snd kv).

Definition exported (h : Host) (selection : list string) (selection_type : string)
  (shaders_dict : pydict) : Prop :=
  Forall (fun kv => exported_entry h selection_type kv
                    /\ engine_key h selection selection_type (fst kv))
         shaders_dict.



(* ===================================================================== *)
(** ** import_shaders *)
(* ===================================================================== *)

(** The host as the import sees it: a scene that answers queries and that
    commands change.  A command answers with the name the host gave to what
    it created, or raises. *)
Record World : Type := {
  Scene : Type;
  queries : Scene -> Host;
  (** [cmds.shadingNode(node_type, name=name, asShader=True)] *)
  shadingNode : Scene -> string -> string -> result (string * Scene);
  (** [cmds.sets(name=name, renderable=True, noSurfaceShader=True, empty=True)] *)
  sets : Scene -> string -> result (string * Scene);
  (** [cmds.createNode(node_type, name=name)] *)
  createNode : Scene -> string -> string -> result (string * Scene);
  (** [cmds.delete(name)] *)
  delete : Scene -> string -> result Scene;
  (** [cmds.setAttr(plug, val)] and [cmds.setAttr(plug, val, type=t)] *)
  setAttr : Scene -> string -> value -> option string -> result Scene;
  (** [cmds.connectAttr(source, destination)] *)
  connectAttr : Scene -> string -> string -> result Scene;
  (** [cmds.sets(object, edit=True, forceElement=set)] *)
  sets_forceElement : Scene -> string -> string -> result Scene
}.

(** The state a call runs in: the scene, the list object that is the default
    of [get_src_nodes]'s parameter [node_list] (one object for the life of the
    module), and what has been done so far. *)
Record pystate (S : Type) : Type := {
  scene : S;
  default_node_list : list string;
  trace : list event
}.
Arguments scene {S} _.
Arguments default_node_list {S} _.
Arguments trace {S} _.

Definition M (S A : Type) : Type := pystate S -> result A * pystate S.

Definition ret {S A : Type} (a : A) : M S A := fun st => (Ok a, st).

Definition raise {S A : Type} (e : exn) : M S A := fun st => (Raise e, st).

Definition mbind {S A B : Type} (m : M S A) (k : A -> M S B) : M S B :=
  fun st =>
    match m st with
    | (Ok a, st') => k a st'
    | (Raise e, st') => (Raise e, st')
    end.

Notation "x <~ m ;; k" := (mbind m (fun x => k))
  (at level 100, m at next level, right associativity) : py_scope.
Notation "m ;;; k" := (mbind m (fun _ => k))
  (at level 100, right associativity) : py_scope.

Definition lift {S A : Type} (r : result A) : M S A := fun st => (r, st).

Definition emit {S : Type} (e : event) : M S unit :=
  fun st => (Ok tt, {| scene := scene st;
                       default_node_list := default_node_list st;
                       trace := trace st ++ [e] |}).

Fixpoint mfor {S A : Type} (body : A -> M S unit) (l : list A) : M S unit :=
  match l with
  | [] => ret tt
  | x :: l' => body x ;;; mfor body l'
  end.

Fixpoint mfold {S A B : Type} (body : B -> A -> M S B) (l : list A) (b : B) : M S B :=
  match l with
  | [] => ret b
  | x :: l' => b' <~ body b x ;; mfold body l' b'
  end.

(** *** The rewriting of plug names in [connections] *)

(** [l.index(l[i])]: the first position whose element is [l[i]] itself or
    equal to it. *)
Fixpoint first_eq (x : value) (l : list value) (i : nat) {struct i} : nat :=
  match i, l with
  | S i', y :: l' => if py_eq y x then O else S (first_eq x l' i')
  | _, _ => O
  end.

(** [connections[i][k] = x] *)
Definition set_plug (connections : list value) (i k : nat) (x : value)
  : result (list value) :=
  match connections !! i with
  | Some (VList items) =>
      if (k <? length items)%nat
      then Ok (<[i := VList (<[k := x]> items)]> connections)
      else Raise IndexError
  | Some _ => Raise TypeError
  | None => Raise IndexError
  end.

(** The body of [for attr in each] when [each] is a list, at position [k]
    of the connection at position [i].  [each] is the very list stored at
    [connections[i]], so it is read from there each time.  [index_num] is
    what [.index(each)] gave when the loop over [each] began (lines 152, 161,
    175): the write goes there; with [also_each] (the loop for the shading
    engine) it is repeated on [each].  The strings written are collected for
    the caller. *)
Definition rewrite_plug (also_each : bool) (old new : string) (i index_num : nat)
  (st : list value * list value) (k : nat) : result (list value * list value) :=
  let '(connections, written) := st in
  match connections !! i with
  | Some (VList each) =>
      match each !! k with
      | Some attr =>
          let num := first_eq attr each k in
          match attr with
          | VStr a =>
              if startswith a (old ++ ".")
              then
                let x := VStr (replace a old new) in
                connections <- set_plug connections index_num num x ;;
                connections <-
                  (if also_each then set_plug connections i num x else Ok connections) ;;
                Ok (connections, written ++ [x])
              else Ok (connections, written)
          | _ => Raise AttributeError
          end
      | None => Ok (connections, written)
      end
  | Some _ => Raise TypeError
  | None => Ok (connections, written)
  end.

(** [for attr in each] over a sequence that cannot be written to (the
    characters of a string, a tuple): an element that is no string has no
    [startswith], and the first plug to rewrite ends in the [TypeError] of
    the assignment. *)
Fixpoint rewrite_fixed (old : string) (items : list value) : result unit :=
  match items with
  | [] => Ok tt
  | VStr a :: rest =>
      if startswith a (old ++ ".") then Raise TypeError else rewrite_fixed old rest
  | _ :: _ => Raise AttributeError
  end.

(** The body of [for each in shader_network["connections"]], for the element
    at position [i].  A list is gone through plug by plug; a string is gone
    through character by character and a tuple element by element, without
    a write; a dictionary that is not empty has no [index]; nothing else can
    be iterated. *)
Definition rewrite_connection (also_each : bool) (old new : string)
  (st : list value * list value) (i : nat) : result (list value * list value) :=
  match fst st !! i with
  | Some each =>
      let index_num := first_eq each (fst st) i in
      match each with
      | VList items =>
          for_each (rewrite_plug also_each old new i index_num) (seq 0 (length items)) st
      | VTuple items => _ <- rewrite_fixed old items ;; Ok st
      | VStr s => _ <- rewrite_fixed old (chars s) ;; Ok st
      | VDict [] => Ok st
      | VDict _ => Raise AttributeError
      | _ => Raise TypeError
      end
  | None => Ok st
  end.

(** The whole loop: every plug that starts with [old] followed by a dot gets
    [old] replaced by [new].  [shader_network["connections"]] is a list in a
    document that [export_shaders] wrote; what the loop does on the other
    values [json.load] can give is written out. *)
Definition rewrite_connections (also_each : bool) (old new : string)
  (shader_network : value) : result (value * list value) :=
  c <- getitem shader_network "connections" ;;
  match c with
  | VList connections =>
      st <- for_each (rewrite_connection also_each old new)
                     (seq 0 (length connections)) (connections, []) ;;
      shader_network <- setitem shader_network "connections" (VList (fst st)) ;;
      Ok (shader_network, snd st)
  | VTuple connections =>
      st <- for_each (rewrite_connection also_each old new)
                     (seq 0 (length connections)) (connections, []) ;;
      shader_network <- setitem shader_network "connections" (VTuple (fst st)) ;;
      Ok (shader_network, snd st)
  | VStr s => _ <- rewrite_fixed old (chars s) ;; Ok (shader_network, [])
  | VDict [] => Ok (shader_network, [])
  | VDict _ => Raise AttributeError
  | _ => Raise TypeError
  end.

(** What a run of the loop has written, and at lines 174-180 printed, when
    it ends, whether it returns or raises: a pass of [rewrite_plug] that
    raises has written nothing. *)
Definition rewrite_connection_reached (also_each : bool) (old new : string)
  (st : list value * list value) (i : nat) : list value * list value :=
  match fst st !! i with
  | Some (VList items) =>
      for_each_reached
        (rewrite_plug also_each old new i (first_eq (VList items) (fst st) i))
        (fun st _ => st) (seq 0 (length items)) st
  | _ => st
  end.

Definition written_by (also_each : bool) (old new : string) (shader_network : value)
  : list value :=
  match getitem shader_network "connections" with
  | Ok (VList connections) | Ok (VTuple connections) =>
      snd (for_each_reached (rewrite_connection also_each old new)
                            (rewrite_connection_reached also_each old new)
                            (seq 0 (length connections)) (connections, []))
  | _ => []
  end.

(** What one run of the loop does to a plug name: a plug that starts with
    [old] and a dot has every occurrence of [old] replaced. *)
Definition rewrite_plug_name (old new : string) (p : string) : string :=
  if startswith p (old ++ ".") then replace p old new else p.

(** The plugs of a document's pairs that a run rewrites, in order. *)
Definition rewritten_plugs (old new : string) (pairs : list (list string)) : list value :=
  flat_map (fun pair =>
              map (fun p => VStr (replace p old new))
                  (List.filter (fun p => startswith p (old ++ ".")) pair))
           pairs.

(** A renaming after which no rewritten plug starts with the old name and a
    dot again. *)
Definition rename_sane (old new : string) : Prop :=
  forall q, startswith q (old ++ ".") = true ->
            startswith (replace q old new) (old ++ ".") = false.

Section ImportShaders.

Variable w : World.
Variable fs : FileSystem.
(** the interpreter's recursion limit *)
Variable depth : nat.

(** A query, answered in the current scene. *)
Definition ask {A : Type} (q : Host -> A) : M (Scene w) A :=
  fun st => (Ok (q (queries w (scene st))), st).

(** A command: it is recorded, and changes the scene unless it raises. *)
Definition run {A : Type} (c : command) (f : Scene w -> result (A * Scene w))
  : M (Scene w) A :=
  fun st =>
    let tr := trace st ++ [HostCmd c] in
    match f (scene st) with
    | Ok (a, s') =>
        (Ok a, {| scene := s'; default_node_list := default_node_list st; trace := tr |})
    | Raise e =>
        (Raise e, {| scene := scene st; default_node_list := default_node_list st;
                     trace := tr |})
    end.

Definition unit_cmd (f : Scene w -> result (Scene w)) (s : Scene w)
  : result (unit * Scene w) :=
  s' <- f s ;; Ok (tt, s').

(** [get_src_nodes(node_name)] with [node_list] left out: the default list
    is the one appended to and the one returned.  When the call raises, the
    default list keeps what was appended to it before the exception. *)
Definition get_src_nodes_default (node_name : string) : M (Scene w) (list string) :=
  fun st =>
    match get_src_nodes (queries w (scene st)) depth node_name (default_node_list st) with
    | Ok node_list =>
        (Ok node_list, {| scene := scene st; default_node_list := node_list;
                          trace := trace st |})
    | Raise e =>
        (Raise e,
         {| scene := scene st;
            default_node_list :=
              get_src_nodes_leaves (queries w (scene st)) depth node_name
                                   (default_node_list st);
            trace := trace st |})
    end.

(** *** set_attr *)

Definition type_filter : list string :=
  ["float"; "int"; "double"; "bool"; "enum"; "short"; "long"; "list"].

Definition set_attr (full_name : string) (val : value) : M (Scene w) unit :=
  attr_type <~ ask (fun h => getAttr_type h full_name) ;;
  current <~ ask (fun h => getAttr h full_name) ;;
  if negb (py_eq val current)
  then
    if str_in attr_type type_filter
    then run (CSetAttr full_name val None)
             (unit_cmd (fun s => setAttr w s full_name val None))
    else run (CSetAttr full_name val (Some attr_type))
             (unit_cmd (fun s => setAttr w s full_name val (Some attr_type)))
  else ret tt.

(** *** The shader-conflict options *)

(** [d.items()] *)
Definition items_of (d : value) : result pydict :=
  match d with
  | VDict entries => Ok entries
  | _ => Raise AttributeError
  end.

Definition conflicts_skip (shaders_dict : value) : M (Scene w) value :=
  entries <~ lift (items_of shaders_dict) ;;
  skip_list <~ mfold (fun skip_list (entry : string * value) =>
                        exists_ <~ ask (fun h => objExists h (fst entry)) ;;
                        ret (if exists_ then skip_list ++ [fst entry] else skip_list))
                     entries [] ;;
  lift (for_each delitem skip_list shaders_dict).

Definition delete_related (each : string) : M (Scene w) unit :=
  defaults <~ ask ls_defaultNodes ;;
  if str_in each defaults then ret tt
  else
    exists_ <~ ask (fun h => objExists h each) ;;
    if exists_ then run (CDelete each) (unit_cmd (fun s => delete w s each))
    else ret tt.

Definition conflicts_replace (shaders_dict : value) : M (Scene w) unit :=
  entries <~ lift (items_of shaders_dict) ;;
  mfor (fun entry : string * value =>
          exists_ <~ ask (fun h => objExists h (fst entry)) ;;
          if exists_
          then all_related_nodes <~ get_src_nodes_default (fst entry) ;;
               mfor delete_related all_related_nodes
          else ret tt)
       entries.

(** *** One shader network *)

(** The commands of the host take names.  Where the document hands one of
    them a value that is no string, the call is taken to be refused with
    [TypeError], without a trace in the scene: [as_str] before the command. *)

(** Lines 159-167: the base material came back under another name. *)
Definition rename_material (name material_name : string) (shader_network : value)
  : result value :=
  rewritten <- rewrite_connections false name material_name shader_network ;;
  let shader_network := fst rewritten in
  nodes <- getitem shader_network "nodes" ;;
  settings <- getitem nodes name ;;
  nodes <- setitem nodes material_name settings ;;
  shader_network <- setitem shader_network "nodes" nodes ;;
  nodes <- getitem shader_network "nodes" ;;
  nodes <- delitem nodes name ;;
  setitem shader_network "nodes" nodes.

(** Lines 170-184: one entry of [nodes]. *)
Definition create_node (material_name : string) (shader_network : value)
  (entry : string * value) : M (Scene w) value :=
  let '(node_name, settings) := entry in
  named <~
    (if negb (String.eqb node_name material_name)
     then
       node_type <~ lift (t <- getitem settings "node_type" ;; as_str t) ;;
       new_node <~ run (CCreateNode node_type node_name)
                       (fun s => createNode w s node_type node_name) ;;
       if negb (String.eqb node_name new_node)
       then
         mfor (fun x => emit (Print x))
              (written_by false node_name new_node shader_network) ;;;
         rewritten <~ lift (rewrite_connections false node_name new_node shader_network) ;;
         ret (fst rewritten, new_node)
       else ret (shader_network, node_name)
     else ret (shader_network, node_name)) ;;
  let '(shader_network, node_name) := named in
  attributes <~ lift (a <- getitem settings "Attributes" ;; items_of a) ;;
  mfor (fun kv : string * value => set_attr (dotted node_name (fst kv)) (snd kv))
       attributes ;;;
  ret shader_network.

(** Line 187: [each[0]] and [each[1]] are taken from whatever [each] is,
    then handed to the host, which takes plug names. *)
Definition connect (each : value) : M (Scene w) unit :=
  source <~ lift (subscript each 0) ;;
  destination <~ lift (subscript each 1) ;;
  source <~ lift (as_str source) ;;
  destination <~ lift (as_str destination) ;;
  run (CConnectAttr source destination)
      (unit_cmd (fun s => connectAttr w s source destination)).

Definition apply_to_mesh (shader_set : string) (each : value) : M (Scene w) unit :=
  mesh <~ lift (as_str each) ;;
  exists_ <~ ask (fun h => objExists h mesh) ;;
  if exists_
  then run (CForceElement mesh shader_set)
           (unit_cmd (fun s => sets_forceElement w s mesh shader_set))
  else ret tt.

(** The body of the loop that creates the networks.  The result is the
    record as the loop leaves it. *)
Definition create_network (entry : string * value) : M (Scene w) value :=
  let '(shading_engine, shader_network) := entry in
  base_material <~ lift (getitem shader_network "base_material") ;;
  material_type <~ lift (getitem base_material "type") ;;
  name <~ lift (getitem base_material "name") ;;
  material_type <~ lift (as_str material_type) ;;
  name <~ lift (as_str name) ;;
  material_name <~ run (CShadingNode material_type name)
                       (fun s => shadingNode w s material_type name) ;;
  shader_set <~ run (CSets shading_engine) (fun s => sets w s shading_engine) ;;
  shader_network <~
    (if negb (String.eqb shading_engine shader_set)
     then r <~ lift (rewrite_connections true shading_engine shader_set shader_network) ;;
          ret (fst r)
     else ret shader_network) ;;
  shader_network <~
    (if negb (String.eqb name material_name)
     then lift (rename_material name material_name shader_network)
     else ret shader_network) ;;
  nodes <~ lift (n <- getitem shader_network "nodes" ;; items_of n) ;;
  shader_network <~ mfold (create_node material_name) nodes shader_network ;;
  connections <~ lift (c <- getitem shader_network "connections" ;; iterate c) ;;
  mfor connect connections ;;;
  meshes <~ lift (m <- getitem shader_network "meshes" ;; iterate m) ;;
  (if (0 <? length meshes)%nat then mfor (apply_to_mesh shader_set) meshes else ret tt) ;;;
  ret shader_network.

Definition quote : string := String (ascii_of_nat 34) EmptyString.

Definition create_networks (shaders_dict : value) : M (Scene w) unit :=
  entries <~ lift (items_of shaders_dict) ;;
  mfor (fun entry => create_network entry ;;; ret tt) entries ;;;
  emit (LogInfo "Shaders successfully imported").

Definition import_shaders (importPath shader_conflicts : string) : M (Scene w) unit :=
  json_data <~ lift (json_load fs importPath) ;;
  let shaders_dict := json_data in
  if String.eqb shader_conflicts "skip"
  then shaders_dict <~ conflicts_skip shaders_dict ;; create_networks shaders_dict
  else if String.eqb shader_conflicts "replace"
  then conflicts_replace shaders_dict ;;; create_networks shaders_dict
  else if String.eqb shader_conflicts "rename"
  then create_networks shaders_dict
  else if String.eqb shader_conflicts "cancel"
  then emit (LogError "Shader IO Import cancelled")
  else
    emit (LogError ("No argument set for parameter: " ++ quote ++ "shader_conflicts"
                      ++ quote)) ;;;
    create_networks shaders_dict.

End ImportShaders.

(* ===================================================================== *)
(** ** A small host, for running the program on concrete scenes *)
(* ===================================================================== *)

(** A scene as tables: the nodes with their types, the connections from a
    source plug to a destination plug, the default nodes, the shapes under a
    transform, the attributes the host lists for a node, the type and value of
    a plug, and the objects that use a material. *)
Record mini_scene : Type := {
  ms_nodes : list (string * string);
  ms_edges : list (string * string);
  ms_defaults : list string;
  ms_shapes : list (string * list string);
  ms_attrs : list (string * list string);
  ms_values : list (string * (string * value));
  ms_users : list (string * list string)
}.

Fixpoint assoc {A : Type} (k : string) (l : list (string * A)) : option A :=
  match l with
  | [] => None
  | (k', a) :: l' => if String.eqb k k' then Some a else assoc k l'
  end.

Definition is_plug (x : string) : bool := str_contains "." x.

(** [plug] is the plug [x], or a plug of the node [x]. *)
Definition plug_of (x plug : string) : bool :=
  if is_plug x then String.eqb plug x else String.eqb (before_dot plug) x.

Definition mini_type (ms : mini_scene) (node : string) : string :=
  match assoc node (ms_nodes ms) with Some t => t | None => "" end.

Definition mini_answer (f : lc_flags) (this other : string) : list string :=
  (if lc_connections f then [this] else [])
    ++ [if lc_plugs f then other else before_dot other].

Definition mini_type_ok (ms : mini_scene) (f : lc_flags) (other : string) : bool :=
  match lc_type f with
  | None => true
  | Some t => String.eqb (mini_type ms (before_dot other)) t
  end.

Definition mini_listConnections (ms : mini_scene) (x : string) (f : lc_flags)
  : option (list string) :=
  let answers :=
    flat_map (fun e : string * string =>
                let '(s, d) := e in
                (if lc_source f && plug_of x d && mini_type_ok ms f s
                 then mini_answer f d s else [])
                ++ (if lc_destination f && plug_of x s && mini_type_ok ms f d
                    then mini_answer f s d else []))
             (ms_edges ms) in
  match answers with
  | [] => None
  | _ => Some answers
  end.

Definition mini_host (ms : mini_scene) : Host :=
  {| listConnections := mini_listConnections ms;
     listRelatives_shapes := fun x => assoc x (ms_shapes ms);
     listRelatives_parent := fun x =>
       match List.filter (fun p : string * list string => str_in x (snd p)) (ms_shapes ms) with
       | [] => None
       | ps => Some (map fst ps)
       end;
     ls_showType := fun x =>
       match assoc x (ms_nodes ms) with Some t => [x; t] | None => [] end;
     ls_defaultNodes := ms_defaults ms;
     listAttr := fun x => assoc x (ms_attrs ms);
     attributeQuery_exists := fun attr node =>
       match assoc node (ms_attrs ms) with Some l => str_in attr l | None => false end;
     attributeQuery_listChildren := fun _ _ => None;
     getAttr_type := fun plug =>
       match assoc plug (ms_values ms) with Some tv => fst tv | None => "" end;
     getAttr := fun plug =>
       match assoc plug (ms_values ms) with Some tv => snd tv | None => VNone end;
     objExists := fun x => match assoc x (ms_nodes ms) with Some _ => true | None => false end;
     hyperShade_objects := fun m =>
       match assoc m (ms_users ms) with Some l => l | None => [] end;
     select_deselect := fun _ => [] |}.

(** *** Commands on a small scene *)

Definition is_digit (c : ascii) : bool :=
  (48 <=? nat_of_ascii c)%nat && (nat_of_ascii c <=? 57)%nat.

(** The name without its trailing digits, and those digits. *)
Fixpoint split_number (s : string) : string * string :=
  match s with
  | EmptyString => (EmptyString, EmptyString)
  | String c s' =>
      let '(base, digits) := split_number s' in
      match base with
      | EmptyString =>
          if is_digit c then (EmptyString, String c digits)
          else (String c EmptyString, digits)
      | _ => (String c base, digits)
      end
  end.

Definition number_of (digits : string) : nat :=
  match NilEmpty.uint_of_string digits with
  | Some u => Nat.of_uint u
  | None => 0
  end.

Definition numbered (base : string) (n : nat) : string :=
  base ++ NilEmpty.string_of_uint (Nat.to_uint n).

Fixpoint first_free (taken : list string) (base : string) (n tries : nat) : string :=
  match tries with
  | O => numbered base n
  | S tries' =>
      if str_in (numbered base n) taken then first_free taken base (S n) tries'
      else numbered base n
  end.

(** The name the host gives to a new node: the name asked for when it is
    free, otherwise the name with its trailing number raised to the first
    free one. *)
Definition unique_name (taken : list string) (name : string) : string :=
  if str_in name taken then
    let '(base, digits) := split_number name in
    first_free taken base (S (number_of digits)) (S (length taken))
  else name.

Definition mini_add_node (ms : mini_scene) (name node_type : string) : mini_scene :=
  {| ms_nodes := ms_nodes ms ++ [(name, node_type)];
     ms_edges := ms_edges ms; ms_defaults := ms_defaults ms;
     ms_shapes := ms_shapes ms; ms_attrs := ms_attrs ms;
     ms_values := ms_values ms; ms_users := ms_users ms |}.

Definition mini_create (ms : mini_scene) (node_type name : string)
  : result (string * mini_scene) :=
  let new_name := unique_name (map fst (ms_nodes ms)) name in
  Ok (new_name, mini_add_node ms new_name node_type).

Definition mini_delete (ms : mini_scene) (name : string) : result mini_scene :=
  match assoc name (ms_nodes ms) with
  | None => Raise ValueError
  | Some _ =>
      Ok {| ms_nodes := List.filter (fun n : string * string => negb (String.eqb (fst n) name))
                               (ms_nodes ms);
            ms_edges := List.filter (fun e : string * string =>
                                  negb (String.eqb (before_dot (fst e)) name)
                                  && negb (String.eqb (before_dot (snd e)) name))
                               (ms_edges ms);
            ms_defaults := ms_defaults ms; ms_shapes := ms_shapes ms;
            ms_attrs := ms_attrs ms; ms_values := ms_values ms;
            ms_users := ms_users ms |}
  end.

Definition mini_setAttr (ms : mini_scene) (plug : string) (val : value)
  (type : option string) : result mini_scene :=
  let t := match type with
           | Some t => t
           | None => match assoc plug (ms_values ms) with Some tv => fst tv | None => "" end
           end in
  Ok {| ms_nodes := ms_nodes ms; ms_edges := ms_edges ms;
        ms_defaults := ms_defaults ms; ms_shapes := ms_shapes ms;
        ms_attrs := ms_attrs ms;
        ms_values := (plug, (t, val)) :: ms_values ms;
        ms_users := ms_users ms |}.

(** A connection needs both nodes. *)
Definition mini_connectAttr (ms : mini_scene) (source destination : string)
  : result mini_scene :=
  match assoc (before_dot source) (ms_nodes ms), assoc (before_dot destination) (ms_nodes ms) with
  | Some _, Some _ =>
      Ok {| ms_nodes := ms_nodes ms;
            ms_edges := ms_edges ms ++ [(source, destination)];
            ms_defaults := ms_defaults ms; ms_shapes := ms_shapes ms;
            ms_attrs := ms_attrs ms; ms_values := ms_values ms;
            ms_users := ms_users ms |}
  | _, _ => Raise RuntimeError
  end.

Definition mini_forceElement (ms : mini_scene) (object set : string) : result mini_scene :=
  Ok {| ms_nodes := ms_nodes ms;
        ms_edges := ms_edges ms ++ [((object ++ ".instObjGroups")%string, (set ++ ".dagSetMembers")%string)];
        ms_defaults := ms_defaults ms; ms_shapes := ms_shapes ms;
        ms_attrs := ms_attrs ms; ms_values := ms_values ms;
        ms_users := ms_users ms |}.

Definition mini_world : World :=
  {| Scene := mini_scene;
     queries := mini_host;
     shadingNode := mini_create;
     sets := fun ms name => mini_create ms "shadingEngine" name;
     createNode := mini_create;
     delete := mini_delete;
     setAttr := mini_setAttr;
     connectAttr := mini_connectAttr;
     sets_forceElement := mini_forceElement |}.

(** A file system with one readable JSON file and every path writable. *)
Definition one_file (path : string) (doc : value) : FileSystem :=
  {| path_exists := String.eqb path;
     open_write := fun _ => true;
     json_load := fun p => if String.eqb p path then Ok doc else Raise OSError |}.

Definition start {S : Type} (s : S) : pystate S :=
  {| scene := s; default_node_list := []; trace := [] |}.

(** Two shading engines, each fed by its own material. *)
Definition two_chains : mini_scene :=
  {| ms_nodes := [("a", "shadingEngine"); ("b", "shadingEngine");
                  ("x", "lambert"); ("y", "blinn")];
     ms_edges := [("x.outColor", "a.surfaceShader"); ("y.outColor", "b.surfaceShader")];
     ms_defaults := []; ms_shapes := []; ms_attrs := []; ms_values := [];
     ms_users := [] |}.

(** A sphere with a textured material: the shading engine [sg1] with the
    material [lambert2], fed by the texture [file1], which the default node
    [defaultColorMgtGlobals] feeds in turn; the mesh [pSphereShape1] under the
    transform [pSphere1] is bound to [sg1]. *)
Definition textured_sphere : mini_scene :=
  {| ms_nodes := [("sg1", "shadingEngine"); ("lambert2", "lambert"); ("file1", "file");
                  ("defaultColorMgtGlobals", "colorManagementGlobals");
                  ("pSphere1", "transform"); ("pSphereShape1", "mesh")];
     ms_edges := [("lambert2.outColor", "sg1.surfaceShader");
                  ("pSphereShape1.instObjGroups", "sg1.dagSetMembers");
                  ("file1.outColor", "lambert2.color");
                  ("defaultColorMgtGlobals.cmEnabled", "file1.colorManagementEnabled")];
     ms_defaults := ["defaultColorMgtGlobals"; "lambert1"; "initialShadingGroup"];
     ms_shapes := [("pSphere1", ["pSphereShape1"])];
     ms_attrs := [("lambert2", ["color"; "diffuse"]);
                  ("file1", ["colorManagementEnabled"; "fileTextureName"])];
     ms_values := [("lambert2.diffuse", ("float", VFloat 0.5));
                   ("file1.fileTextureName", ("string", VStr "wood.png"))];
     ms_users := [("lambert2", ["pSphereShape1"])] |}.

(** The record [build_shader_dict] makes of [sg1]. *)
Definition sg1_record (meshes : list value) : value :=
  shader_record
    (base_material_of "lambert2" "lambert")
    [("lambert2", VDict [("node_type", VStr "lambert");
                         ("Attributes", VDict [("diffuse", VFloat 0.5)])]);
     ("file1", VDict [("node_type", VStr "file");
                      ("Attributes", VDict [("fileTextureName", VStr "wood.png")])])]
    [str_list ["lambert2.outColor"; "sg1.surfaceShader"];
     str_list ["file1.outColor"; "lambert2.color"];
     str_list ["defaultColorMgtGlobals.cmEnabled"; "file1.colorManagementEnabled"]]
    meshes.

Definition any_file : FileSystem :=
  {| path_exists := fun _ => true;
     open_write := fun _ => true;
     json_load := fun _ => Raise OSError |}.

(** A scene that already holds a texture node named [file1]. *)
Definition scene_with_file1 : mini_scene :=
  {| ms_nodes := [("file1", "file")];
     ms_edges := []; ms_defaults := []; ms_shapes := []; ms_attrs := [];
     ms_values := []; ms_users := [] |}.

Definition node_entry (node_type : string) : value :=
  VDict [("Attributes", VDict []); ("node_type", VStr node_type)].

(** An exported document: the material [mat] with two textures, [file1] on
    its colour and [file2] on its ambient colour. *)
Definition two_textures : value :=
  VDict [("matSG",
          VDict [("base_material", VDict [("name", VStr "mat"); ("type", VStr "lambert")]);
                 ("connections",
                  VList [str_list ["file1.outColor"; "mat.color"];
                         str_list ["file2.outColor"; "mat.ambientColor"];
                         str_list ["mat.outColor"; "matSG.surfaceShader"]]);
                 ("meshes", VList []);
                 ("nodes", VDict [("file1", node_entry "file");
                                  ("file2", node_entry "file");
                                  ("mat", node_entry "lambert")])])].

(** A scene that already holds a bump node named [bump]. *)
Definition scene_with_bump : mini_scene :=
  {| ms_nodes := [("bump", "bump2d")];
     ms_edges := []; ms_defaults := []; ms_shapes := []; ms_attrs := [];
     ms_values := []; ms_users := [] |}.

(** An exported document: the material [mat] with a bump map; the plug
    [bump.bumpValue] is the input of the bump node. *)
Definition bump_mapped : value :=
  VDict [("matSG",
          VDict [("base_material", VDict [("name", VStr "mat"); ("type", VStr "lambert")]);
                 ("connections",
                  VList [str_list ["noise.outAlpha"; "bump.bumpValue"];
                         str_list ["bump.outNormal"; "mat.normalCamera"];
                         str_list ["mat.outColor"; "matSG.surfaceShader"]]);
                 ("meshes", VList []);
                 ("nodes", VDict [("bump", node_entry "bump2d");
                                  ("mat", node_entry "lambert");
                                  ("noise", node_entry "noise")])])].

(** A scene with a camera and nothing else: a transform with a shape that
    is no mesh and has no shading engine. *)
Definition camera_scene : mini_scene :=
  {| ms_nodes := [("persp", "transform"); ("perspShape", "camera")];
     ms_edges := []; ms_defaults := []; ms_shapes := [("persp", ["perspShape"])];
     ms_attrs := []; ms_values := []; ms_users := [] |}.

(** The host commands in a trace. *)
Definition commands (tr : list event) : list command :=
  flat_map (fun e => match e with HostCmd c => [c] | _ => [] end) tr.

(* ===================================================================== *)
(** ** Notions for the further properties *)
(* ===================================================================== *)

(** The test of lines 210 and 217, as a predicate on a node whose type the
    host knows. *)
Definition is_mesh (h : Host) (each : string) : bool :=
  match has_type h each "mesh" with
  | Ok true => true
  | _ => false
  end.

(** [m] is a source of [n] that [get_src_nodes] keeps: the host lists it
    among the sources of [n], and it is no mesh. *)
Definition feeds (h : Host) (n m : string) : Prop :=
  exists l, listConnections h n lc_node_sources = Some l
            /\ In m l
            /\ has_type h m "mesh" = Ok false.

(** [m] is reached from [n] through one or more such sources. *)
Inductive upstream (h : Host) : string -> string -> Prop :=
| upstream_step (n m : string) : feeds h n m -> upstream h n m
| upstream_more (n m k : string) : feeds h n m -> upstream h m k -> upstream h n k.

(** A host with one connection, from [x] to [a], and no meshes. *)
Definition chain_host : Host :=
  {| listConnections := fun x _ => if String.eqb x "a" then Some ["x"] else None;
     listRelatives_shapes := fun _ => None;
     listRelatives_parent := fun _ => None;
     ls_showType := fun x => [x; "lambert"];
     ls_defaultNodes := [];
     listAttr := fun _ => None;
     attributeQuery_exists := fun _ _ => false;
     attributeQuery_listChildren := fun _ _ => None;
     getAttr_type := fun _ => "";
     getAttr := fun _ => VNone;
     objExists := fun _ => true;
     hyperShade_objects := fun _ => [];
     select_deselect := fun _ => [] |}.

(** A host in which every node is fed by itself. *)
Definition loop_host : Host :=
  {| listConnections := fun x _ => Some [x];
     listRelatives_shapes := fun _ => None;
     listRelatives_parent := fun _ => None;
     ls_showType := fun x => [x; "lambert"];
     ls_defaultNodes := [];
     listAttr := fun _ => None;
     attributeQuery_exists := fun _ _ => false;
     attributeQuery_listChildren := fun _ _ => None;
     getAttr_type := fun _ => "";
     getAttr := fun _ => VNone;
     objExists := fun _ => true;
     hyperShade_objects := fun _ => [];
     select_deselect := fun _ => [] |}.

(** The tests of lines 284-308 on an attribute of a node, and the value
    that is stored when they pass: the attribute exists, no plug feeds it,
    its type is none of [filter_list], and its value is no list without a
    true element; a list is stored flattened.  An attribute that passes is
    still left out when it is in [skip_attributes] (line 297), which these
    tests do not look at. *)
Definition storable_value (h : Host) (each attr : string) : option value :=
  let full_attr := dotted each attr in
  if attributeQuery_exists h attr each
     && negb (nonempty (listConnections h full_attr lc_attr_src))
     && negb (str_in (getAttr_type h full_attr) filter_list)
  then match getAttr h full_attr with
       | VList items => if any items then Some (VList (flatten_list items)) else None
       | v => Some v
       end
  else None.

(** A node that the walk records: no default node, no transform. *)
Definition recordable (h : Host) (each : string) : Prop :=
  str_in each (ls_defaultNodes h) = false
  /\ has_type h each "transform" = Ok false.

(** An entry of [nodes] as the walk over [walk] makes it. *)
Definition node_recorded (h : Host) (walk : list string) (kv : string * value) : Prop :=
  In (fst kv) walk
  /\ recordable h (fst kv)
  /\ exists t a,
       snd kv = VDict [("node_type", VStr t); ("Attributes", VDict a)]
       /\ last_of (ls_showType h (fst kv)) = Ok t
       /\ Forall (fun av : string * value =>
                    storable_value h (fst kv) (fst av) = Some (snd av)) a.

(** The [nodes] of a record. *)
Definition nodes_of (d : value) : pydict :=
  match getitem d "nodes" with
  | Ok (VDict n) => n
  | _ => []
  end.

Definition records (h : Host) (walk : list string) (d : value) : Prop :=
  exists b n c m, d = shader_record b n c m /\ Forall (node_recorded h walk) n.

(** A record with a single connection, for running the rewriting loop. *)
Definition one_connection : value :=
  VDict [("connections", VList [str_list ["file1.outColor"; "mat.color"]])].

(** A scene in which the shading engine [matSG] of [two_textures] exists. *)
Definition scene_with_matSG : mini_scene :=
  {| ms_nodes := [("matSG", "shadingEngine")];
     ms_edges := []; ms_defaults := []; ms_shapes := []; ms_attrs := [];
     ms_values := []; ms_users := [] |}.

(** Every event a computation adds to the trace passes the test [P],
    whether it returns or raises. *)
Definition emits {S A : Type} (P : event -> bool) (m : M S A) : Prop :=
  forall st r st',
    m st = (r, st') ->
    exists evs, trace st' = trace st ++ evs /\ forallb P evs = true.

Definition is_delete (e : event) : bool :=
  match e with HostCmd (CDelete _) => true | _ => false end.

Definition is_connect (e : event) : bool :=
  match e with HostCmd (CConnectAttr _ _) => true | _ => false end.

(** [connectAttr(each[0], each[1])] is the command for the pair [p]. *)
Definition connection_made (each : value) (p : string * string) : Prop :=
  subscript each 0 = Ok (VStr (fst p)) /\ subscript each 1 = Ok (VStr (snd p)).

(** The pairs of plugs of the [connectAttr] commands of a trace, in order. *)
Definition connects (tr : list event) : list (string * string) :=
  flat_map (fun e => match e with
                     | HostCmd (CConnectAttr s d) => [(s, d)]
                     | _ => []
                     end) tr.

(** The entry of [two_textures]. *)
Definition two_textures_entry : string * value :=
  match two_textures with VDict (e :: _) => e | _ => ("", VNone) end.

(** A record whose ["connections"] hold a pair of plug names and a string,
    as a document changed by hand can, and the run of the loop body on it in
    the scene [two_chains]. *)
Definition hand_made_record : value :=
  VDict [("base_material", VDict [("name", VStr "mat"); ("type", VStr "lambert")]);
         ("connections", VList [str_list ["x.outColor"; "mat.color"]; VStr "ab"]);
         ("meshes", VList []);
         ("nodes", VDict [("mat", node_entry "lambert")])].

Definition hand_made_run : result value * pystate mini_scene :=
  create_network mini_world ("sg", hand_made_record) (start two_chains).

(** A name as the host gives to a node: not empty, without a dot. *)
Definition node_name (s : string) : Prop :=
  s <> "" /\ str_contains "." s = false.

(** A scene that holds the default material and its shading engine, and a
    record as [build_shader_dict] makes of it: the material is a default
    node, so it has no entry in ["nodes"]. *)
Definition scene_with_lambert1 : mini_scene :=
  {| ms_nodes := [("lambert1", "lambert"); ("initialShadingGroup", "shadingEngine")];
     ms_edges := []; ms_defaults := ["lambert1"; "initialShadingGroup"];
     ms_shapes := []; ms_attrs := []; ms_values := []; ms_users := [] |}.

Definition default_material : value :=
  VDict [("base_material", VDict [("name", VStr "lambert1"); ("type", VStr "lambert")]);
         ("nodes", VDict []);
         ("connections",
          VList [str_list ["lambert1.outColor"; "initialShadingGroup.surfaceShader"]]);
         ("meshes", VList [VStr "pSphereShape1"])].

(** A scene in which the shading engine of [two_textures] and a texture
    exist, and the state an earlier call of [get_src_nodes] leaves: the
    texture is in the list that is the parameter's default. *)
Definition scene_with_matSG_and_ramp : mini_scene :=
  {| ms_nodes := [("matSG", "shadingEngine"); ("ramp1", "ramp")];
     ms_edges := []; ms_defaults := []; ms_shapes := []; ms_attrs := [];
     ms_values := []; ms_users := [] |}.

Definition after_earlier_call : pystate mini_scene :=
  {| scene := scene_with_matSG_and_ramp; default_node_list := ["ramp1"]; trace := [] |}.

(** Every event but the deletion of [name]. *)
Definition not_delete_of (name : string) (e : event) : bool :=
  match e with
  | HostCmd (CDelete n) => negb (String.eqb n name)
  | _ => true
  end.


(* ===================================================================== *)
(** ** Properties *)
(* ===================================================================== *)

(** *** The string functions and the small host, on examples *)

Example replace_every_occurrence :
  replace "bump.bumpValue" "bump" "bump1" = "bump1.bump1Value".
Proof. reflexivity. Qed.

Example replace_empty_old : replace "abc" "" "-" = "-a-b-c-".
Proof. reflexivity. Qed.

Example replace_no_overlap : replace "aaa" "aa" "b" = "ba".
Proof. reflexivity. Qed.

Example replace_one_pass : replace "a////b" "//" "/" = "a//b".
Proof. reflexivity. Qed.

Example unique_name_free : unique_name ["file1"] "file2" = "file2".
Proof. reflexivity. Qed.

Example unique_name_taken : unique_name ["file1"; "bump"] "file1" = "file2".
Proof. reflexivity. Qed.

Example unique_name_unnumbered : unique_name ["file1"; "bump"] "bump" = "bump1".
Proof. reflexivity. Qed.

Example unique_name_next_free : unique_name ["file1"; "file2"; "bump"] "file1" = "file3".
Proof. reflexivity. Qed.

(** *** Loops *)

Lemma for_each_invariant {A S : Type} (P : S -> Prop) (body : S -> A -> result S)
  (l : list A) (s r : S) :
  P s ->
  (forall s x s', In x l -> P s -> body s x = Ok s' -> P s') ->
  for_each body l s = Ok r ->
  P r.
Proof.
  revert s. induction l as [|x l IH]; intros s Hs Hbody Hrun; simpl in Hrun.
  - now inversion Hrun; subst.
  - destruct (body s x) as [s'|e] eqn:Hx; simpl in Hrun; [|discriminate].
    apply (IH s'); auto.
    + apply (Hbody s x); simpl; auto.
    + intros s0 y s1 Hy. apply Hbody. simpl; auto.
Qed.

Lemma bind_ok {A B : Type} (m : result A) (k : A -> result B) (b : B) :
  bind m k = Ok b -> exists a, m = Ok a /\ k a = Ok b.
Proof. destruct m as [a|e]; simpl; intros H; [eauto | discriminate]. Qed.

Ltac bind_inv H :=
  let a := fresh "x" in
  let Ha := fresh "Hx" in
  apply bind_ok in H as (a & Ha & H).

(** *** flatten_list *)

Lemma flatten_list_from (matrix acc : list value) :
  fold_left flatten_step matrix acc = acc ++ concat (map splice matrix).
Proof.
  revert acc. induction matrix as [|each matrix IH]; intros acc; simpl.
  - now rewrite app_nil_r.
  - rewrite IH. destruct each; simpl; now rewrite <- app_assoc.
Qed.

(** The function splices exactly one level. *)
Lemma flatten_list_splice (matrix : list value) :
  flatten_list matrix = concat (map splice matrix).
Proof. unfold flatten_list. now rewrite flatten_list_from. Qed.

(** On a list whose sequences hold no sequence, the result has none. *)
Lemma flatten_list_one_level (matrix : list value) :
  Forall (fun each => Forall (fun y => is_sequence y = false) (splice each)) matrix ->
  Forall (fun y => is_sequence y = false) (flatten_list matrix).
Proof.
  intros H. rewrite flatten_list_splice.
  induction H as [|each matrix Heach _ IH]; simpl.
  - constructor.
  - apply List.Forall_app. split; assumption.
Qed.

(** C3. On the example its own docstring gives, [flatten_list] returns
    [[1.0, 2.3, 4, (), "string_val"]]: the empty tuple nested two levels deep
    is still an element of the result, which therefore is not a list without
    list or tuple elements. *)
Theorem flatten_list_docstring_example :
  flatten_list docstring_example
  = [VFloat 1.0; VFloat 2.3; VInt 4; VTuple []; VStr "string_val"]
  /\ Forall (fun each => is_sequence each = true) docstring_example
  /\ existsb is_sequence (flatten_list docstring_example) = true.
Proof.
  split; [reflexivity|]. split; [|reflexivity].
  repeat constructor.
Qed.

(** *** confirm_attr_order *)

Lemma confirm_attr_order_ordered (h : Host) (l : option (list string))
  (pair : list string) :
  confirm_attr_order h l = Ok pair ->
  exists source destination,
    pair = [source; destination]
    /\ (listed_source h destination source = true
        \/ listed_source h source destination = false).
Proof.
  unfold confirm_attr_order. intros H. bind_inv H. bind_inv H.
  rename x into attr_1, x0 into attr_2.
  destruct (listConnections h attr_1 lc_plug_sources) as [[|s sources]|] eqn:E1;
    cbn [nonempty] in H.
  - inversion H; subst. exists attr_1, attr_2. split; [reflexivity|].
    right. unfold listed_source. now rewrite E1.
  - destruct (str_in attr_2 (s :: sources)) eqn:E; inversion H; subst.
    + exists attr_2, attr_1. split; [reflexivity|].
      left. unfold listed_source. now rewrite E1.
    + exists attr_1, attr_2. split; [reflexivity|].
      right. unfold listed_source. now rewrite E1.
  - inversion H; subst. exists attr_1, attr_2. split; [reflexivity|].
    right. unfold listed_source. now rewrite E1.
Qed.


(** *** validate_file_path *)

Lemma replace_from_absent (old new s : string) :
  str_contains old s = false -> replace_from old new 0 s = s.
Proof.
  induction s as [|c s IH]; intros H; [reflexivity|].
  cbn [str_contains] in H. apply orb_false_iff in H as [Hp Hs].
  cbn [replace_from]. rewrite Hp. now rewrite IH.
Qed.

Lemma replace_absent (s old new : string) :
  str_contains old s = false -> replace s old new = s.
Proof.
  intros H. destruct old as [|c old].
  - destruct s; discriminate H.
  - unfold replace. now apply replace_from_absent.
Qed.

(** A path without backslash and without doubled slash is its own normal
    form. *)
Lemma normalized_path_id (file_path : string) :
  str_contains backslash file_path = false ->
  str_contains "//" file_path = false ->
  normalized_path file_path = file_path.
Proof.
  intros Hb Hs. unfold normalized_path.
  rewrite (replace_absent _ _ _ Hb). now apply replace_absent.
Qed.

(** C8, as stated, fails: the path [a//b] holds no backslash, so it is
    tested and returned as it is, not in the normal form [a/b]. *)
Lemma validate_file_path_keeps_doubled_slash :
  normalized_path "a//b" = "a/b"
  /\ path_exists fs_doubled_slash (normalized_path "a//b") = true
  /\ validate_file_path fs_doubled_slash "a//b" = ([], Ok (VStr "a//b"))
  /\ validate_file_path fs_doubled_slash "a//b"
     <> ([], Ok (VStr (normalized_path "a//b"))).
Proof. repeat split; try reflexivity. discriminate. Qed.

(** C8, amended. [validate_file_path] never raises.  The path it tests is
    the normal form (backslashes replaced, then doubled slashes collapsed)
    when the input holds a backslash, and the input itself otherwise; the two
    agree when the input holds no doubled slash.  When that path does not
    exist the call logs an error and returns [None]; when it exists the call
    logs nothing and returns it. *)
Theorem validate_file_path_spec (fs : FileSystem) (file_path : string) :
  let tested :=
    if str_contains backslash file_path then normalized_path file_path else file_path in
  (exists v, snd (validate_file_path fs file_path) = Ok v)
  /\ (str_contains "//" file_path = false -> tested = normalized_path file_path)
  /\ validate_file_path fs file_path
     = if path_exists fs tested
       then ([], Ok (VStr tested))
       else ([not_found tested], Ok VNone).
Proof.
  cbv zeta. unfold validate_file_path, normalized_path.
  destruct (str_contains backslash file_path) eqn:Hb.
  - split; [|split; [reflexivity|reflexivity]].
    destruct (path_exists fs _); eexists; reflexivity.
  - split; [|split].
    + destruct (path_exists fs _); eexists; reflexivity.
    + intros Hs. symmetry. now apply normalized_path_id.
    + reflexivity.
Qed.

(** *** get_src_nodes *)

Lemma add_sources_incl (h : Host) (src_nodes node_list r : list string) :
  add_sources h src_nodes node_list = Ok r -> incl node_list r.
Proof.
  unfold add_sources. apply for_each_invariant.
  - apply incl_refl.
  - intros s x s' _ Hs Hbody. bind_inv Hbody.
    destruct x0; [|destruct (negb (str_in x s))]; inversion Hbody; subst; auto.
    apply incl_appl. exact Hs.
Qed.

(** The list a call returns holds everything the list it was given held. *)
Lemma get_src_nodes_incl (h : Host) (depth : nat) :
  forall (node_name : string) (node_list r : list string),
    get_src_nodes h depth node_name node_list = Ok r -> incl node_list r.
Proof.
  induction depth as [|depth IH]; intros node_name node_list r H; [discriminate|].
  cbn [get_src_nodes] in H. bind_inv H.
  destruct (nonempty x) eqn:Hne.
  - destruct x as [l|]; [|discriminate].
    bind_inv H.
    apply incl_tran with (m := x).
    + eapply add_sources_incl; eauto.
    + revert H. apply for_each_invariant.
      * apply incl_refl.
      * intros s y s' _ Hs Hy. apply incl_tran with (m := s); eauto.
  - now inversion H; subst.
Qed.

(** C9. With [node_list] left out, [get_src_nodes] appends to the one list
    that is the parameter's default and returns that list.  So of two calls in
    a row, in the same scene, the second returns every node the first
    returned; and the same call in the same scene gives [["y"]] on a fresh
    default list and [["x", "y"]] after a call for another node: the result is
    not a function of the arguments and the scene. *)
Theorem get_src_nodes_default_shared :
  (forall (w : World) (depth : nat) (a b : string) (st st1 st2 : pystate (Scene w))
          (r1 r2 : list string),
      get_src_nodes_default w depth a st = (Ok r1, st1) ->
      get_src_nodes_default w depth b st1 = (Ok r2, st2) ->
      scene st1 = scene st /\ incl r1 r2)
  /\ (exists st1 st2 st2' : pystate mini_scene,
        get_src_nodes_default mini_world 10 "a" (start two_chains) = (Ok ["x"], st1)
        /\ scene st1 = scene (start two_chains)
        /\ get_src_nodes_default mini_world 10 "b" st1 = (Ok ["x"; "y"], st2)
        /\ get_src_nodes_default mini_world 10 "b" (start two_chains) = (Ok ["y"], st2')).
Proof.
  split.
  - intros w depth a b st st1 st2 r1 r2 H1 H2.
    unfold get_src_nodes_default in H1, H2.
    destruct (get_src_nodes (queries w (scene st)) depth a (default_node_list st))
      as [l1|e1] eqn:E1; inversion H1; subst; clear H1.
    simpl in H2. split; [reflexivity|].
    destruct (get_src_nodes (queries w (scene st)) depth b r1) as [l2|e2] eqn:E2;
      inversion H2; subst; clear H2.
    eapply get_src_nodes_incl; eauto.
  - do 3 eexists. repeat split; reflexivity.
Qed.

Lemma get_src_nodes_default_shared_witness :
  incl ["x"] ["x"; "y"].
Proof.
  refine (proj2 (proj1 get_src_nodes_default_shared mini_world 10 "a" "b"
                       (start two_chains) _ _ ["x"] ["x"; "y"] _ _));
    reflexivity.
Defined.

(** *** Dictionaries and records *)

Lemma str_in_true (x : string) (l : list string) : In x l -> str_in x l = true.
Proof.
  intros H. unfold str_in. apply existsb_exists. exists x. split; [exact H|].
  apply String.eqb_refl.
Qed.

Lemma str_in_In (x : string) (l : list string) : str_in x l = true -> In x l.
Proof.
  unfold str_in. intros H. apply existsb_exists in H as (y & Hy & E).
  apply String.eqb_eq in E. now subst.
Qed.

Lemma dict_lookup_set (k k' : string) (v : value) (d : pydict) :
  dict_lookup k (dict_set k' v d)
  = if String.eqb k k' then Some v else dict_lookup k d.
Proof.
  induction d as [|[k0 v0] d IH]; simpl.
  - destruct (String.eqb k k'); reflexivity.
  - destruct (String.eqb_spec k' k0) as [->|Hne]; simpl.
    + destruct (String.eqb k k0); reflexivity.
    + rewrite IH. destruct (String.eqb_spec k k0) as [->|Hne'].
      * destruct (String.eqb_spec k0 k') as [->|_]; [contradiction|reflexivity].
      * reflexivity.
Qed.

Lemma dict_has_set (k k' : string) (v : value) (d : pydict) :
  dict_has k d = true -> dict_has k (dict_set k' v d) = true.
Proof.
  unfold dict_has. rewrite dict_lookup_set.
  destruct (String.eqb k k'); [reflexivity | auto].
Qed.

Lemma dict_has_set_same (k : string) (v : value) (d : pydict) :
  dict_has k (dict_set k v d) = true.
Proof. unfold dict_has. rewrite dict_lookup_set, String.eqb_refl. reflexivity. Qed.

Lemma dict_lookup_In (k : string) (v : value) (d : pydict) :
  dict_lookup k d = Some v -> In (k, v) d.
Proof.
  induction d as [|[k0 v0] d IH]; simpl; [discriminate|].
  destruct (String.eqb_spec k k0) as [->|Hne]; intros H.
  - inversion H; subst. now left.
  - right. auto.
Qed.

Lemma Forall_dict_set (P : string * value -> Prop) (k : string) (v : value) (d : pydict) :
  P (k, v) -> Forall P d -> Forall P (dict_set k v d).
Proof.
  intros Hv H. induction H as [|[k0 v0] d H0 H IH]; simpl.
  - constructor; [apply Hv | constructor].
  - destruct (String.eqb_spec k k0) as [<-|_].
    + constructor; [apply Hv | exact H].
    + constructor; assumption.
Qed.

Lemma dict_set_twice (k : string) (v v' : value) (d : pydict) :
  dict_set k v' (dict_set k v d) = dict_set k v' d.
Proof.
  induction d as [|[k0 v0] d IH]; simpl.
  - now rewrite String.eqb_refl.
  - destruct (String.eqb k k0) eqn:E; simpl; rewrite E; [reflexivity|].
    now rewrite IH.
Qed.

Lemma connection_of_mono (h : Host) (sg : string) (nodes nodes' : pydict) (c : value) :
  (forall k, dict_has k nodes = true -> dict_has k nodes' = true) ->
  connection_of h sg nodes c -> connection_of h sg nodes' c.
Proof.
  intros Hk [plug pair Hp Hc | each attr pair Hn Hc].
  - eapply engine_connection; eauto.
  - eapply node_connection; eauto. destruct Hn; auto.
Qed.

Lemma append_to_connections (b : value) (n : pydict) (c m : list value) (x : value) :
  append_to (shader_record b n c m) "connections" x
  = Ok (shader_record b n (c ++ [x]) m).
Proof. reflexivity. Qed.

Lemma append_to_meshes (b : value) (n : pydict) (c m : list value) (x : value) :
  append_to (shader_record b n c m) "meshes" x
  = Ok (shader_record b n c (m ++ [x])).
Proof. reflexivity. Qed.

Lemma getitem_nodes (b : value) (n : pydict) (c m : list value) :
  getitem (shader_record b n c m) "nodes" = Ok (VDict n).
Proof. reflexivity. Qed.

Lemma setitem_nodes (b : value) (n : pydict) (c m : list value) (v : value) :
  setitem (shader_record b n c m) "nodes" v
  = Ok (VDict [("base_material", b); ("nodes", v);
               ("connections", VList c); ("meshes", VList m)]).
Proof. reflexivity. Qed.

Lemma member_of_connections (b : value) (n : pydict) (c m : list value) (x : value) :
  member_of (shader_record b n c m) "connections" x
  = Ok (existsb (fun y => py_eq y x) c).
Proof. reflexivity. Qed.

Lemma is_node_inv (v : value) :
  is_node v = true ->
  exists t a, v = VDict [("node_type", VStr t); ("Attributes", VDict a)].
Proof.
  destruct v as [| | | | | | |d]; try discriminate.
  destruct d as [|[k1 [| | | |t| | |]] [|[k2 [| | | | | | |a]] [|]]]; try discriminate.
  simpl. intros H. apply andb_true_iff in H as [H1 H2].
  apply String.eqb_eq in H1, H2. subst. eauto.
Qed.

Lemma set_node_attribute_record (b : value) (n : pydict) (c m : list value)
  (each attr : string) (val d' : value) :
  Forall (fun kv : string * value => is_node (snd kv) = true) n ->
  set_node_attribute (shader_record b n c m) each attr val = Ok d' ->
  exists n', d' = shader_record b n' c m
             /\ Forall (fun kv : string * value => is_node (snd kv) = true) n'
             /\ (forall k, dict_has k n = true -> dict_has k n' = true).
Proof.
  intros Hn H. unfold set_node_attribute in H.
  rewrite getitem_nodes in H. cbn [bind] in H.
  unfold getitem at 1 in H.
  destruct (dict_lookup each n) as [node|] eqn:Hl; [|discriminate].
  cbn [bind] in H.
  assert (Hnode : is_node node = true).
  { apply dict_lookup_In in Hl. apply (proj1 (List.Forall_forall _ _) Hn _ Hl). }
  apply is_node_inv in Hnode as (t & a & ->).
  cbn in H. inversion H; subst; clear H.
  eexists. split; [reflexivity|]. split.
  - apply Forall_dict_set; [reflexivity | exact Hn].
  - intros k. apply dict_has_set.
Qed.

(** *** The walk over the nodes of the network *)

Lemma walked_at_walked (h : Host) (sg : string) (b : value) (m : list value)
  (each : string) (d : value) :
  walked_at h sg b m each d -> walked h sg b m d.
Proof. intros (n & c & -> & Hn & Hc & _). exists n, c. auto. Qed.

Lemma walked_at_set (h : Host) (sg : string) (b : value) (m : list value)
  (each attr : string) (val d d' : value) :
  walked_at h sg b m each d ->
  set_node_attribute d each attr val = Ok d' ->
  walked_at h sg b m each d'.
Proof.
  intros (n & c & -> & Hn & Hc & Hv) H.
  apply set_node_attribute_record in H as (n' & -> & Hn' & Hk); [|exact Hn].
  exists n', c. repeat split; auto.
  - eapply List.Forall_impl; [|exact Hc]. intros x. now apply connection_of_mono.
  - destruct Hv; auto.
Qed.

Lemma node_attribute_walked (h : Host) (sg : string) (b : value) (m : list value)
  (each attr : string) (st st' : value * list string) :
  walked_at h sg b m each (fst st) ->
  node_attribute h each st attr = Ok st' ->
  walked_at h sg b m each (fst st').
Proof.
  destruct st as [d skip]. cbn [fst]. intros Hw H.
  unfold node_attribute in H.
  destruct (attributeQuery_exists h attr each); [|now inversion H; subst].
  destruct (nonempty (listConnections h (dotted each attr) lc_attr_src)).
  - bind_inv H. rename x into pair.
    destruct Hw as (n & c & -> & Hn & Hc & Hv).
    rewrite member_of_connections in H. cbn [bind] in H.
    destruct (negb (existsb _ c)).
    + rewrite append_to_connections in H. cbn [bind] in H.
      inversion H; subst; clear H. cbn [fst].
      exists n, (c ++ [str_list pair]). repeat split; auto.
      apply List.Forall_app. split; [exact Hc|].
      constructor; [|constructor].
      eapply node_connection; eauto.
    + inversion H; subst; clear H. exists n, c. auto.
  - destruct (negb (str_in attr skip)); [|now inversion H; subst].
    destruct (negb (str_in (getAttr_type h (dotted each attr)) filter_list));
      [|now inversion H; subst].
    destruct (getAttr h (dotted each attr)) eqn:Hval;
      try (bind_inv H; inversion H; subst; cbn [fst]; eapply walked_at_set; eauto; fail).
    destruct (negb (any l)); [now inversion H; subst|].
    bind_inv H; inversion H; subst; cbn [fst]; eapply walked_at_set; eauto.
Qed.

Lemma node_attributes_walked (h : Host) (sg : string) (b : value) (m : list value)
  (each : string) (d d' : value) :
  walked_at h sg b m each d ->
  node_attributes h each d = Ok d' ->
  walked h sg b m d'.
Proof.
  intros Hw H. unfold node_attributes in H.
  bind_inv H. bind_inv H. inversion H; subst; clear H.
  apply walked_at_walked with (each := each).
  revert Hx0. apply (for_each_invariant (fun st => walked_at h sg b m each (fst st))).
  - exact Hw.
  - intros s attr s' _. apply node_attribute_walked.
Qed.

Lemma graph_node_walked (h : Host) (sg : string) (b : value) (m : list value)
  (each : string) (d d' : value) :
  walked h sg b m d ->
  graph_node h d each = Ok d' ->
  walked h sg b m d'.
Proof.
  intros Hw H. unfold graph_node in H.
  bind_inv H. destruct x.
  - destruct (listRelatives_shapes h each) as [shapes|]; [|discriminate].
    destruct (negb (length shapes =? 0)%nat); [now inversion H; subst|].
    eapply node_attributes_walked; [|exact H].
    destruct Hw as (n & c & -> & Hn & Hc). exists n, c. auto.
  - destruct (str_in each (ls_defaultNodes h)); [now inversion H; subst|].
    bind_inv H. rename x into node_type.
    destruct Hw as (n & c & -> & Hn & Hc).
    rewrite getitem_nodes in H. cbn [bind setitem] in H.
    eapply node_attributes_walked; [|exact H].
    eexists _, c. split; [reflexivity|]. repeat split.
    + apply Forall_dict_set; [reflexivity | exact Hn].
    + eapply List.Forall_impl; [|exact Hc].
      intros x. apply connection_of_mono. intros k. apply dict_has_set.
    + left. apply dict_has_set_same.
Qed.

Lemma collect_meshes_from (h : Host) (all : list string) (b : value) (n : pydict)
  (c : list value) (l : list string) :
  forall m : list value,
    (forall x, In x l -> str_in x all = true) ->
    for_each (fun shader_dict each =>
                if str_in each all
                then append_to shader_dict "meshes" (VStr each)
                else
                  parent <- first_of (listRelatives_parent h each) ;;
                  if str_in parent all
                  then append_to shader_dict "meshes" (VStr each)
                  else Ok shader_dict)
             l (shader_record b n c m)
    = Ok (shader_record b n c (m ++ map VStr l)).
Proof.
  induction l as [|x l IH]; intros m Hall; cbn [for_each map].
  - now rewrite app_nil_r.
  - rewrite (Hall x) by (simpl; auto).
    rewrite append_to_meshes. cbn [bind].
    rewrite IH by (intros y Hy; apply Hall; simpl; auto).
    now rewrite <- app_assoc.
Qed.

(** Every object that uses the material is recorded in [meshes]. *)
Lemma collect_meshes_all (h : Host) (b : value) (n : pydict) (c : list value)
  (meshes_with_material : list string) :
  collect_meshes h meshes_with_material (shader_record b n c [])
  = Ok (shader_record b n c (map VStr meshes_with_material)).
Proof.
  unfold collect_meshes. rewrite collect_meshes_from; [reflexivity|].
  intros x. apply str_in_true.
Qed.

Lemma engine_connections_walked (h : Host) (sg : string) (b : value) (m : list value)
  (src : list string) (d d' : value) :
  walked h sg b m d ->
  engine_connections h sg src d = Ok d' ->
  walked h sg b m d'.
Proof.
  unfold engine_connections. intros Hw.
  apply (for_each_invariant (walked h sg b m)); [exact Hw|].
  intros s each s' _ Hs H.
  destruct (str_contains "dagSetMembers" each); [now inversion H; subst|].
  destruct (String.eqb_spec (before_dot each) sg) as [E|_]; [|now inversion H; subst].
  bind_inv H. rename x into pair.
  destruct Hs as (n & c & -> & Hn & Hc).
  rewrite append_to_connections in H. inversion H; subst; clear H.
  exists n, (c ++ [str_list pair]). repeat split; auto.
  apply List.Forall_app. split; [exact Hc|].
  constructor; [|constructor]. eapply engine_connection; eauto.
Qed.

(** What [build_shader_dict] returns, when it returns: the base material the
    host names for the shading engine, the objects that use it as [meshes],
    well-shaped [nodes], and [connections] that all come from the host's
    listings. *)
Lemma build_shader_dict_shape (h : Host) (depth : nat) (sg : string)
  (d : value) (selection : list string) :
  build_shader_dict h depth sg = Ok (d, selection) ->
  exists (material_name material_type : string),
    first_of (listConnections h (sg ++ ".surfaceShader") lc_material) = Ok material_name
    /\ index1 (ls_showType h material_name) = Ok material_type
    /\ selection = select_deselect h (hyperShade_objects h material_name)
    /\ walked h sg (base_material_of material_name material_type)
              (map VStr (hyperShade_objects h material_name)) d.
Proof.
  intros H. unfold build_shader_dict in H.
  bind_inv H. rename x into material_name.
  bind_inv H. rename x into material_type.
  cbn [empty_shader_dict setitem2 getitem setitem dict_lookup dict_set String.eqb
       Ascii.eqb Bool.eqb bind] in H.
  change (VDict [("base_material", VDict [("name", VStr material_name);
                                          ("type", VStr material_type)]);
                 ("nodes", VDict []); ("connections", VList []); ("meshes", VList [])])
    with (shader_record (base_material_of material_name material_type) [] [] []) in H.
  rewrite collect_meshes_all in H. cbn [bind] in H.
  bind_inv H. rename x into src.
  bind_inv H. bind_inv H. bind_inv H.
  inversion H; subst; clear H.
  exists material_name, material_type. repeat split; auto.
  eapply for_each_invariant; [| |exact Hx4].
  - eapply engine_connections_walked; [|exact Hx2].
    exists [], []. repeat split; constructor.
  - intros s each s' _. apply graph_node_walked.
Qed.

Example build_sg1 :
  build_shader_dict (mini_host textured_sphere) 100 "sg1"
  = Ok (sg1_record [VStr "pSphereShape1"], []).
Proof. reflexivity. Qed.

(** *** export_shaders *)

Lemma confirm_attr_order_pair (h : Host) (l : option (list string)) (pair : list string) :
  confirm_attr_order h l = Ok pair -> exists a b, pair = [a; b].
Proof.
  unfold confirm_attr_order. intros H. bind_inv H. bind_inv H.
  destruct (nonempty _); [|inversion H; eauto].
  destruct (listConnections h x lc_plug_sources) as [sources|]; [|discriminate].
  destruct (str_in x0 sources); inversion H; eauto.
Qed.

Lemma connection_of_pair (h : Host) (sg : string) (n : pydict) (c : value) :
  connection_of h sg n c -> is_plug_pair c = true.
Proof.
  intros [plug pair _ Hc | each attr pair _ Hc];
    apply confirm_attr_order_pair in Hc as (a & b & ->); reflexivity.
Qed.

Lemma forallb_Forall {A : Type} (f : A -> bool) (l : list A) :
  Forall (fun x => f x = true) l -> forallb f l = true.
Proof. intros H. apply forallb_forall. now apply List.Forall_forall. Qed.

Lemma walked_is_shader_network (h : Host) (sg material_name material_type : string)
  (meshes : list string) (d : value) :
  walked h sg (base_material_of material_name material_type) (map VStr meshes) d ->
  is_shader_network d = true.
Proof.
  intros (n & c & -> & Hn & Hc). unfold shader_record, base_material_of.
  cbn [is_shader_network String.eqb Ascii.eqb Bool.eqb andb].
  rewrite (forallb_Forall _ _ Hn). cbn [andb].
  rewrite forallb_Forall.
  - cbn [andb]. apply forallb_forall. intros x Hx.
    apply in_map_iff in Hx as (y & <- & _). reflexivity.
  - eapply List.Forall_impl; [|exact Hc]. intros x. apply connection_of_pair.
Qed.

Lemma selected_engines_spec (h : Host) (selection l : list string) :
  selected_engines h selection = Ok l ->
  Forall (fun x => In x selection /\ has_type h x "shadingEngine" = Ok true) l.
Proof.
  unfold selected_engines. apply for_each_invariant; [constructor|].
  intros s x s' Hin Hs H. bind_inv H. destruct x0; inversion H; subst; auto.
  apply List.Forall_app. split; [exact Hs|]. constructor; [auto | constructor].
Qed.

Lemma export_mesh_entry_exported (h : Host) (depth : nat) (selection : list string)
  (st st' : pydict * list string) (each : string) :
  In each (selected_meshes h selection) ->
  exported h selection "mesh" (fst st) ->
  export_mesh_entry h depth st each = Ok st' ->
  exported h selection "mesh" (fst st').
Proof.
  destruct st as [d sel]. cbn [fst]. intros Hin Hd H.
  unfold export_mesh_entry in H. bind_inv H. rename x into sg.
  destruct (str_in sg (dict_keys d)); [now inversion H; subst|].
  bind_inv H. destruct x as [rec sel']. inversion H; subst; clear H. cbn [fst].
  apply Forall_dict_set; [|exact Hd]. split.
  - apply build_shader_dict_shape in Hx0 as (mn & mt & H1 & H2 & _ & Hw).
    exists mn, mt. cbn [fst snd String.eqb Ascii.eqb Bool.eqb]. auto.
  - left. split; [reflexivity|]. exists each. auto.
Qed.

Lemma export_engine_entry_exported (h : Host) (depth : nat) (selection : list string)
  (st st' : pydict * list string) (each : string) :
  In each selection ->
  has_type h each "shadingEngine" = Ok true ->
  exported h selection "shadingEngine" (fst st) ->
  export_engine_entry h depth st each = Ok st' ->
  exported h selection "shadingEngine" (fst st').
Proof.
  destruct st as [d sel]. cbn [fst]. intros Hin Hty Hd H.
  unfold export_engine_entry in H.
  destruct (str_in each (dict_keys d)); [now inversion H; subst|].
  bind_inv H. destruct x as [rec sel']. cbn [fst snd] in H.
  unfold getitem at 1 in H. rewrite dict_lookup_set, String.eqb_refl in H.
  cbn [bind] in H.
  apply build_shader_dict_shape in Hx as (mn & mt & H1 & H2 & _ & Hw).
  destruct Hw as (n & c & -> & Hn & Hc).
  cbn in H. inversion H; subst; clear H. cbn [fst].
  rewrite dict_set_twice.
  apply Forall_dict_set; [|exact Hd]. split.
  - exists mn, mt. cbn [fst snd String.eqb Ascii.eqb Bool.eqb].
    repeat split; auto. exists n, c. auto.
  - right. auto.
Qed.

Lemma log_if_errors (c : bool) (msg : string) :
  forallb is_log_error (log_if c msg) = true.
Proof. destruct c; reflexivity. Qed.

Lemma export_collect_log (h : Host) (depth : nat) (selection : list string)
  (selection_type : string) :
  forallb is_log_error (fst (export_collect h depth selection selection_type)) = true.
Proof.
  unfold export_collect.
  destruct (String.eqb selection_type "mesh").
  - cbn [fst]. now rewrite forallb_app, !log_if_errors.
  - destruct (String.eqb selection_type "shadingEngine").
    + destruct (selected_engines h selection); cbn [fst];
        [now rewrite forallb_app, !log_if_errors | apply log_if_errors].
    + apply log_if_errors.
Qed.

Lemma export_collect_exported (h : Host) (depth : nat) (selection : list string)
  (selection_type : string) (log : list event) (d : pydict) (selection' : list string) :
  export_collect h depth selection selection_type = (log, Ok (d, selection')) ->
  exported h selection selection_type d.
Proof.
  unfold export_collect.
  destruct (String.eqb_spec selection_type "mesh") as [->|_].
  - intros H. injection H as _ Hrun.
    apply (for_each_invariant (fun st => exported h selection "mesh" (fst st)))
      in Hrun; [exact Hrun | constructor |].
    intros s x s' Hin. now apply export_mesh_entry_exported.
  - destruct (String.eqb_spec selection_type "shadingEngine") as [->|_].
    + destruct (selected_engines h selection) as [engines|e] eqn:He; [|discriminate].
      intros H. injection H as _ Hrun.
      apply selected_engines_spec in He.
      apply (for_each_invariant (fun st => exported h selection "shadingEngine" (fst st)))
        in Hrun; [exact Hrun | constructor |].
      intros s x s' Hin. apply (proj1 (List.Forall_forall _ _) He) in Hin as [? ?].
      now apply export_engine_entry_exported.
    + intros H. inversion H; subst. constructor.
Qed.

(** What [export_shaders] writes, whenever it writes: one document, at the
    path it was given, holding the dictionary built from the selection. *)
Lemma export_shaders_written (h : Host) (fs : FileSystem) (depth : nat)
  (selection : list string) (full_export_path selection_type : string)
  (events : list event) (r : result (list string)) (p : string) (doc : value) :
  export_shaders h fs depth selection full_export_path selection_type = (events, r) ->
  In (WriteJson p doc) events ->
  exists d, doc = VDict d /\ p = full_export_path
            /\ exported h selection selection_type d.
Proof.
  unfold export_shaders. intros H Hin.
  pose proof (export_collect_log h depth selection selection_type) as Hlog.
  destruct (export_collect h depth selection selection_type) as [log [[d sel']|e]] eqn:Hc;
    cbn [fst] in Hlog.
  - destruct (open_write fs full_export_path); inversion H; subst; clear H.
    + apply in_app_or in Hin as [Hin|[Hin|[Hin|[]]]]; try discriminate.
      * rewrite forallb_forall in Hlog. apply Hlog in Hin. discriminate.
      * inversion Hin; subst. exists d. repeat split.
        eapply export_collect_exported; eauto.
    + rewrite forallb_forall in Hlog. apply Hlog in Hin. discriminate.
  - inversion H; subst. rewrite forallb_forall in Hlog. apply Hlog in Hin. discriminate.
Qed.

(** C4. Every document [export_shaders] writes is an object whose keys are
    the shading groups taken from the selection and whose values all have the
    ShaderNetwork shape: [base_material] with [name] and [type], [nodes] from
    node name to node type and attribute values, [connections] as a sequence
    of plug pairs, and [meshes] as a sequence of names. *)
Theorem export_shaders_document_shape (h : Host) (fs : FileSystem) (depth : nat)
  (selection : list string) (full_export_path selection_type : string)
  (events : list event) (r : result (list string)) (p : string) (doc : value) :
  export_shaders h fs depth selection full_export_path selection_type = (events, r) ->
  In (WriteJson p doc) events ->
  exists d, doc = VDict d
            /\ Forall (fun kv : string * value =>
                         engine_key h selection selection_type (fst kv)
                         /\ is_shader_network (snd kv) = true) d.
Proof.
  intros H Hin.
  destruct (export_shaders_written _ _ _ _ _ _ _ _ _ _ H Hin) as (d & -> & _ & Hd).
  exists d. split; [reflexivity|].
  eapply List.Forall_impl; [|exact Hd].
  intros [k rec] [(mn & mt & _ & _ & Hw) Hk]. split; [exact Hk|].
  cbn [fst snd] in *. destruct (String.eqb selection_type "mesh").
  - eapply walked_is_shader_network; eauto.
  - change (@nil value) with (map VStr []) in Hw.
    eapply walked_is_shader_network; eauto.
Qed.

Lemma export_shaders_document_shape_witness :
  export_shaders (mini_host textured_sphere) any_file 100 ["pSphere1"] "out.json" "mesh"
  = ([WriteJson "out.json" (VDict [("sg1", sg1_record [VStr "pSphereShape1"])]);
      LogInfo "Shaders Successfully Exported."], Ok [])
  /\ exists d, VDict [("sg1", sg1_record [VStr "pSphereShape1"])] = VDict d
               /\ Forall (fun kv : string * value =>
                            engine_key (mini_host textured_sphere) ["pSphere1"] "mesh" (fst kv)
                            /\ is_shader_network (snd kv) = true) d.
Proof.
  split; [reflexivity|].
  apply (export_shaders_document_shape (mini_host textured_sphere) any_file 100
           ["pSphere1"] "out.json" "mesh" _ _ "out.json" _ eq_refl).
  left. reflexivity.
Defined.

(** C6, as stated, fails for a selection of shading engines: [sg1] has the
    bound mesh [pSphereShape1], and the record written for it has an empty
    [meshes]. *)
Lemma export_shaders_engine_selection_no_meshes :
  bound_meshes (mini_host textured_sphere) "sg1" = Ok ["pSphereShape1"]
  /\ export_shaders (mini_host textured_sphere) any_file 100 ["sg1"] "out.json"
                    "shadingEngine"
     = ([WriteJson "out.json" (VDict [("sg1", sg1_record [])]);
         LogInfo "Shaders Successfully Exported."], Ok [])
  /\ getitem (sg1_record []) "meshes" = Ok (VList []).
Proof. repeat split; reflexivity. Qed.

(** C6, amended. In every document [export_shaders] writes, the [meshes] of
    the record of a shading group is the list of the objects that use the
    group's base material when [selection_type] is ["mesh"], and the empty
    list when it is ["shadingEngine"]. *)
Theorem export_shaders_meshes (h : Host) (fs : FileSystem) (depth : nat)
  (selection : list string) (full_export_path selection_type : string)
  (events : list event) (r : result (list string)) (p : string) (doc : value) :
  export_shaders h fs depth selection full_export_path selection_type = (events, r) ->
  In (WriteJson p doc) events ->
  exists d, doc = VDict d
            /\ Forall (fun kv : string * value =>
                         exists bound,
                           bound_meshes h (fst kv) = Ok bound
                           /\ getitem (snd kv) "meshes"
                              = Ok (str_list (if String.eqb selection_type "mesh"
                                              then bound else []))) d.
Proof.
  intros H Hin.
  destruct (export_shaders_written _ _ _ _ _ _ _ _ _ _ H Hin) as (d & -> & _ & Hd).
  exists d. split; [reflexivity|].
  eapply List.Forall_impl; [|exact Hd].
  intros [k rec] [(mn & mt & Hm & _ & (n & c & Hrec & _)) _]. cbn [fst snd] in *.
  exists (hyperShade_objects h mn). unfold bound_meshes. rewrite Hm. split; [reflexivity|].
  subst rec. destruct (String.eqb selection_type "mesh"); reflexivity.
Qed.

Lemma export_shaders_meshes_witness :
  export_shaders (mini_host textured_sphere) any_file 100 ["pSphere1"] "out.json" "mesh"
  = ([WriteJson "out.json" (VDict [("sg1", sg1_record [VStr "pSphereShape1"])]);
      LogInfo "Shaders Successfully Exported."], Ok [])
  /\ exists d, VDict [("sg1", sg1_record [VStr "pSphereShape1"])] = VDict d
               /\ Forall (fun kv : string * value =>
                            exists bound,
                              bound_meshes (mini_host textured_sphere) (fst kv) = Ok bound
                              /\ getitem (snd kv) "meshes" = Ok (str_list bound)) d.
Proof.
  split; [reflexivity|].
  apply (export_shaders_meshes (mini_host textured_sphere) any_file 100
           ["pSphere1"] "out.json" "mesh" _ _ "out.json" _ eq_refl).
  left. reflexivity.
Defined.




(** C5. Given two connected plugs, [confirm_attr_order] returns
    [[attr_2, attr_1]] when the host lists [attr_2] among the sources that
    feed [attr_1], and [[attr_1, attr_2]] in every other case.  Every pair
    [build_shader_dict] stores in [connections] is such a result: its first
    plug is listed as a source of the second, or else its second plug is not
    listed as a source of the first. *)
Theorem confirm_attr_order_spec (h : Host) (attr_1 attr_2 : string) (rest : list string) :
  (listed_source h attr_1 attr_2 = true ->
   confirm_attr_order h (Some (attr_1 :: attr_2 :: rest)) = Ok [attr_2; attr_1])
  /\ (listed_source h attr_1 attr_2 = false ->
      confirm_attr_order h (Some (attr_1 :: attr_2 :: rest)) = Ok [attr_1; attr_2])
  /\ (forall (depth : nat) (shading_engine : string) (d : value)
             (selection : list string),
        build_shader_dict h depth shading_engine = Ok (d, selection) ->
        exists (b : value) (n : pydict) (c m : list value),
          d = shader_record b n c m
          /\ Forall (fun x => exists source destination,
                                x = str_list [source; destination]
                                /\ (listed_source h destination source = true
                                    \/ listed_source h source destination = false))
                    c).
Proof.
  split; [|split].
  - unfold confirm_attr_order, listed_source; simpl.
    destruct (listConnections h attr_1 lc_plug_sources) as [[|s sources]|]; simpl;
      intros H; try discriminate. now rewrite H.
  - unfold confirm_attr_order, listed_source; simpl.
    destruct (listConnections h attr_1 lc_plug_sources) as [[|s sources]|]; simpl;
      intros H; try reflexivity. now rewrite H.
  - intros depth sg d selection H.
    apply build_shader_dict_shape in H as (mn & mt & _ & _ & _ & Hw).
    destruct Hw as (n & c & -> & _ & Hc). do 4 eexists. split; [reflexivity|].
    eapply List.Forall_impl; [|exact Hc].
    intros x [plug pair _ Hp | each attr pair _ Hp];
      apply confirm_attr_order_ordered in Hp as (s & t & -> & Hst); eauto.
Qed.

(** C7. [export_shaders] does not log and write the empty object for every
    selection that holds no mesh.  The test of line 60, under the comment
    "filter out selected objects that aren't meshes", keeps every object with
    a shape under it: with a camera selected, neither the camera nor its
    shape is a mesh, the shape is taken for one, no error is logged, and the
    export ends with the [TypeError] of subscripting [None] at line 66,
    before anything is written. *)
Theorem export_shaders_shape_without_engine :
  Forall (fun each => has_type (mini_host camera_scene) each "mesh" = Ok false)
         ("persp" :: selected_meshes (mini_host camera_scene) ["persp"])
  /\ selected_meshes (mini_host camera_scene) ["persp"] = ["perspShape"]
  /\ listConnections (mini_host camera_scene) "perspShape" lc_shading_engine = None
  /\ export_shaders (mini_host camera_scene) any_file 100 ["persp"] "out.json" "mesh"
     = ([], Raise TypeError).
Proof.
  split; [|split; [|split]]; try reflexivity.
  repeat constructor.
Qed.

Lemma selected_meshes_none (h : Host) (selection : list string) :
  Forall (fun each => nonempty (listRelatives_shapes h each) = false) selection ->
  selected_meshes h selection = [].
Proof.
  unfold selected_meshes. generalize (@nil string) as acc.
  induction selection as [|each selection IH]; intros acc H; [reflexivity|].
  inversion H as [|? ? Heach Hrest]; subst. cbn [fold_left]. rewrite Heach. now apply IH.
Qed.

Lemma selected_engines_none (h : Host) (selection : list string) :
  Forall (fun each => has_type h each "shadingEngine" = Ok false) selection ->
  selected_engines h selection = Ok [].
Proof.
  unfold selected_engines. generalize (@nil string) as acc.
  induction selection as [|each selection IH]; intros acc H; [reflexivity|].
  inversion H as [|? ? Heach Hrest]; subst. cbn [for_each]. rewrite Heach. cbn [bind].
  now apply IH.
Qed.

(** Where the code does log and go on: when the selection is empty, or
    holds no object with a shape under it ([selection_type] ["mesh"]), or
    holds no shading engine ([selection_type] ["shadingEngine"]),
    [export_shaders] does not raise: it logs at least one error, nothing but
    errors, then writes the empty object to the file and reports success.
    The file is taken to be one that can be opened for writing. *)
Theorem export_shaders_nothing_found (h : Host) (fs : FileSystem) (depth : nat)
  (selection : list string) (full_export_path selection_type : string) :
  open_write fs full_export_path = true ->
  selection = []
  \/ (selection_type = "mesh"
      /\ Forall (fun each => nonempty (listRelatives_shapes h each) = false) selection)
  \/ (selection_type = "shadingEngine"
      /\ Forall (fun each => has_type h each "shadingEngine" = Ok false) selection) ->
  exists log,
    log <> [] /\ forallb is_log_error log = true
    /\ export_shaders h fs depth selection full_export_path selection_type
       = (log ++ [WriteJson full_export_path (VDict []);
                  LogInfo "Shaders Successfully Exported."],
          Ok selection).
Proof.
  intros Hw Hsel.
  assert (Hc : exists log, log <> [] /\ forallb is_log_error log = true
                           /\ export_collect h depth selection selection_type
                              = (log, Ok ([], selection))).
  { destruct Hsel as [->|[[-> Hnone]|[-> Hnone]]].
    - unfold export_collect. cbn.
      (destruct (String.eqb selection_type "mesh");
         [|destruct (String.eqb selection_type "shadingEngine")]);
        ((eexists; (split; [|split]); [| |reflexivity]); [discriminate|reflexivity]).
    - unfold export_collect. cbn [String.eqb Ascii.eqb Bool.eqb].
      rewrite selected_meshes_none by exact Hnone. cbn.
      (eexists; (split; [|split]); [| |reflexivity]).
      + destruct (log_if _ _); discriminate.
      + now rewrite forallb_app, log_if_errors.
    - unfold export_collect. cbn [String.eqb Ascii.eqb Bool.eqb].
      rewrite selected_engines_none by exact Hnone. cbn.
      (eexists; (split; [|split]); [| |reflexivity]).
      + destruct (log_if _ _); discriminate.
      + now rewrite forallb_app, log_if_errors. }
  destruct Hc as (log & Hne & Herr & Hc).
  exists log. repeat split; auto.
  unfold export_shaders. now rewrite Hc, Hw.
Qed.

Lemma export_shaders_nothing_found_witness :
  exists log,
    log <> [] /\ forallb is_log_error log = true
    /\ export_shaders (mini_host textured_sphere) any_file 100 ["lambert2"] "out.json" "mesh"
       = (log ++ [WriteJson "out.json" (VDict []);
                  LogInfo "Shaders Successfully Exported."],
          Ok ["lambert2"]).
Proof.
  apply (export_shaders_nothing_found (mini_host textured_sphere) any_file 100
           ["lambert2"] "out.json" "mesh" eq_refl).
  right. left. split; [reflexivity|]. repeat constructor.
Defined.

(** *** The rewriting of plug names *)

Lemma prefix_app (a s : string) : String.prefix a (a ++ s) = true.
Proof.
  induction a as [|c a IH]; [now destruct s|].
  change ((String c a ++ s)%string) with (String c (a ++ s)). cbn [String.prefix].
  destruct (ascii_dec c c); [exact IH | contradiction].
Qed.

Lemma prefix_split (a q : string) :
  String.prefix a q = true -> exists r, q = (a ++ r)%string.
Proof.
  revert q. induction a as [|c a IH]; intros q H.
  - exists q. reflexivity.
  - destruct q as [|c' q]; [discriminate|]. cbn [String.prefix] in H.
    destruct (ascii_dec c c') as [->|]; [|discriminate].
    destruct (IH q H) as (r & ->). exists r. reflexivity.
Qed.

Lemma replace_from_skip (old new a s : string) :
  replace_from old new (String.length a) (a ++ s) = replace_from old new 0 s.
Proof.
  induction a as [|c a IH]; simpl; [now destruct s|]. exact IH.
Qed.

Lemma replace_from_prefix (old new s : string) :
  old <> "" ->
  replace_from old new 0 (old ++ s) = (new ++ replace_from old new 0 s)%string.
Proof.
  intros Hne. destruct old as [|c old]; [congruence|].
  change ((String c old ++ s)%string) with (String c (old ++ s)).
  cbn [replace_from].
  change (String c (old ++ s)) with ((String c old ++ s)%string).
  rewrite prefix_app.
  replace (String.length (String c old) - 1) with (String.length old)
    by (cbn [String.length]; lia).
  now rewrite replace_from_skip.
Qed.

Lemma string_app_assoc (a b c : string) :
  ((a ++ b) ++ c = a ++ (b ++ c))%string.
Proof. induction a as [|x a IH]; simpl; [reflexivity | now rewrite IH]. Qed.

Lemma dot_free_cons (a : ascii) (o : string) :
  str_contains "." (String a o) = false ->
  a <> "."%char /\ str_contains "." o = false.
Proof.
  cbn [str_contains String.prefix]. intros H.
  apply orb_false_iff in H as [H1 H2]. split; [|exact H2].
  intros ->. destruct (ascii_dec "." "."); [|contradiction]. now destruct o.
Qed.

Lemma prefix_dot_names (old : string) :
  forall new r : string,
    str_contains "." old = false ->
    str_contains "." new = false ->
    old <> new ->
    String.prefix (old ++ ".") (new ++ "." ++ r) = false.
Proof.
  induction old as [|a o IH]; intros new r Ho Hn Hne.
  - destruct new as [|c n]; [congruence|].
    apply dot_free_cons in Hn as [Hc _].
    change (("" ++ ".")%string) with "."%string.
    change ((String c n ++ "." ++ r)%string) with (String c (n ++ "." ++ r)).
    cbn [String.prefix]. destruct (ascii_dec "." c); [congruence | reflexivity].
  - apply dot_free_cons in Ho as [Ha Ho].
    change ((String a o ++ ".")%string) with (String a (o ++ ".")).
    destruct new as [|c n].
    + change (("" ++ "." ++ r)%string) with (String "." r).
      cbn [String.prefix]. destruct (ascii_dec a "."); [contradiction | reflexivity].
    + apply dot_free_cons in Hn as [_ Hn].
      change ((String c n ++ "." ++ r)%string) with (String c (n ++ "." ++ r)).
      cbn [String.prefix]. destruct (ascii_dec a c) as [->|]; [|reflexivity].
      apply IH; auto. congruence.
Qed.

Lemma replace_dotted (a : ascii) (o new r : string) :
  a <> "."%char ->
  replace (String a o ++ "." ++ r) (String a o) new
  = (new ++ "." ++ replace_from (String a o) new 0 r)%string.
Proof.
  intros Ha. unfold replace.
  rewrite replace_from_prefix by discriminate.
  f_equal. change (("." ++ r)%string) with (String "." r).
  cbn [replace_from String.prefix].
  destruct (ascii_dec a "."); [contradiction | reflexivity].
Qed.

(** Names without a dot, the old one not empty, the new one another name:
    what the host gives and takes as node names. *)
Lemma rename_sane_names (old new : string) :
  old <> "" ->
  str_contains "." old = false ->
  str_contains "." new = false ->
  old <> new ->
  rename_sane old new.
Proof.
  intros Hne Ho Hn Hon q Hq. unfold startswith in *.
  apply prefix_split in Hq as (r & ->). rewrite string_app_assoc.
  destruct old as [|a o]; [congruence|].
  destruct (dot_free_cons _ _ Ho) as [Ha _].
  rewrite replace_dotted by exact Ha.
  now apply prefix_dot_names.
Qed.

Lemma py_eq_str_list (a : list string) :
  forall b, py_eq (str_list a) (str_list b) = true -> a = b.
Proof.
  unfold str_list.
  induction a as [|x a IH]; intros [|y b] H; try reflexivity; try discriminate.
  cbn in H. apply andb_true_iff in H as [H1 H2].
  apply String.eqb_eq in H1. apply IH in H2. now subst.
Qed.

Lemma first_eq_skip (x : value) (pre rest : list value) :
  Forall (fun y => py_eq y x = false) pre ->
  first_eq x (pre ++ rest) (length pre) = length pre.
Proof.
  induction 1 as [|y pre Hy _ IH]; [reflexivity|].
  cbn [length app first_eq]. now rewrite Hy, IH.
Qed.

Lemma set_plug_middle (pre : list value) (items post : list value) (k : nat) (x : value) :
  k < length items ->
  set_plug (pre ++ VList items :: post) (length pre) k x
  = Ok (pre ++ VList (<[k := x]> items) :: post).
Proof.
  intros Hk. unfold set_plug.
  rewrite list_lookup_middle by reflexivity.
  destruct (Nat.ltb_spec k (length items)) as [_|Hge]; [|lia].
  rewrite insert_app_r_alt by lia. now rewrite Nat.sub_diag.
Qed.

Section Rewriting.

Variables (also_each : bool) (old new : string).
Hypothesis sane : rename_sane old new.

Let f := rewrite_plug_name old new.

Lemma rewritten_no_match (x : string) : startswith (f x) (old ++ ".") = false.
Proof.
  unfold f, rewrite_plug_name.
  destruct (startswith x (old ++ ".")) eqn:E; [now apply sane | exact E].
Qed.

Lemma rewritten_differs (x p : string) :
  startswith p (old ++ ".") = true -> String.eqb (f x) p = false.
Proof.
  intros Hp. destruct (String.eqb_spec (f x) p) as [E|]; [|reflexivity].
  rewrite <- E, rewritten_no_match in Hp. discriminate.
Qed.

(** One plug of one connection: the write lands on the plug itself. *)
Lemma rewrite_plug_step (pre post : list value) (done todo : list string) (p : string)
  (w : list value) (index_num : nat) :
  (startswith p (old ++ ".") = true -> index_num = length pre) ->
  rewrite_plug also_each old new (length pre) index_num
               (pre ++ str_list (map f done ++ p :: todo) :: post, w) (length done)
  = Ok (pre ++ str_list (map f (done ++ [p]) ++ todo) :: post,
        w ++ (if startswith p (old ++ ".") then [VStr (replace p old new)] else [])).
Proof.
  intros Hidx. unfold rewrite_plug, str_list.
  rewrite list_lookup_middle by reflexivity.
  rewrite !map_app. cbn [map].
  rewrite list_lookup_middle by (now rewrite !length_map).
  rewrite <- app_assoc. cbn [app].
  assert (Hf : f p = if startswith p (old ++ ".") then replace p old new else p)
    by reflexivity.
  destruct (startswith p (old ++ ".")) eqn:Hp.
  - rewrite (Hidx eq_refl).
    replace (length done) with (length (map VStr (map f done)))
      by (now rewrite !length_map).
    rewrite first_eq_skip.
    2:{ apply List.Forall_forall. intros y Hy.
        apply in_map_iff in Hy as (z & <- & Hz).
        apply in_map_iff in Hz as (x & <- & _).
        cbn. now apply rewritten_differs. }
    rewrite set_plug_middle by (rewrite length_app; cbn; lia).
    rewrite insert_app_r_alt by lia. rewrite Nat.sub_diag. cbn [bind].
    assert (Hagain :
      (if also_each
       then set_plug (pre ++ VList (map VStr (map f done)
                                     ++ <[0:=VStr (replace p old new)]>
                                          (VStr p :: map VStr todo)) :: post)
                     (length pre) (length (map VStr (map f done)))
                     (VStr (replace p old new))
       else Ok (pre ++ VList (map VStr (map f done)
                                ++ <[0:=VStr (replace p old new)]>
                                     (VStr p :: map VStr todo)) :: post))
      = Ok (pre ++ VList (map VStr (map f done)
                            ++ VStr (replace p old new) :: map VStr todo) :: post)).
    { destruct also_each; [|reflexivity].
      rewrite set_plug_middle by (rewrite length_app; cbn; lia).
      rewrite insert_app_r_alt by lia. now rewrite Nat.sub_diag. }
    rewrite Hagain. cbn [bind]. now rewrite Hf.
  - now rewrite Hf, app_nil_r.
Qed.

(** The plugs of one connection. *)
Lemma rewrite_plugs_loop (pre post : list value) (index_num : nat) :
  forall (todo done : list string) (w : list value),
    (forall p, In p todo -> startswith p (old ++ ".") = true -> index_num = length pre) ->
    for_each (rewrite_plug also_each old new (length pre) index_num)
             (seq (length done) (length todo))
             (pre ++ str_list (map f done ++ todo) :: post, w)
    = Ok (pre ++ str_list (map f (done ++ todo)) :: post,
          w ++ rewritten_plugs old new [todo]).
Proof.
  induction todo as [|p todo IH]; intros done w Hidx.
  - cbn. now rewrite !app_nil_r.
  - cbn [length seq for_each].
    rewrite rewrite_plug_step by (intros Hp; apply (Hidx p); [now left | exact Hp]).
    cbn [bind].
    replace (S (length done)) with (length (done ++ [p]))
      by (rewrite length_app; cbn; lia).
    rewrite IH by (intros q Hq; apply Hidx; now right).
    rewrite <- !app_assoc. cbn [app].
    f_equal. f_equal. unfold rewritten_plugs. cbn [flat_map List.filter].
    rewrite !app_nil_r. destruct (startswith p (old ++ ".")); reflexivity.
Qed.

(** The position [.index] finds for a connection with a plug to rewrite is
    its own: no connection before it holds such a plug any more. *)
Lemma index_of_connection (pre post : list value) (c : list string) (p : string) :
  Forall (fun y => exists c, y = str_list (map f c)) pre ->
  In p c -> startswith p (old ++ ".") = true ->
  first_eq (str_list c) (pre ++ str_list c :: post) (length pre) = length pre.
Proof.
  intros Hpre Hin Hp. apply first_eq_skip.
  eapply List.Forall_impl; [|exact Hpre]. intros y (c' & ->).
  destruct (py_eq (str_list (map f c')) (str_list c)) eqn:E; [|reflexivity].
  apply py_eq_str_list in E. rewrite <- E in Hin.
  apply in_map_iff in Hin as (x & Hx & _).
  rewrite <- Hx, rewritten_no_match in Hp. discriminate.
Qed.

Lemma rewrite_connection_step (pre post : list value) (c : list string) (w : list value) :
  Forall (fun y => exists c, y = str_list (map f c)) pre ->
  rewrite_connection also_each old new (pre ++ str_list c :: post, w) (length pre)
  = Ok (pre ++ str_list (map f c) :: post, w ++ rewritten_plugs old new [c]).
Proof.
  intros Hpre. unfold rewrite_connection. cbn [fst].
  rewrite list_lookup_middle by reflexivity.
  change (str_list c) with (VList (map VStr c)) at 1. cbn iota.
  rewrite length_map.
  apply (rewrite_plugs_loop pre post _ c [] w).
  intros p Hin Hp. exact (index_of_connection pre post c p Hpre Hin Hp).
Qed.

(** The connections of one network. *)
Lemma rewrite_connections_loop (todo : list (list string)) :
  forall (done : list (list string)) (w : list value),
    for_each (rewrite_connection also_each old new)
             (seq (length done) (length todo))
             (map str_list (map (map f) done) ++ map str_list todo, w)
    = Ok (map str_list (map (map f) (done ++ todo)),
          w ++ rewritten_plugs old new todo).
Proof.
  induction todo as [|c todo IH]; intros done w.
  - cbn. now rewrite !app_nil_r.
  - cbn [length seq for_each map].
    replace (length done) with (length (map str_list (map (map f) done))) at 1
      by (now rewrite !length_map).
    rewrite rewrite_connection_step.
    2:{ apply List.Forall_forall. intros y Hy.
        apply in_map_iff in Hy as (z & <- & Hz).
        apply in_map_iff in Hz as (x & <- & _). eauto. }
    cbn [bind].
    replace (S (length done)) with (length (done ++ [c]))
      by (rewrite length_app; cbn; lia).
    specialize (IH (done ++ [c]) (w ++ rewritten_plugs old new [c])).
    rewrite !map_app in IH. cbn [map] in IH. rewrite <- app_assoc in IH. cbn [app] in IH.
    rewrite IH. rewrite <- !app_assoc. cbn [app]. rewrite !map_app. cbn [map].
    f_equal. f_equal. unfold rewritten_plugs. cbn [flat_map]. now rewrite app_nil_r.
Qed.

(** One run of the loop of lines 151-157, 160-165 or 174-180, on a list of
    pairs of plugs: every plug that starts with [old] and a dot has [old]
    replaced by [new] throughout, every other plug is kept. *)
Lemma rewrite_connections_spec (shader_network : value) (pairs : list (list string)) :
  getitem shader_network "connections" = Ok (VList (map str_list pairs)) ->
  rewrite_connections also_each old new shader_network
  = (shader_network' <-
       setitem shader_network "connections"
               (VList (map str_list (map (map (rewrite_plug_name old new)) pairs))) ;;
     Ok (shader_network', rewritten_plugs old new pairs)).
Proof.
  intros H. unfold rewrite_connections. rewrite H. cbn [bind].
  rewrite length_map.
  pose proof (rewrite_connections_loop pairs [] []) as L.
  cbn [length map app] in L. rewrite L. reflexivity.
Qed.

End Rewriting.

(** *** import_shaders *)

(** C10. With [shader_conflicts="cancel"], [import_shaders] reads the file,
    logs one error and returns: the scene is the one it was called in, and no
    host command (create, delete, set, connect, assign) is issued.  When the
    file cannot be read the exception of the read is all that happens. *)
Theorem import_shaders_cancel (w : World) (fs : FileSystem) (depth : nat)
  (importPath : string) (st : pystate (Scene w)) :
  import_shaders w fs depth importPath "cancel" st
  = match json_load fs importPath with
    | Ok _ =>
        (Ok tt, {| scene := scene st;
                   default_node_list := default_node_list st;
                   trace := trace st ++ [LogError "Shader IO Import cancelled"] |})
    | Raise e => (Raise e, st)
    end.
Proof.
  unfold import_shaders, mbind, lift.
  destruct (json_load fs importPath); reflexivity.
Qed.

(** C1. Importing [two_textures] with ["rename"] into a scene that holds a
    node [file1]: the host names the node created for [file1] [file2], and the
    plug [file1.outColor] is rewritten to [file2.outColor]; the host then names
    the node created for [file2] [file3], and every plug that starts with
    [file2.] is rewritten, the one just rewritten included.  Both textures of
    the document end up connected from [file3]; the node created for [file1]
    gets no connection. *)
Theorem import_shaders_rename_cascade :
  let run := import_shaders mini_world (one_file "in.json" two_textures) 100
                            "in.json" "rename" (start scene_with_file1) in
  fst run = Ok tt
  /\ trace (snd run)
     = [HostCmd (CShadingNode "lambert" "mat"); HostCmd (CSets "matSG");
        HostCmd (CCreateNode "file" "file1"); Print (VStr "file2.outColor");
        HostCmd (CCreateNode "file" "file2"); Print (VStr "file3.outColor");
        Print (VStr "file3.outColor");
        HostCmd (CConnectAttr "file3.outColor" "mat.color");
        HostCmd (CConnectAttr "file3.outColor" "mat.ambientColor");
        HostCmd (CConnectAttr "mat.outColor" "matSG.surfaceShader");
        LogInfo "Shaders successfully imported"]
  /\ ms_nodes (scene (snd run))
     = [("file1", "file"); ("mat", "lambert"); ("matSG", "shadingEngine");
        ("file2", "file"); ("file3", "file")]
  /\ ms_edges (scene (snd run))
     = [("file3.outColor", "mat.color"); ("file3.outColor", "mat.ambientColor");
        ("mat.outColor", "matSG.surfaceShader")].
Proof. cbv zeta. repeat split; vm_compute; reflexivity. Qed.

(** The replacement is of every occurrence of the old name in the plug, not
    of the node part only: with a node [bump] renamed [bump1], the plug
    [bump.bumpValue] becomes [bump1.bump1Value]. *)
Lemma import_shaders_rename_attribute :
  commands (trace (snd (import_shaders mini_world (one_file "in.json" bump_mapped) 100
                                       "in.json" "rename" (start scene_with_bump))))
  = [CShadingNode "lambert" "mat"; CSets "matSG";
     CCreateNode "bump2d" "bump"; CCreateNode "noise" "noise";
     CConnectAttr "noise.outAlpha" "bump1.bump1Value";
     CConnectAttr "bump1.outNormal" "mat.normalCamera";
     CConnectAttr "mat.outColor" "matSG.surfaceShader"].
Proof. vm_compute. reflexivity. Qed.

(** Without a clash of names the document is rebuilt as it was exported. *)
Lemma import_shaders_no_clash :
  commands (trace (snd (import_shaders mini_world (one_file "in.json" two_textures) 100
                                       "in.json" "rename" (start two_chains))))
  = [CShadingNode "lambert" "mat"; CSets "matSG";
     CCreateNode "file" "file1"; CCreateNode "file" "file2";
     CConnectAttr "file1.outColor" "mat.color";
     CConnectAttr "file2.outColor" "mat.ambientColor";
     CConnectAttr "mat.outColor" "matSG.surfaceShader"].
Proof. vm_compute. reflexivity. Qed.

(* ===================================================================== *)
(** ** Further properties *)
(* ===================================================================== *)

(** *** Loops, again *)

(** A loop returns when every pass of its body does. *)
Lemma for_each_returns {A S : Type} (body : S -> A -> result S) (l : list A) :
  (forall x, In x l -> forall s, exists s', body s x = Ok s') ->
  forall s, exists r, for_each body l s = Ok r.
Proof.
  induction l as [|x l IH]; intros Hbody s; cbn [for_each]; [eauto|].
  destruct (Hbody x (or_introl eq_refl) s) as (s' & ->). cbn [bind].
  apply IH. intros y Hy. apply Hbody. now right.
Qed.

(** What a pass establishes for its element, and later passes keep, holds at
    the end for every element. *)
Lemma for_each_covers {A S : Type} (Q : A -> S -> Prop) (body : S -> A -> result S)
  (l : list A) :
  (forall s x s', In x l -> body s x = Ok s' -> Q x s') ->
  (forall s y s' x, In y l -> body s y = Ok s' -> Q x s -> Q x s') ->
  forall s r, for_each body l s = Ok r -> forall x, In x l -> Q x r.
Proof.
  induction l as [|y l IH]; intros Hnew Hkeep s r Hrun x Hx; [destruct Hx|].
  cbn [for_each] in Hrun. bind_inv Hrun. rename x0 into s'.
  assert (Hpost : forall z, Q z s' -> Q z r).
  { intros z Hz. revert Hrun.
    apply (for_each_invariant (Q z)); [exact Hz|].
    intros s0 y0 s1 Hy0 HQ Hb. apply (Hkeep s0 y0 s1 z); [now right | exact Hb | exact HQ]. }
  destruct Hx as [<-|Hx].
  - apply Hpost. apply (Hnew s y s'); [now left | exact Hx0].
  - apply (IH (fun s0 x0 s1 Hin => Hnew s0 x0 s1 (or_intror Hin))
              (fun s0 y0 s1 x0 Hin => Hkeep s0 y0 s1 x0 (or_intror Hin))
              s' r Hrun x Hx).
Qed.

(** *** get_src_nodes: what it collects *)

Lemma has_type_typed (h : Host) (each ty : string) :
  ls_showType h each <> [] -> exists b, has_type h each ty = Ok b.
Proof.
  unfold has_type, last_of. intros Hne.
  destruct (List.last (map Some (ls_showType h each)) None) as [t|] eqn:E.
  - cbn. eauto.
  - exfalso. destruct (ls_showType h each) as [|x l]; [congruence|].
    clear Hne. revert x E. induction l as [|y l IH]; intros x E; [discriminate|].
    apply (IH y). exact E.
Qed.

Lemma collect_shapes_from (h : Host) (l : list string) :
  forall acc rs,
    for_each (fun remove_shapes each =>
                is_mesh <- has_type h each "mesh" ;;
                Ok (if is_mesh then remove_shapes ++ [each] else remove_shapes))
             l acc = Ok rs ->
    rs = acc ++ List.filter (is_mesh h) l
    /\ Forall (fun x => exists b, has_type h x "mesh" = Ok b) l.
Proof.
  induction l as [|x l IH]; intros acc rs H; cbn [for_each] in H.
  - inversion H; subst. rewrite app_nil_r. split; [reflexivity | constructor].
  - bind_inv H. bind_inv Hx. inversion Hx; subst; clear Hx.
    apply IH in H as [-> Hl]. split; [|constructor; eauto].
    cbn [List.filter]. unfold is_mesh at 2. rewrite Hx0.
    destruct x1; [now rewrite <- app_assoc | reflexivity].
Qed.

Lemma collect_shapes_spec (h : Host) (l rs : list string) :
  collect_shapes h l = Ok rs ->
  rs = List.filter (is_mesh h) l
  /\ Forall (fun x => exists b, has_type h x "mesh" = Ok b) l.
Proof. unfold collect_shapes. intros H. now apply collect_shapes_from in H. Qed.

Lemma collect_shapes_typed (h : Host) (l : list string) :
  Forall (fun x => exists b, has_type h x "mesh" = Ok b) l ->
  collect_shapes h l = Ok (List.filter (is_mesh h) l).
Proof.
  intros Hl. unfold collect_shapes.
  destruct (for_each_returns
              (fun remove_shapes each =>
                 is_mesh <- has_type h each "mesh" ;;
                 Ok (if is_mesh then remove_shapes ++ [each] else remove_shapes))
              l) with (s := @nil string) as (rs & Hrs).
  - intros x Hx s. apply (proj1 (List.Forall_forall _ _) Hl) in Hx as (b & ->).
    cbn. eauto.
  - rewrite Hrs. f_equal. now apply collect_shapes_from in Hrs as [-> _].
Qed.

Lemma list_remove_middle (x : string) (pre post : list string) :
  ~ In x pre -> list_remove x (pre ++ x :: post) = pre ++ post.
Proof.
  induction pre as [|y pre IH]; intros Hx; cbn [app list_remove].
  - now rewrite String.eqb_refl.
  - destruct (String.eqb_spec x y) as [->|_]; [exfalso; apply Hx; now left|].
    rewrite IH; [reflexivity|]. intros Hin. apply Hx. now right.
Qed.

(** The first two loops together leave the sources that are no meshes, in
    their order. *)
Lemma drop_shapes_filter (P : string -> bool) (l : list string) :
  forall pre,
    Forall (fun x => P x = false) pre ->
    drop_shapes (List.filter P l) (pre ++ l)
    = pre ++ List.filter (fun x => negb (P x)) l.
Proof.
  unfold drop_shapes.
  induction l as [|x l IH]; intros pre Hpre; cbn [List.filter]; [reflexivity|].
  destruct (P x) eqn:Px; cbn [negb fold_left].
  - rewrite str_in_true by (apply in_elt).
    rewrite list_remove_middle.
    + now apply IH.
    + intros Hin. apply (proj1 (List.Forall_forall _ _) Hpre) in Hin. congruence.
  - change (pre ++ x :: l) with (pre ++ [x] ++ l). rewrite app_assoc.
    rewrite IH.
    + now rewrite <- app_assoc.
    + apply List.Forall_app. split; [exact Hpre | constructor; [exact Px | constructor]].
Qed.

Lemma kept_sources (h : Host) (l : list string) (m : string) :
  Forall (fun x => exists b, has_type h x "mesh" = Ok b) l ->
  In m (List.filter (fun x => negb (is_mesh h x)) l)
  <-> In m l /\ has_type h m "mesh" = Ok false.
Proof.
  intros Hl. rewrite filter_In. split; intros [Hin Hm]; split; try exact Hin.
  - apply (proj1 (List.Forall_forall _ _) Hl) in Hin as (b & Hb).
    unfold is_mesh in Hm. rewrite Hb in *. now destruct b.
  - unfold is_mesh. now rewrite Hm.
Qed.

Lemma not_str_in (x : string) (l : list string) : str_in x l = false -> ~ In x l.
Proof. intros H Hin. apply str_in_true in Hin. congruence. Qed.

(** The third loop: the list grows at its end, by sources that are no meshes
    and were not in it. *)
Lemma add_sources_spec (h : Host) (src_nodes : list string) :
  forall node_list r,
    add_sources h src_nodes node_list = Ok r ->
    exists added,
      r = node_list ++ added
      /\ (List.NoDup node_list -> List.NoDup r)
      /\ (forall x, In x added -> In x src_nodes /\ has_type h x "mesh" = Ok false)
      /\ (forall x, In x src_nodes -> has_type h x "mesh" = Ok false -> In x r).
Proof.
  unfold add_sources.
  induction src_nodes as [|x src IH]; intros l r H; cbn [for_each] in H.
  - inversion H; subst. exists []. rewrite app_nil_r.
    split; [reflexivity|]. split; [auto|]. split; intros x [].
  - bind_inv H. rename x0 into l'. bind_inv Hx. rename x0 into b.
    destruct b.
    + inversion Hx; subst l'; clear Hx.
      destruct (IH l r H) as (added & -> & Hnd & Hadd & Hcov).
      exists added. split; [reflexivity|]. split; [exact Hnd|]. split.
      * intros y Hy. destruct (Hadd y Hy). split; [now right | assumption].
      * intros y [<-|Hy] Hty; [congruence | now apply Hcov].
    + destruct (str_in x l) eqn:Hin; cbn [negb] in Hx; inversion Hx; subst l'; clear Hx.
      * destruct (IH l r H) as (added & -> & Hnd & Hadd & Hcov).
        exists added. split; [reflexivity|]. split; [exact Hnd|]. split.
        -- intros y Hy. destruct (Hadd y Hy). split; [now right | assumption].
        -- intros y [<-|Hy] Hty; [|now apply Hcov].
           apply in_or_app. left. now apply str_in_In.
      * destruct (IH (l ++ [x]) r H) as (added & -> & Hnd & Hadd & Hcov).
        exists (x :: added).
        split; [now rewrite <- app_assoc|]. split; [|split].
        -- intros Hl. apply Hnd. apply List.NoDup_app.
           ++ exact Hl.
           ++ constructor; [intros [] | constructor].
           ++ intros y Hy [<-|[]]. now apply not_str_in in Hin.
        -- intros y [<-|Hy]; [split; [now left | exact Hx0]|].
           destruct (Hadd y Hy). split; [now right | assumption].
        -- intros y [<-|Hy] Hty; [|now apply Hcov].
           apply in_or_app. left. apply in_or_app. right. now left.
Qed.

Lemma add_sources_returns (h : Host) (src_nodes node_list : list string) :
  Forall (fun x => exists b, has_type h x "mesh" = Ok b) src_nodes ->
  exists r, add_sources h src_nodes node_list = Ok r.
Proof.
  intros Hl. unfold add_sources. apply for_each_returns.
  intros x Hx s. apply (proj1 (List.Forall_forall _ _) Hl) in Hx as (b & ->).
  cbn. destruct b; [|destruct (negb (str_in x s))]; eauto.
Qed.

(** One frame of [get_src_nodes]: either the node has no source that is kept
    and the list comes back as it is, or the sources that are no meshes are
    added and then visited in turn. *)
Lemma get_src_nodes_frame (h : Host) (depth : nat) (n : string) (l r : list string) :
  get_src_nodes h (S depth) n l = Ok r ->
  ((forall m, ~ feeds h n m) /\ r = l)
  \/ (exists L l1,
        listConnections h n lc_node_sources = Some L
        /\ Forall (fun x => exists b, has_type h x "mesh" = Ok b) L
        /\ add_sources h (List.filter (fun x => negb (is_mesh h x)) L) l = Ok l1
        /\ for_each (fun node_list each => get_src_nodes h depth each node_list)
                    (List.filter (fun x => negb (is_mesh h x)) L) l1 = Ok r).
Proof.
  intros H. cbn [get_src_nodes] in H. bind_inv H.
  destruct (listConnections h n lc_node_sources) as [L|] eqn:HL.
  - destruct L as [|y L'] eqn:EL.
    + cbn [nonempty] in Hx. inversion Hx; subst. cbn [nonempty] in H.
      left. split; [|now inversion H]. intros m (L0 & E & Hin & _).
      rewrite HL in E. inversion E; subst. destruct Hin.
    + rewrite <- EL in *. assert (Hne : nonempty (Some L) = true) by now subst.
      rewrite Hne in Hx. bind_inv Hx. inversion Hx; subst x; clear Hx.
      apply collect_shapes_spec in Hx0 as [-> Hty].
      pose proof (drop_shapes_filter (is_mesh h) L [] (List.Forall_nil _)) as Hd.
      cbn [app] in Hd. rewrite Hd in H. clear Hd.
      destruct (List.filter (fun x => negb (is_mesh h x)) L) as [|z src] eqn:Esrc.
      * cbn [nonempty] in H. left. split; [|now inversion H].
        intros m (L0 & E & Hin & Hm). rewrite HL in E. inversion E; subst L0.
        assert (Hk : In m (List.filter (fun x => negb (is_mesh h x)) L))
          by (apply kept_sources; auto).
        rewrite Esrc in Hk. destruct Hk.
      * cbn [nonempty] in H. bind_inv H. right. exists L, x. rewrite Esrc. auto.
  - cbn [nonempty] in Hx. inversion Hx; subst. cbn [nonempty] in H.
    left. split; [|now inversion H]. intros m (L0 & E & _). rewrite HL in E. discriminate.
Qed.

(** The list grows at its end and stays free of repetitions. *)
Lemma get_src_nodes_extends (h : Host) (depth : nat) :
  forall n l r,
    get_src_nodes h depth n l = Ok r ->
    (exists added, r = l ++ added) /\ (List.NoDup l -> List.NoDup r).
Proof.
  induction depth as [|depth IH]; intros n l r H; [discriminate|].
  apply get_src_nodes_frame in H as [[_ ->]|(L & l1 & _ & _ & Hadd & Hrec)].
  - split; [exists []; now rewrite app_nil_r | auto].
  - apply add_sources_spec in Hadd as (added & -> & Hnd & _).
    revert Hrec.
    apply (for_each_invariant
             (fun s => (exists a, s = l ++ a) /\ (List.NoDup l -> List.NoDup s))).
    + split; [eauto | exact Hnd].
    + intros s x s' _ [(a & ->) Hs] Hx. apply IH in Hx as [(a' & ->) Hx].
      split; [exists (a ++ a'); now rewrite app_assoc | auto].
Qed.

(** Every node of the result was in the list or is upstream of the node. *)
Lemma get_src_nodes_sound (h : Host) (depth : nat) :
  forall n l r,
    get_src_nodes h depth n l = Ok r ->
    forall m, In m r -> In m l \/ upstream h n m.
Proof.
  induction depth as [|depth IH]; intros n l r H; [discriminate|].
  apply get_src_nodes_frame in H as [[_ ->]|(L & l1 & HL & Hty & Hadd & Hrec)];
    [auto|].
  apply add_sources_spec in Hadd as (added & -> & _ & Hnew & _).
  assert (Hfeeds : forall x, In x (List.filter (fun x => negb (is_mesh h x)) L) ->
                             feeds h n x).
  { intros x Hx. apply kept_sources in Hx as [Hin Hm]; [|exact Hty].
    exists L. auto. }
  revert Hrec.
  apply (for_each_invariant (fun s => forall m, In m s -> In m l \/ upstream h n m)).
  - intros m Hm. apply in_app_or in Hm as [Hm|Hm]; [now left|].
    right. apply upstream_step. apply Hfeeds. now apply Hnew.
  - intros s x s' Hx Hs Hcall m Hm.
    destruct (IH _ _ _ Hcall m Hm) as [Hin|Hup]; [now apply Hs|].
    right. eapply upstream_more; [apply Hfeeds; exact Hx | exact Hup].
Qed.

(** Every node upstream of the node is in the result. *)
Lemma get_src_nodes_complete (h : Host) (depth : nat) :
  forall n l r,
    get_src_nodes h depth n l = Ok r ->
    forall m, upstream h n m -> In m r.
Proof.
  induction depth as [|depth IH]; intros n l r H m Hup; [discriminate|].
  apply get_src_nodes_frame in H as [[Hno _]|(L & l1 & HL & Hty & Hadd & Hrec)].
  - exfalso. destruct Hup as [n m Hf|n m1 m Hf _]; exact (Hno _ Hf).
  - assert (Hkept : forall x, feeds h n x ->
                              In x (List.filter (fun x => negb (is_mesh h x)) L)).
    { intros x (L0 & E & Hin & Hm). rewrite HL in E. inversion E; subst L0.
      apply kept_sources; auto. }
    apply add_sources_spec in Hadd as (added & -> & _ & _ & Hcov).
    destruct Hup as [n m Hf|n m1 m Hf Hup].
    + assert (Hin : In m (l ++ added)).
      { destruct Hf as (L0 & E & Hin & Hm). apply Hcov; [|exact Hm].
        apply Hkept. exists L0. auto. }
      revert Hrec. apply (for_each_invariant (fun s => In m s)); [exact Hin|].
      intros s x s' _ Hs Hcall. eapply get_src_nodes_incl; eauto.
    + apply (for_each_covers (fun x s => forall k, upstream h x k -> In k s)
               _ _
               (fun s x s' _ Hcall k Hk => IH _ _ _ Hcall k Hk)
               (fun s y s' x _ Hcall HQ k Hk =>
                  get_src_nodes_incl _ _ _ _ _ Hcall k (HQ k Hk))
               _ _ Hrec m1 (Hkept _ Hf) m Hup).
Qed.

Lemma get_src_nodes_upstream_iff (h : Host) (depth : nat) (n : string)
  (l r : list string) :
  get_src_nodes h depth n l = Ok r ->
  forall m, In m r <-> In m l \/ upstream h n m.
Proof.
  intros H m. split.
  - eapply get_src_nodes_sound; eauto.
  - intros [Hin|Hup].
    + eapply get_src_nodes_incl; eauto.
    + eapply get_src_nodes_complete; eauto.
Qed.

(** X1. What [get_src_nodes] returns holds the nodes of the list it was
    given and the nodes upstream of [node_name] (reached through sources that
    are no meshes), and no other node. *)
Theorem get_src_nodes_upstream (h : Host) (depth : nat) (node_name : string)
  (node_list r : list string) :
  get_src_nodes h depth node_name node_list = Ok r ->
  forall m, In m r <-> In m node_list \/ upstream h node_name m.
Proof.
  intros H m. split.
  - eapply get_src_nodes_sound; eauto.
  - intros [Hin|Hup].
    + eapply get_src_nodes_incl; eauto.
    + eapply get_src_nodes_complete; eauto.
Qed.

Lemma get_src_nodes_upstream_witness :
  In "x" ["x"] <-> In "x" [] \/ upstream (mini_host two_chains) "a" "x".
Proof.
  refine (get_src_nodes_upstream (mini_host two_chains) 10 "a" [] ["x"] _ "x").
  reflexivity.
Defined.

(** X2. [get_src_nodes] only appends: the list it was given is the beginning
    of the list it returns, and a list without repetitions stays without
    repetitions. *)
Theorem get_src_nodes_appends (h : Host) (depth : nat) (node_name : string)
  (node_list r : list string) :
  get_src_nodes h depth node_name node_list = Ok r ->
  (exists added, r = node_list ++ added)
  /\ (List.NoDup node_list -> List.NoDup r).
Proof. apply get_src_nodes_extends. Qed.

Lemma get_src_nodes_appends_witness :
  (exists added, ["y"; "x"] = ["y"] ++ added)
  /\ (List.NoDup ["y"] -> List.NoDup ["y"; "x"]).
Proof.
  apply (get_src_nodes_appends (mini_host two_chains) 10 "a" ["y"] ["y"; "x"]).
  reflexivity.
Defined.

Lemma filter_none (P : string -> bool) (l : list string) :
  Forall (fun x => P x = false) l -> List.filter P l = [].
Proof.
  induction 1 as [|x l Hx _ IH]; [reflexivity|]. cbn [List.filter]. now rewrite Hx.
Qed.

(** X3. On a network with a cycle the walk does not end by itself: when
    every node of a set has, as the first of its sources, a node of the set
    (and no source is a mesh), [get_src_nodes] on a node of the set ends with
    [RecursionError], whatever the recursion limit. *)
Theorem get_src_nodes_cycle (h : Host) (C : string -> Prop) :
  (forall n, C n ->
             exists m rest,
               listConnections h n lc_node_sources = Some (m :: rest)
               /\ C m
               /\ Forall (fun x => has_type h x "mesh" = Ok false) (m :: rest)) ->
  forall (depth : nat) (node_name : string) (node_list : list string),
    C node_name ->
    get_src_nodes h depth node_name node_list = Raise RecursionError.
Proof.
  intros Hcyc. induction depth as [|depth IH]; intros n l Hn; [reflexivity|].
  destruct (Hcyc n Hn) as (m & rest & HL & Hm & Hty).
  cbn [get_src_nodes]. rewrite HL. cbn [nonempty].
  assert (Htyped : Forall (fun x => exists b, has_type h x "mesh" = Ok b) (m :: rest))
    by (eapply List.Forall_impl; [|exact Hty]; intros x Hx; exists false; exact Hx).
  rewrite (collect_shapes_typed _ _ Htyped). cbn [bind].
  rewrite filter_none.
  2:{ eapply List.Forall_impl; [|exact Hty]. intros x Hx. unfold is_mesh. now rewrite Hx. }
  cbn [drop_shapes fold_left nonempty].
  destruct (add_sources_returns h (m :: rest) l Htyped) as (l1 & ->). cbn [bind for_each].
  now rewrite (IH m l1 Hm).
Qed.

Lemma get_src_nodes_cycle_witness :
  get_src_nodes loop_host 1000 "a" [] = Raise RecursionError.
Proof.
  apply (get_src_nodes_cycle loop_host (fun _ => True)); [|exact I].
  intros n _. exists n, []. split; [reflexivity|]. split; [exact I|].
  constructor; [reflexivity | constructor].
Defined.

(** X4. On a network without a cycle the walk ends: when the nodes can be
    ranked so that every source that is no mesh has a lower rank than the node
    it feeds, and the host knows the type of every source, [get_src_nodes]
    returns as soon as the recursion limit is above the rank of the node. *)
Theorem get_src_nodes_returns (h : Host) (rank : string -> nat) :
  (forall n L x,
      listConnections h n lc_node_sources = Some L -> In x L ->
      ls_showType h x <> []
      /\ (has_type h x "mesh" = Ok false -> rank x < rank n)) ->
  forall (depth : nat) (node_name : string) (node_list : list string),
    rank node_name < depth ->
    exists r, get_src_nodes h depth node_name node_list = Ok r.
Proof.
  intros Hrank. induction depth as [|depth IH]; intros n l Hlt; [lia|].
  cbn [get_src_nodes].
  destruct (listConnections h n lc_node_sources) as [[|y L']|] eqn:HL;
    cbn [nonempty bind]; eauto.
  set (L := y :: L') in *.
  assert (Htyped : Forall (fun x => exists b, has_type h x "mesh" = Ok b) L).
  { apply List.Forall_forall. intros x Hx. apply has_type_typed.
    now apply (Hrank n L x HL Hx). }
  rewrite (collect_shapes_typed _ _ Htyped). cbn [bind].
  pose proof (drop_shapes_filter (is_mesh h) L [] (List.Forall_nil _)) as Hd.
  cbn [app] in Hd. rewrite Hd. clear Hd.
  destruct (List.filter (fun x => negb (is_mesh h x)) L) as [|z src] eqn:Esrc;
    cbn [nonempty]; eauto.
  rewrite <- Esrc.
  assert (Hkept : forall x, In x (List.filter (fun x => negb (is_mesh h x)) L) ->
                            In x L /\ has_type h x "mesh" = Ok false)
    by (intros x; now apply kept_sources).
  destruct (add_sources_returns h (List.filter (fun x => negb (is_mesh h x)) L) l)
    as (l1 & ->).
  { apply List.Forall_forall. intros x Hx. apply Hkept in Hx as [_ ->]. eauto. }
  cbn [bind]. apply for_each_returns.
  intros x Hx s. apply IH. apply Hkept in Hx as [Hin Hm].
  destruct (Hrank n L x HL Hin) as [_ Hr]. specialize (Hr Hm). lia.
Qed.

Lemma get_src_nodes_returns_witness :
  exists r, get_src_nodes chain_host 2 "a" [] = Ok r.
Proof.
  apply (get_src_nodes_returns chain_host
           (fun x => if String.eqb x "a" then 1 else 0)); [|cbn; lia].
  intros n L x HL Hin. cbn in HL.
  destruct (String.eqb_spec n "a") as [->|]; [|discriminate].
  inversion HL; subst. destruct Hin as [<-|[]].
  split; [discriminate | intros _; cbn; lia].
Defined.

(** *** flatten_list *)

(** X5. [flatten_list] splices one level, in order: the result is the
    concatenation of the items of each list or tuple of [matrix] and of each
    other element as it is.  So a list whose lists and tuples hold no list or
    tuple comes out without any, and a list without lists and tuples comes
    out unchanged. *)
Theorem flatten_list_one_level_spec (matrix : list value) :
  flatten_list matrix = concat (map splice matrix)
  /\ (Forall (fun each => Forall (fun y => is_sequence y = false) (splice each)) matrix ->
      Forall (fun y => is_sequence y = false) (flatten_list matrix))
  /\ (Forall (fun each => is_sequence each = false) matrix ->
      flatten_list matrix = matrix).
Proof.
  assert (E : flatten_list matrix = concat (map splice matrix)).
  { unfold flatten_list. now rewrite flatten_list_from. }
  split; [exact E|]. rewrite E. clear E. split.
  - induction 1 as [|each m Heach _ IH]; cbn [map concat]; [constructor|].
    apply List.Forall_app. split; assumption.
  - induction 1 as [|each m Heach _ IH]; cbn [map concat]; [reflexivity|].
    rewrite IH. destruct each; try discriminate; reflexivity.
Qed.

(** *** validate_file_path *)

Lemma contains_char_cons (c a : ascii) (s : string) :
  str_contains (String c "") (String a s)
  = Ascii.eqb c a || str_contains (String c "") s.
Proof.
  cbn [str_contains String.prefix]. f_equal.
  destruct (ascii_dec c a) as [->|Hne].
  - rewrite Ascii.eqb_refl. now destruct s.
  - symmetry. now apply Ascii.eqb_neq.
Qed.

Lemma contains_char_empty (c : ascii) : str_contains (String c "") "" = false.
Proof. reflexivity. Qed.

Lemma contains_char_app (c : ascii) (a b : string) :
  str_contains (String c "") (a ++ b)
  = str_contains (String c "") a || str_contains (String c "") b.
Proof.
  induction a as [|x a IH].
  - cbn [append]. now rewrite contains_char_empty.
  - change ((String x a ++ b)%string) with (String x (a ++ b)).
    rewrite !contains_char_cons, IH. now rewrite orb_assoc.
Qed.

(** A replacement brings in no character that is neither in the string nor
    in the new text. *)
Lemma replace_from_no_char (c : ascii) (old new s : string) :
  str_contains (String c "") new = false ->
  str_contains (String c "") s = false ->
  forall skip, str_contains (String c "") (replace_from old new skip s) = false.
Proof.
  intros Hnew. induction s as [|a s IH]; intros Hs skip; [reflexivity|].
  rewrite contains_char_cons in Hs. apply orb_false_iff in Hs as [Ha Hs].
  cbn [replace_from]. destruct skip as [|k]; [|now apply IH].
  destruct (String.prefix old (String a s)).
  - rewrite contains_char_app, Hnew. now apply IH.
  - rewrite contains_char_cons, Ha. now apply IH.
Qed.

(** Replacing a character leaves none of it. *)
Lemma replace_char_gone (c : ascii) (new s : string) :
  str_contains (String c "") new = false ->
  str_contains (String c "") (replace s (String c "") new) = false.
Proof.
  intros Hnew. unfold replace. induction s as [|a s IH]; [reflexivity|].
  destruct (ascii_dec c a) as [->|Hne].
  - change (String a s) with ((String a "" ++ s)%string).
    rewrite replace_from_prefix by discriminate.
    rewrite contains_char_app, Hnew. exact IH.
  - cbn [replace_from String.prefix].
    destruct (ascii_dec c a) as [E|_]; [contradiction|].
    rewrite contains_char_cons. apply Ascii.eqb_neq in Hne. now rewrite Hne.
Qed.

(** X6. A path that [validate_file_path] returns exists, holds no
    backslash, was returned without an error being logged, and is returned as
    it is when it is validated again. *)
Theorem validate_file_path_returned (fs : FileSystem) (file_path q : string)
  (log : list event) :
  validate_file_path fs file_path = (log, Ok (VStr q)) ->
  log = []
  /\ path_exists fs q = true
  /\ str_contains backslash q = false
  /\ validate_file_path fs q = ([], Ok (VStr q)).
Proof.
  unfold validate_file_path at 1. intros H.
  assert (Hq : str_contains backslash q = false /\ path_exists fs q = true /\ log = []).
  { destruct (str_contains backslash file_path) eqn:Hb.
    - destruct (path_exists fs _) eqn:He; inversion H; subst. repeat split; auto.
      apply (replace_from_no_char (ascii_of_nat 92)); [reflexivity|].
      apply (replace_char_gone (ascii_of_nat 92) "/" file_path). reflexivity.
    - destruct (path_exists fs file_path) eqn:He; inversion H; subst. auto. }
  destruct Hq as (Hq & He & ->). repeat split; auto.
  unfold validate_file_path. now rewrite Hq, He.
Qed.

Lemma validate_file_path_returned_witness :
  @nil event = []
  /\ path_exists fs_doubled_slash "a/b" = true
  /\ str_contains backslash "a/b" = false
  /\ validate_file_path fs_doubled_slash "a/b" = ([], Ok (VStr "a/b")).
Proof.
  apply (validate_file_path_returned fs_doubled_slash ("a" ++ backslash ++ "b") "a/b" []).
  reflexivity.
Defined.

(** *** build_shader_dict: what it records *)

Lemma for_each_covers_inv {A S : Type} (P : S -> Prop) (Q : A -> S -> Prop)
  (body : S -> A -> result S) (l : list A) :
  (forall s x s', In x l -> P s -> body s x = Ok s' -> P s' /\ Q x s') ->
  (forall s y s' x, In y l -> P s -> body s y = Ok s' -> Q x s -> Q x s') ->
  forall s r, P s -> for_each body l s = Ok r ->
              P r /\ (forall x, In x l -> Q x r) /\ (forall x, Q x s -> Q x r).
Proof.
  induction l as [|y l IH]; intros Hnew Hkeep s r Hs Hrun.
  - inversion Hrun; subst. split; [exact Hs|]. split; [intros x [] | auto].
  - cbn [for_each] in Hrun. bind_inv Hrun. rename x into s'.
    destruct (Hnew s y s' (or_introl eq_refl) Hs Hx) as [Hs' Hy].
    destruct (IH (fun s0 x0 s1 Hin => Hnew s0 x0 s1 (or_intror Hin))
                 (fun s0 y0 s1 x0 Hin => Hkeep s0 y0 s1 x0 (or_intror Hin))
                 s' r Hs' Hrun) as (Hr & Hall & Hpost).
    split; [exact Hr|]. split.
    + intros x [<-|Hin]; [now apply Hpost | now apply Hall].
    + intros x Hq. apply Hpost. apply (Hkeep s y s' x); auto. now left.
Qed.

Lemma nodes_of_record (b : value) (n : pydict) (c m : list value) :
  nodes_of (shader_record b n c m) = n.
Proof. reflexivity. Qed.

Lemma set_node_attribute_records (h : Host) (walk : list string) (b : value)
  (n : pydict) (c m : list value) (each attr : string) (val d' : value) :
  Forall (node_recorded h walk) n ->
  storable_value h each attr = Some val ->
  set_node_attribute (shader_record b n c m) each attr val = Ok d' ->
  exists n', d' = shader_record b n' c m
             /\ Forall (node_recorded h walk) n'
             /\ (forall k, dict_has k n = true -> dict_has k n' = true).
Proof.
  intros Hn Hval H. unfold set_node_attribute in H.
  rewrite getitem_nodes in H. cbn [bind] in H. unfold getitem at 1 in H.
  destruct (dict_lookup each n) as [node|] eqn:Hl; [|discriminate].
  cbn [bind] in H.
  pose proof (proj1 (List.Forall_forall _ _) Hn _ (dict_lookup_In _ _ _ Hl))
    as (Hw & Hrec & t & a & Hnode & Ht & Ha).
  cbn [fst snd] in *. subst node. cbn in H. inversion H; subst; clear H.
  eexists. split; [reflexivity|]. split.
  - apply Forall_dict_set; [|exact Hn].
    split; [exact Hw|]. split; [exact Hrec|]. exists t, (dict_set attr val a).
    cbn [fst snd]. split; [reflexivity|]. split; [exact Ht|].
    apply Forall_dict_set; [exact Hval | exact Ha].
  - intros k. apply dict_has_set.
Qed.

Lemma node_attribute_records (h : Host) (walk : list string) (each attr : string)
  (st st' : value * list string) :
  records h walk (fst st) ->
  node_attribute h each st attr = Ok st' ->
  records h walk (fst st')
  /\ (forall k, dict_has k (nodes_of (fst st)) = true ->
                dict_has k (nodes_of (fst st')) = true).
Proof.
  destruct st as [d skip]. cbn [fst]. intros (b & n & c & m & -> & Hn) H.
  assert (Hsame : forall c', records h walk (shader_record b n c' m)
                             /\ (forall k, dict_has k (nodes_of (shader_record b n c m)) = true ->
                                           dict_has k (nodes_of (shader_record b n c' m)) = true)).
  { intros c'. split; [exists b, n, c', m; auto | auto]. }
  unfold node_attribute in H.
  destruct (attributeQuery_exists h attr each) eqn:Hex;
    [|inversion H; subst; apply Hsame].
  destruct (nonempty (listConnections h (dotted each attr) lc_attr_src)) eqn:Hne.
  - bind_inv H. rewrite member_of_connections in H. cbn [bind] in H.
    destruct (negb (existsb _ c)).
    + rewrite append_to_connections in H. cbn [bind] in H.
      inversion H; subst. apply Hsame.
    + inversion H; subst. apply Hsame.
  - destruct (negb (str_in attr skip)); [|inversion H; subst; apply Hsame].
    destruct (negb (str_in (getAttr_type h (dotted each attr)) filter_list)) eqn:Hty;
      [|inversion H; subst; apply Hsame].
    assert (Hstore : forall val d',
               (match getAttr h (dotted each attr) with
                | VList items => if any items then Some (VList (flatten_list items)) else None
                | v => Some v
                end) = Some val ->
               set_node_attribute (shader_record b n c m) each attr val = Ok d' ->
               records h walk d'
               /\ (forall k, dict_has k (nodes_of (shader_record b n c m)) = true ->
                             dict_has k (nodes_of d') = true)).
    { intros val d' Hv Hset.
      assert (Hsv : storable_value h each attr = Some val).
      { unfold storable_value. rewrite Hex, Hne, Hty. exact Hv. }
      destruct (set_node_attribute_records _ _ _ _ _ _ _ _ _ _ Hn Hsv Hset)
        as (n' & -> & Hn' & Hk).
      split; [exists b, n', c, m; auto | exact Hk]. }
    destruct (getAttr h (dotted each attr)) eqn:Hval;
      try (bind_inv H; inversion H; subst; cbn [fst];
           eapply Hstore; [reflexivity | eassumption]; fail).
    destruct (any l) eqn:Hany; cbn [negb] in H; [|inversion H; subst; apply Hsame].
    bind_inv H. inversion H; subst. cbn [fst].
    eapply Hstore; [reflexivity | eassumption].
Qed.

Lemma node_attributes_records (h : Host) (walk : list string) (each : string)
  (d d' : value) :
  records h walk d ->
  node_attributes h each d = Ok d' ->
  records h walk d'
  /\ (forall k, dict_has k (nodes_of d) = true -> dict_has k (nodes_of d') = true).
Proof.
  intros Hd H. unfold node_attributes in H. bind_inv H. bind_inv H.
  inversion H; subst; clear H.
  revert Hx0.
  apply (for_each_invariant
           (fun st => records h walk (fst st)
                      /\ (forall k, dict_has k (nodes_of d) = true ->
                                    dict_has k (nodes_of (fst st)) = true))).
  - cbn [fst]. auto.
  - intros s attr s' _ [Hs Hk] Hstep.
    destruct (node_attribute_records _ _ _ _ _ _ Hs Hstep) as [Hs' Hk'].
    split; auto.
Qed.

Lemma graph_node_records (h : Host) (walk : list string) (each : string)
  (d d' : value) :
  In each walk ->
  records h walk d ->
  graph_node h d each = Ok d' ->
  records h walk d'
  /\ (forall k, dict_has k (nodes_of d) = true -> dict_has k (nodes_of d') = true)
  /\ (recordable h each -> dict_has each (nodes_of d') = true).
Proof.
  intros Hin Hd H. unfold graph_node in H. bind_inv H. rename x into is_transform.
  destruct is_transform.
  - assert (Hno : recordable h each -> dict_has each (nodes_of d') = true).
    { intros [_ Ht]. rewrite Ht in Hx. discriminate. }
    destruct (listRelatives_shapes h each) as [shapes|]; [|discriminate].
    destruct (negb (length shapes =? 0)%nat); [inversion H; subst; auto|].
    destruct (node_attributes_records _ _ _ _ _ Hd H). auto.
  - destruct (str_in each (ls_defaultNodes h)) eqn:Hdef.
    + inversion H; subst. split; [exact Hd|]. split; [auto|].
      intros [Hdef' _]. congruence.
    + bind_inv H. rename x into node_type.
      destruct Hd as (b & n & c & m & -> & Hn).
      rewrite getitem_nodes in H. cbn [bind setitem] in H.
      apply node_attributes_records with (walk := walk) in H.
      * destruct H as [Hd' Hk]. split; [exact Hd'|]. split.
        -- intros k Hk0. apply Hk. exact (dict_has_set k each _ n Hk0).
        -- intros _. apply Hk. exact (dict_has_set_same each _ n).
      * eexists b, _, c, m. split; [reflexivity|].
        apply Forall_dict_set; [|exact Hn].
        split; [exact Hin|]. split; [split; assumption|].
        exists node_type, []. cbn [fst snd]. repeat split; auto.
Qed.

Lemma engine_connections_nodes (h : Host) (sg : string) (src : list string)
  (b : value) (n : pydict) (m : list value) :
  forall c d',
    engine_connections h sg src (shader_record b n c m) = Ok d' ->
    exists c', d' = shader_record b n c' m.
Proof.
  unfold engine_connections. intros c d'.
  apply (for_each_invariant (fun d => exists c', d = shader_record b n c' m)); [eauto|].
  intros s each s' _ (c0 & ->) H.
  destruct (str_contains "dagSetMembers" each); [inversion H; eauto|].
  destruct (String.eqb (before_dot each) sg); [|inversion H; eauto].
  bind_inv H. rewrite append_to_connections in H. inversion H; eauto.
Qed.

(** The nodes a record holds: entries made by the walk, one for every node of
    the walk that is recordable. *)
Lemma build_shader_dict_records (h : Host) (depth : nat) (sg : string)
  (d : value) (selection : list string) :
  build_shader_dict h depth sg = Ok (d, selection) ->
  exists walk,
    get_src_nodes h depth sg [] = Ok walk
    /\ records h walk d
    /\ (forall each, In each walk -> recordable h each ->
                     dict_has each (nodes_of d) = true).
Proof.
  intros H. unfold build_shader_dict in H.
  bind_inv H. rename x into material_name.
  bind_inv H. rename x into material_type.
  cbn [empty_shader_dict setitem2 getitem setitem dict_lookup dict_set String.eqb
       Ascii.eqb Bool.eqb bind] in H.
  change (VDict [("base_material", VDict [("name", VStr material_name);
                                          ("type", VStr material_type)]);
                 ("nodes", VDict []); ("connections", VList []); ("meshes", VList [])])
    with (shader_record (base_material_of material_name material_type) [] [] []) in H.
  rewrite collect_meshes_all in H. cbn [bind] in H.
  bind_inv H. rename x into src.
  bind_inv H. apply engine_connections_nodes in Hx2 as (c' & ->).
  bind_inv H. rename x into walk. bind_inv H.
  inversion H; subst; clear H.
  exists walk. split; [exact Hx2|].
  destruct (for_each_covers_inv
              (records h walk)
              (fun each s => recordable h each -> dict_has each (nodes_of s) = true)
              (graph_node h) walk) with (s := shader_record
                                                (base_material_of material_name material_type)
                                                [] c'
                                                (map VStr (hyperShade_objects h material_name)))
                                        (r := d)
    as (Hd & Hall & _).
  - intros s x s' Hin Hs Hstep.
    destruct (graph_node_records _ _ _ _ _ Hin Hs Hstep) as (Hs' & _ & Hnew). auto.
  - intros s y s' x Hin Hs Hstep Hq Hrec.
    destruct (graph_node_records _ _ _ _ _ Hin Hs Hstep) as (_ & Hk & _). auto.
  - eexists _, [], c', _. split; [reflexivity | constructor].
  - exact Hx3.
  - split; [exact Hd | exact Hall].
Qed.

Lemma dict_has_In (k : string) (d : pydict) :
  dict_has k d = true -> exists v, In (k, v) d.
Proof.
  unfold dict_has. destruct (dict_lookup k d) as [v|] eqn:E; [|discriminate].
  intros _. exists v. now apply dict_lookup_In.
Qed.

(** X7. The keys of [nodes] in a record of [build_shader_dict] are the nodes
    upstream of the shading engine that are neither default nodes nor
    transforms: each of them has an entry, and there is no other entry. *)
Theorem build_shader_dict_nodes (h : Host) (depth : nat) (shading_engine : string)
  (d : value) (selection : list string) :
  build_shader_dict h depth shading_engine = Ok (d, selection) ->
  forall each,
    dict_has each (nodes_of d) = true
    <-> upstream h shading_engine each /\ recordable h each.
Proof.
  intros H each.
  apply build_shader_dict_records in H as (walk & Hwalk & Hd & Hall).
  split.
  - intros Hk. destruct Hd as (b & n & c & m & -> & Hn).
    rewrite nodes_of_record in Hk. apply dict_has_In in Hk as (v & Hv).
    destruct (proj1 (List.Forall_forall _ _) Hn _ Hv) as (Hw & Hrec & _).
    cbn [fst] in *. split; [|exact Hrec].
    destruct (get_src_nodes_sound _ _ _ _ _ Hwalk _ Hw) as [[]|Hup]. exact Hup.
  - intros [Hup Hrec]. apply Hall; [|exact Hrec].
    eapply get_src_nodes_complete; eauto.
Qed.

Lemma build_shader_dict_nodes_witness :
  dict_has "file1" (nodes_of (sg1_record [VStr "pSphereShape1"])) = true
  <-> upstream (mini_host textured_sphere) "sg1" "file1"
      /\ recordable (mini_host textured_sphere) "file1".
Proof.
  refine (build_shader_dict_nodes (mini_host textured_sphere) 100 "sg1"
            (sg1_record [VStr "pSphereShape1"]) [] _ "file1").
  reflexivity.
Defined.

(** X8. Every entry of [nodes] holds the type the host gives for the node
    and, under [Attributes], only values that pass the tests of lines 284-308:
    for every attribute that is stored, the attribute exists, nothing feeds
    it, its type is none of [float3], [float2], [double2], [double3], and the
    value stored is the host's value, flattened when it is a list and then
    not a list without a true element.  The converse is not stated: an
    attribute that passes these tests is left out when it is a child of a
    connected attribute listed before it (lines 291-297). *)
Theorem build_shader_dict_node_entries (h : Host) (depth : nat) (shading_engine : string)
  (d : value) (selection : list string) :
  build_shader_dict h depth shading_engine = Ok (d, selection) ->
  Forall (fun kv : string * value =>
            exists t a,
              snd kv = VDict [("node_type", VStr t); ("Attributes", VDict a)]
              /\ last_of (ls_showType h (fst kv)) = Ok t
              /\ Forall (fun av : string * value =>
                           storable_value h (fst kv) (fst av) = Some (snd av)) a)
         (nodes_of d).
Proof.
  intros H. apply build_shader_dict_records in H as (walk & _ & Hd & _).
  destruct Hd as (b & n & c & m & -> & Hn). rewrite nodes_of_record.
  eapply List.Forall_impl; [|exact Hn]. intros kv (_ & _ & Hkv). exact Hkv.
Qed.

Lemma build_shader_dict_node_entries_witness :
  Forall (fun kv : string * value =>
            exists t a,
              snd kv = VDict [("node_type", VStr t); ("Attributes", VDict a)]
              /\ last_of (ls_showType (mini_host textured_sphere) (fst kv)) = Ok t
              /\ Forall (fun av : string * value =>
                           storable_value (mini_host textured_sphere) (fst kv) (fst av)
                           = Some (snd av)) a)
         (nodes_of (sg1_record [VStr "pSphereShape1"])).
Proof.
  apply (build_shader_dict_node_entries (mini_host textured_sphere) 100 "sg1" _ []).
  reflexivity.
Defined.

(** *** export_shaders: what the document holds *)

Lemma str_in_keys (k : string) (d : pydict) :
  str_in k (dict_keys d) = dict_has k d.
Proof.
  unfold dict_has, dict_keys. induction d as [|[k0 v0] d IH]; [reflexivity|].
  cbn [map fst str_in existsb dict_lookup]. fold (str_in k (map fst d)).
  destruct (String.eqb k k0); [reflexivity | exact IH].
Qed.

Lemma dict_keys_set (k : string) (v : value) (d : pydict) :
  dict_keys (dict_set k v d)
  = if dict_has k d then dict_keys d else dict_keys d ++ [k].
Proof.
  unfold dict_has, dict_keys. induction d as [|[k0 v0] d IH]; [reflexivity|].
  cbn [dict_set dict_lookup]. destruct (String.eqb k k0) eqn:E; [reflexivity|].
  cbn [map fst]. rewrite IH. now destruct (dict_lookup k d).
Qed.

Lemma dict_keys_set_NoDup (k : string) (v : value) (d : pydict) :
  List.NoDup (dict_keys d) -> List.NoDup (dict_keys (dict_set k v d)).
Proof.
  intros Hd. rewrite dict_keys_set. destruct (dict_has k d) eqn:E; [exact Hd|].
  apply List.NoDup_app; [exact Hd | constructor; [intros [] | constructor] |].
  intros a Ha [<-|[]]. apply str_in_true in Ha. rewrite str_in_keys in Ha. congruence.
Qed.

Lemma selected_engines_all (h : Host) (selection : list string) :
  forall acc l,
    for_each (fun shading_engines each =>
                is_engine <- has_type h each "shadingEngine" ;;
                Ok (if is_engine then shading_engines ++ [each] else shading_engines))
             selection acc = Ok l ->
    incl acc l
    /\ forall k, In k selection -> has_type h k "shadingEngine" = Ok true -> In k l.
Proof.
  induction selection as [|x sel IH]; intros acc l H; cbn [for_each] in H.
  - inversion H; subst. split; [apply incl_refl | intros k []].
  - bind_inv H. bind_inv Hx. inversion Hx; subst; clear Hx.
    apply IH in H as [Hacc Hall]. split.
    + destruct x1; [|exact Hacc]. intros y Hy. apply Hacc. apply in_or_app. now left.
    + intros k [<-|Hk] Hty; [|now apply Hall].
      rewrite Hty in Hx0. inversion Hx0; subst. apply Hacc. apply in_or_app. right. now left.
Qed.

Lemma export_mesh_entry_keys (h : Host) (depth : nat)
  (st st' : pydict * list string) (each : string) :
  export_mesh_entry h depth st each = Ok st' ->
  (List.NoDup (dict_keys (fst st)) -> List.NoDup (dict_keys (fst st')))
  /\ (forall k, dict_has k (fst st) = true -> dict_has k (fst st') = true)
  /\ exists sg, first_of (listConnections h each lc_shading_engine) = Ok sg
                /\ dict_has sg (fst st') = true.
Proof.
  destruct st as [d sel]. cbn [fst]. intros H.
  unfold export_mesh_entry in H. bind_inv H. rename x into sg.
  rewrite str_in_keys in H. destruct (dict_has sg d) eqn:E.
  - inversion H; subst. cbn [fst]. repeat split; eauto.
  - bind_inv H. inversion H; subst. cbn [fst]. split; [|split].
    + apply dict_keys_set_NoDup.
    + intros k. apply dict_has_set.
    + exists sg. split; [exact Hx | apply dict_has_set_same].
Qed.

Lemma export_engine_entry_keys (h : Host) (depth : nat)
  (st st' : pydict * list string) (each : string) :
  export_engine_entry h depth st each = Ok st' ->
  (List.NoDup (dict_keys (fst st)) -> List.NoDup (dict_keys (fst st')))
  /\ (forall k, dict_has k (fst st) = true -> dict_has k (fst st') = true)
  /\ dict_has each (fst st') = true.
Proof.
  destruct st as [d sel]. cbn [fst]. intros H.
  unfold export_engine_entry in H.
  rewrite str_in_keys in H. destruct (dict_has each d) eqn:E.
  - inversion H; subst. cbn [fst]. repeat split; eauto.
  - bind_inv H. bind_inv H. bind_inv H. inversion H; subst. cbn [fst]. split; [|split].
    + intros Hd. now do 2 apply dict_keys_set_NoDup.
    + intros k Hk. now do 2 apply dict_has_set.
    + apply dict_has_set_same.
Qed.

Lemma export_collect_keys (h : Host) (depth : nat) (selection : list string)
  (selection_type : string) (log : list event) (d : pydict) (selection' : list string) :
  export_collect h depth selection selection_type = (log, Ok (d, selection')) ->
  List.NoDup (dict_keys d)
  /\ (selection_type = "mesh" ->
      forall mesh, In mesh (selected_meshes h selection) ->
                   exists sg, first_of (listConnections h mesh lc_shading_engine) = Ok sg
                              /\ dict_has sg d = true)
  /\ (selection_type = "shadingEngine" ->
      forall k, In k selection -> has_type h k "shadingEngine" = Ok true ->
                dict_has k d = true).
Proof.
  unfold export_collect.
  destruct (String.eqb_spec selection_type "mesh") as [->|Hm].
  - intros H. injection H as _ Hrun.
    destruct (for_each_covers_inv
                (fun st : pydict * list string => List.NoDup (dict_keys (fst st)))
                (fun mesh st =>
                   exists sg, first_of (listConnections h mesh lc_shading_engine) = Ok sg
                              /\ dict_has sg (fst st) = true)
                (export_mesh_entry h depth) (selected_meshes h selection))
      with (s := (@nil (string * value), selection)) (r := (d, selection'))
      as (Hnd & Hall & _).
    + intros s x s' _ Hs Hstep.
      destruct (export_mesh_entry_keys _ _ _ _ _ Hstep) as (Hn & _ & Hsg). auto.
    + intros s y s' x _ _ Hstep (sg & Hsg & Hk).
      destruct (export_mesh_entry_keys _ _ _ _ _ Hstep) as (_ & Hkeep & _). eauto.
    + constructor.
    + exact Hrun.
    + split; [exact Hnd|]. split; [intros _; exact Hall | discriminate].
  - destruct (String.eqb_spec selection_type "shadingEngine") as [->|He].
    + destruct (selected_engines h selection) as [engines|e] eqn:Heng; [|discriminate].
      intros H. injection H as _ Hrun.
      apply selected_engines_all in Heng as [_ Hsel].
      destruct (for_each_covers_inv
                  (fun st : pydict * list string => List.NoDup (dict_keys (fst st)))
                  (fun k st => dict_has k (fst st) = true)
                  (export_engine_entry h depth) engines)
        with (s := (@nil (string * value), selection)) (r := (d, selection'))
        as (Hnd & Hall & _).
      * intros s x s' _ Hs Hstep.
        destruct (export_engine_entry_keys _ _ _ _ _ Hstep) as (Hn & _ & Hk). auto.
      * intros s y s' x _ _ Hstep Hk.
        destruct (export_engine_entry_keys _ _ _ _ _ Hstep) as (_ & Hkeep & _). auto.
      * constructor.
      * exact Hrun.
      * split; [exact Hnd|]. split; [discriminate|]. intros _ k Hk Hty. auto.
    + intros H. inversion H; subst. split; [constructor|]. split; congruence.
Qed.

(** X9. When [export_shaders] returns, the document it has written has one
    entry for the shading engine of every mesh of the selection
    ([selection_type] ["mesh"]) and for every selected shading engine
    ([selection_type] ["shadingEngine"]), and no shading engine twice. *)
Theorem export_shaders_keys (h : Host) (fs : FileSystem) (depth : nat)
  (selection : list string) (full_export_path selection_type : string)
  (events : list event) (selection' : list string) :
  export_shaders h fs depth selection full_export_path selection_type
  = (events, Ok selection') ->
  exists d,
    In (WriteJson full_export_path (VDict d)) events
    /\ List.NoDup (dict_keys d)
    /\ (selection_type = "mesh" ->
        forall mesh, In mesh (selected_meshes h selection) ->
                     exists sg, first_of (listConnections h mesh lc_shading_engine) = Ok sg
                                /\ dict_has sg d = true)
    /\ (selection_type = "shadingEngine" ->
        forall k, In k selection -> has_type h k "shadingEngine" = Ok true ->
                  dict_has k d = true).
Proof.
  unfold export_shaders. intros H.
  destruct (export_collect h depth selection selection_type) as [log [[d s]|e]] eqn:Hc;
    [|discriminate].
  destruct (open_write fs full_export_path); [|discriminate].
  inversion H; subst; clear H. exists d. split.
  - apply in_or_app. right. now left.
  - eapply export_collect_keys; eauto.
Qed.

Lemma export_shaders_keys_witness :
  exists d,
    In (WriteJson "out.json" (VDict d))
       [WriteJson "out.json" (VDict [("sg1", sg1_record [VStr "pSphereShape1"])]);
        LogInfo "Shaders Successfully Exported."]
    /\ List.NoDup (dict_keys d)
    /\ ("mesh" = "mesh" ->
        forall mesh, In mesh (selected_meshes (mini_host textured_sphere)
                                              ["pSphere1"; "pSphere1"]) ->
                     exists sg, first_of (listConnections (mini_host textured_sphere) mesh
                                                          lc_shading_engine) = Ok sg
                                /\ dict_has sg d = true)
    /\ ("mesh" = "shadingEngine" ->
        forall k, In k ["pSphere1"; "pSphere1"] ->
                  has_type (mini_host textured_sphere) k "shadingEngine" = Ok true ->
                  dict_has k d = true).
Proof.
  apply (export_shaders_keys (mini_host textured_sphere) any_file 100
           ["pSphere1"; "pSphere1"] "out.json" "mesh" _ []).
  reflexivity.
Defined.

(** X10. With a [selection_type] that is neither ["mesh"] nor
    ["shadingEngine"] (the docstring's ["meshes"] is one), [export_shaders]
    looks at nothing of the selection: it writes the empty object and reports
    success, with an error logged only when nothing is selected. *)
Theorem export_shaders_other_type (h : Host) (fs : FileSystem) (depth : nat)
  (selection : list string) (full_export_path selection_type : string) :
  selection_type <> "mesh" ->
  selection_type <> "shadingEngine" ->
  open_write fs full_export_path = true ->
  export_shaders h fs depth selection full_export_path selection_type
  = (log_if (length selection <? 1)%nat "Cannot export because nothing is selected."
       ++ [WriteJson full_export_path (VDict []);
           LogInfo "Shaders Successfully Exported."],
     Ok selection).
Proof.
  intros Hm He Hw. unfold export_shaders, export_collect.
  destruct (String.eqb_spec selection_type "mesh"); [contradiction|].
  destruct (String.eqb_spec selection_type "shadingEngine"); [contradiction|].
  now rewrite Hw.
Qed.

Lemma export_shaders_other_type_witness :
  export_shaders (mini_host textured_sphere) any_file 100 ["pSphere1"] "out.json" "meshes"
  = ([WriteJson "out.json" (VDict []); LogInfo "Shaders Successfully Exported."],
     Ok ["pSphere1"]).
Proof.
  apply (export_shaders_other_type (mini_host textured_sphere) any_file 100
           ["pSphere1"] "out.json" "meshes"); [discriminate | discriminate | reflexivity].
Defined.

(** X11. [export_shaders] writes when it returns and only then: a call that
    raises (in the host queries, in [build_shader_dict], or on opening the
    file) has written nothing, and a call that returns has written exactly
    one document, at the path it was given. *)
Theorem export_shaders_writes_iff_returns (h : Host) (fs : FileSystem) (depth : nat)
  (selection : list string) (full_export_path selection_type : string) :
  let run := export_shaders h fs depth selection full_export_path selection_type in
  ((exists selection', snd run = Ok selection')
   <-> exists p doc, In (WriteJson p doc) (fst run))
  /\ forall p doc, In (WriteJson p doc) (fst run) ->
                   p = full_export_path
                   /\ List.filter (fun e => negb (is_log_error e)) (fst run)
                      = [WriteJson p doc; LogInfo "Shaders Successfully Exported."].
Proof.
  cbv zeta. unfold export_shaders.
  pose proof (export_collect_log h depth selection selection_type) as Hlog.
  destruct (export_collect h depth selection selection_type) as [log [[d s]|e]];
    cbn [fst] in Hlog.
  - assert (Hno : forall p doc, ~ In (WriteJson p doc) log).
    { intros p doc Hin. rewrite forallb_forall in Hlog. apply Hlog in Hin. discriminate. }
    assert (Hfilter : List.filter (fun e => negb (is_log_error e)) log = []).
    { clear Hno. induction log as [|x log IH]; [reflexivity|].
      cbn [forallb] in Hlog. apply andb_true_iff in Hlog as [Hx Hl].
      cbn [List.filter]. rewrite Hx. cbn [negb]. auto. }
    destruct (open_write fs full_export_path); cbn [fst snd].
    + split.
      * split; intros _; [|eauto]. do 2 eexists. apply in_or_app. right. now left.
      * intros p doc Hin. apply in_app_or in Hin as [Hin|[Hin|[Hin|[]]]];
          [exfalso; eapply Hno; eauto| |discriminate].
        inversion Hin; subst. split; [reflexivity|].
        rewrite List.filter_app, Hfilter. reflexivity.
    + split.
      * split; [intros (x & Hx); discriminate|].
        intros (p & doc & Hin). exfalso; eapply Hno; eauto.
      * intros p doc Hin. exfalso; eapply Hno; eauto.
  - assert (Hno : forall p doc, ~ In (WriteJson p doc) log).
    { intros p doc Hin. rewrite forallb_forall in Hlog. apply Hlog in Hin. discriminate. }
    cbn [fst snd]. split.
    + split; [intros (x & Hx); discriminate|].
      intros (p & doc & Hin). exfalso; eapply Hno; eauto.
    + intros p doc Hin. exfalso; eapply Hno; eauto.
Qed.

(** *** import_shaders: the rewriting loop, and the option "skip" *)

Lemma rewritten_starts_new (old new p : string) :
  old <> "" ->
  str_contains "." old = false ->
  startswith p (old ++ ".") = true ->
  startswith (rewrite_plug_name old new p) (new ++ ".") = true.
Proof.
  intros Hne Ho Hp. unfold rewrite_plug_name. rewrite Hp. unfold startswith in *.
  apply prefix_split in Hp as (r & ->). rewrite string_app_assoc.
  destruct old as [|a o]; [congruence|].
  destruct (dot_free_cons _ _ Ho) as [Ha _].
  rewrite replace_dotted by exact Ha.
  rewrite <- string_app_assoc. apply prefix_app.
Qed.

(** X12. One run of the loop that rewrites plug names (lines 151-157,
    160-165, 174-180), for node names without a dot: in a list of pairs of
    plugs, every plug of the old node (it starts with the old name and a dot)
    becomes a plug of the new node, every other plug is kept, and the list
    keeps its length and order. *)
Theorem rewrite_connections_run (also_each : bool) (old new : string)
  (shader_network : value) (pairs : list (list string)) :
  old <> "" ->
  str_contains "." old = false ->
  str_contains "." new = false ->
  old <> new ->
  getitem shader_network "connections" = Ok (VList (map str_list pairs)) ->
  rewrite_connections also_each old new shader_network
  = (shader_network' <-
       setitem shader_network "connections"
               (VList (map str_list (map (map (rewrite_plug_name old new)) pairs))) ;;
     Ok (shader_network', rewritten_plugs old new pairs))
  /\ (forall p, startswith p (old ++ ".") = true ->
                startswith (rewrite_plug_name old new p) (new ++ ".") = true)
  /\ (forall p, startswith p (old ++ ".") = false -> rewrite_plug_name old new p = p).
Proof.
  intros Hne Ho Hn Hon Hc. split; [|split].
  - apply rewrite_connections_spec; [|exact Hc]. now apply rename_sane_names.
  - intros p. now apply rewritten_starts_new.
  - intros p Hp. unfold rewrite_plug_name. now rewrite Hp.
Qed.

Lemma rewrite_connections_run_witness :
  rewrite_connections false "file1" "file2" one_connection
  = Ok (VDict [("connections", VList [str_list ["file2.outColor"; "mat.color"]])],
        [VStr "file2.outColor"]).
Proof.
  apply (rewrite_connections_run false "file1" "file2" one_connection
           [["file1.outColor"; "mat.color"]]);
    try reflexivity; discriminate.
Defined.

Lemma dict_remove_middle (k : string) (v : value) (pre post : pydict) :
  ~ In k (dict_keys pre) ->
  dict_has k (pre ++ (k, v) :: post) = true
  /\ dict_remove k (pre ++ (k, v) :: post) = pre ++ post.
Proof.
  unfold dict_has. induction pre as [|[k0 v0] pre IH]; intros Hk;
    cbn [app dict_lookup dict_remove].
  - now rewrite String.eqb_refl.
  - destruct (String.eqb_spec k k0) as [->|_]; [exfalso; apply Hk; now left|].
    destruct IH as [IH1 IH2]; [intros Hin; apply Hk; now right|].
    split; [exact IH1 | now rewrite IH2].
Qed.

(** Deleting the keys that satisfy a test leaves the entries that do not. *)
Lemma delete_keys (P : string -> bool) (d : pydict) :
  forall pre,
    List.NoDup (dict_keys (pre ++ d)) ->
    for_each delitem (map fst (List.filter (fun kv => P (fst kv)) d)) (VDict (pre ++ d))
    = Ok (VDict (pre ++ List.filter (fun kv => negb (P (fst kv))) d)).
Proof.
  induction d as [|[k v] d IH]; intros pre Hnd; cbn [List.filter map for_each fst].
  - reflexivity.
  - destruct (P k) eqn:Pk; cbn [negb map for_each fst].
    + assert (Hk : ~ In k (dict_keys pre)).
      { unfold dict_keys in *. rewrite map_app in Hnd. cbn [map fst] in Hnd.
        apply List.NoDup_remove_2 in Hnd. intros Hin. apply Hnd.
        apply in_or_app. now left. }
      destruct (dict_remove_middle k v pre d Hk) as [Hhas Hrem].
      cbn [delitem]. rewrite Hhas, Hrem. cbn [bind]. apply IH.
      unfold dict_keys in *. rewrite map_app in *. cbn [map fst] in Hnd.
      now apply List.NoDup_remove_1 in Hnd.
    + change (pre ++ (k, v) :: d) with (pre ++ [(k, v)] ++ d).
      change (pre ++ (k, v) :: List.filter (fun kv => negb (P (fst kv))) d)
        with (pre ++ [(k, v)] ++ List.filter (fun kv => negb (P (fst kv))) d).
      rewrite !app_assoc. apply IH. now rewrite <- app_assoc.
Qed.

Lemma skip_list_of (w : World) (entries : pydict) (st : pystate (Scene w)) :
  forall acc,
    mfold (fun skip_list (entry : string * value) =>
             exists_ <~ ask w (fun h => objExists h (fst entry)) ;;
             ret (if exists_ then skip_list ++ [fst entry] else skip_list))
          entries acc st
    = (Ok (acc ++ map fst (List.filter
                             (fun kv => objExists (queries w (scene st)) (fst kv))
                             entries)), st).
Proof.
  induction entries as [|[k v] entries IH]; intros acc; cbn [mfold List.filter map fst].
  - unfold ret. now rewrite app_nil_r.
  - unfold mbind at 1. unfold mbind at 1. unfold ask at 1. unfold ret at 1.
    rewrite IH. destruct (objExists (queries w (scene st)) k); cbn [map fst].
    + now rewrite <- app_assoc.
    + reflexivity.
Qed.

Lemma mbind_lift {S A B : Type} (a : A) (k : A -> M S B) (st : pystate S) :
  mbind (lift (Ok a)) k st = k a st.
Proof. reflexivity. Qed.

Lemma mbind_lift_raise {S A B : Type} (e : exn) (k : A -> M S B) (st : pystate S) :
  mbind (lift (Raise e)) k st = (Raise e, st).
Proof. reflexivity. Qed.

Lemma mbind_run {S A B : Type} (m : M S A) (k : A -> M S B) (st st' : pystate S) (a : A) :
  m st = (Ok a, st') -> mbind m k st = k a st'.
Proof. intros H. unfold mbind. now rewrite H. Qed.

Lemma mbind_run_raise {S A B : Type} (m : M S A) (k : A -> M S B) (st st' : pystate S)
  (e : exn) :
  m st = (Raise e, st') -> mbind m k st = (Raise e, st').
Proof. intros H. unfold mbind. now rewrite H. Qed.

Lemma conflicts_skip_spec (w : World) (entries : pydict) (st : pystate (Scene w)) :
  List.NoDup (dict_keys entries) ->
  conflicts_skip w (VDict entries) st
  = (Ok (VDict (List.filter (fun kv => negb (objExists (queries w (scene st)) (fst kv)))
                            entries)), st).
Proof.
  intros Hnd. unfold conflicts_skip. cbn [items_of]. rewrite mbind_lift.
  erewrite mbind_run by apply skip_list_of. cbn [app]. unfold lift.
  pose proof (delete_keys (fun k => objExists (queries w (scene st)) k) entries [] Hnd)
    as Hdel.
  cbn [app] in Hdel. now rewrite Hdel.
Qed.

Lemma import_shaders_rename_run (w : World) (fs : FileSystem) (depth : nat)
  (importPath : string) (st : pystate (Scene w)) (doc : value) :
  json_load fs importPath = Ok doc ->
  import_shaders w fs depth importPath "rename" st = create_networks w doc st.
Proof.
  intros Hload. unfold import_shaders. rewrite Hload. now rewrite mbind_lift.
Qed.

(** X13. With [shader_conflicts="skip"], the import does what the option
    ["rename"] does on the document without the entries whose shading engine
    exists in the scene: those networks are passed over whole, nothing of
    them is created. *)
Theorem import_shaders_skip (w : World) (fs fs' : FileSystem) (depth : nat)
  (importPath : string) (st : pystate (Scene w)) (entries : pydict) :
  json_load fs importPath = Ok (VDict entries) ->
  List.NoDup (dict_keys entries) ->
  json_load fs' importPath
  = Ok (VDict (List.filter (fun kv => negb (objExists (queries w (scene st)) (fst kv)))
                           entries)) ->
  import_shaders w fs depth importPath "skip" st
  = import_shaders w fs' depth importPath "rename" st.
Proof.
  intros Hload Hnd Hload'.
  rewrite (import_shaders_rename_run w fs' depth importPath st _ Hload').
  unfold import_shaders. rewrite Hload. rewrite mbind_lift.
  cbn [String.eqb Ascii.eqb Bool.eqb].
  now erewrite mbind_run by (apply conflicts_skip_spec; exact Hnd).
Qed.

Lemma import_shaders_skip_witness :
  import_shaders mini_world (one_file "in.json" two_textures) 100 "in.json" "skip"
                 (start scene_with_matSG)
  = import_shaders mini_world (one_file "in.json" (VDict [])) 100 "in.json" "rename"
                   (start scene_with_matSG).
Proof.
  apply (import_shaders_skip mini_world (one_file "in.json" two_textures)
           (one_file "in.json" (VDict [])) 100 "in.json" (start scene_with_matSG)
           (match two_textures with VDict e => e | _ => [] end)).
  - reflexivity.
  - repeat constructor. intros [].
  - reflexivity.
Defined.

(** *** import_shaders: what it adds to the trace *)

Lemma emits_ret {S A : Type} (P : event -> bool) (a : A) : emits P (@ret S A a).
Proof.
  intros st r st' H. inversion H; subst. exists []. now rewrite app_nil_r.
Qed.

Lemma emits_lift {S A : Type} (P : event -> bool) (x : result A) : emits P (@lift S A x).
Proof.
  intros st r st' H. inversion H; subst. exists []. now rewrite app_nil_r.
Qed.

Lemma emits_emit {S : Type} (P : event -> bool) (e : event) :
  P e = true -> emits P (@emit S e).
Proof.
  intros He st r st' H. inversion H; subst. exists [e]. cbn. now rewrite He.
Qed.

Lemma emits_bind {S A B : Type} (P : event -> bool) (m : M S A) (k : A -> M S B) :
  emits P m -> (forall a, emits P (k a)) -> emits P (mbind m k).
Proof.
  intros Hm Hk st r st' H. unfold mbind in H.
  destruct (m st) as [[a|e] st1] eqn:E.
  - destruct (Hm _ _ _ E) as (e1 & T1 & P1).
    destruct (Hk a _ _ _ H) as (e2 & T2 & P2).
    exists (e1 ++ e2). rewrite T2, T1, <- app_assoc. split; [reflexivity|].
    now rewrite forallb_app, P1, P2.
  - inversion H; subst. exact (Hm _ _ _ E).
Qed.

Lemma emits_mfor {S A : Type} (P : event -> bool) (body : A -> M S unit) (l : list A) :
  (forall x, emits P (body x)) -> emits P (mfor body l).
Proof.
  intros Hb. induction l as [|x l IH]; cbn [mfor].
  - apply emits_ret.
  - apply emits_bind; [apply Hb | intros _; exact IH].
Qed.

Lemma emits_mfold {S A B : Type} (P : event -> bool) (body : B -> A -> M S B)
  (l : list A) :
  (forall b x, emits P (body b x)) -> forall b, emits P (mfold body l b).
Proof.
  intros Hb. induction l as [|x l IH]; intros b; cbn [mfold].
  - apply emits_ret.
  - apply emits_bind; [apply Hb | exact IH].
Qed.

Section Emits.

Variable w : World.
Variable P : event -> bool.

Lemma emits_ask {A : Type} (q : Host -> A) : emits P (ask w q).
Proof.
  intros st r st' H. inversion H; subst. exists []. now rewrite app_nil_r.
Qed.

Lemma emits_run {A : Type} (c : command) (f : Scene w -> result (A * Scene w)) :
  P (HostCmd c) = true -> emits P (run w c f).
Proof.
  intros Hc st r st' H. unfold run in H. exists [HostCmd c].
  destruct (f (scene st)) as [[a s']|e]; inversion H; subst; cbn; now rewrite Hc.
Qed.

Lemma emits_get_src_nodes_default (depth : nat) (node_name : string) :
  emits P (get_src_nodes_default w depth node_name).
Proof.
  intros st r st' H. unfold get_src_nodes_default in H. exists [].
  destruct (get_src_nodes _ _ _ _); inversion H; subst; cbn; now rewrite app_nil_r.
Qed.

(** What [P] has to let through, one hypothesis for each kind of event of the
    loop that creates the networks. *)
Hypothesis allows_shadingNode : forall t n, P (HostCmd (CShadingNode t n)) = true.
Hypothesis allows_sets : forall n, P (HostCmd (CSets n)) = true.
Hypothesis allows_createNode : forall t n, P (HostCmd (CCreateNode t n)) = true.
Hypothesis allows_setAttr : forall p v t, P (HostCmd (CSetAttr p v t)) = true.
Hypothesis allows_connectAttr : forall s d, P (HostCmd (CConnectAttr s d)) = true.
Hypothesis allows_forceElement : forall o s, P (HostCmd (CForceElement o s)) = true.
Hypothesis allows_print : forall v, P (Print v) = true.
Hypothesis allows_info : forall msg, P (LogInfo msg) = true.
Hypothesis allows_error : forall msg, P (LogError msg) = true.

Lemma set_attr_emits (full_name : string) (val : value) :
  emits P (set_attr w full_name val).
Proof.
  unfold set_attr. apply emits_bind; [apply emits_ask|]. intros attr_type.
  apply emits_bind; [apply emits_ask|]. intros current.
  destruct (negb (py_eq val current)); [|apply emits_ret].
  destruct (str_in attr_type type_filter); apply emits_run; apply allows_setAttr.
Qed.

Lemma create_node_emits (material_name : string) (shader_network : value)
  (entry : string * value) :
  emits P (create_node w material_name shader_network entry).
Proof.
  unfold create_node. destruct entry as [node_name settings].
  apply emits_bind.
  - destruct (negb (String.eqb node_name material_name)); [|apply emits_ret].
    apply emits_bind; [apply emits_lift|]. intros node_type.
    apply emits_bind; [apply emits_run; apply allows_createNode|].
    intros new_node.
    destruct (negb (String.eqb node_name new_node)); [|apply emits_ret].
    apply emits_bind; [apply emits_mfor; intros x; apply emits_emit; apply allows_print|].
    intros _. apply emits_bind; [apply emits_lift|]. intros rewritten. apply emits_ret.
  - intros [net name]. apply emits_bind; [apply emits_lift|]. intros attributes.
    apply emits_bind; [|intros _; apply emits_ret].
    apply emits_mfor. intros kv. apply set_attr_emits.
Qed.

Lemma connect_emits (each : value) : emits P (connect w each).
Proof.
  unfold connect. apply emits_bind; [apply emits_lift|]. intros source0.
  apply emits_bind; [apply emits_lift|]. intros destination0.
  apply emits_bind; [apply emits_lift|]. intros source.
  apply emits_bind; [apply emits_lift|]. intros destination.
  apply emits_run. apply allows_connectAttr.
Qed.

Lemma apply_to_mesh_emits (shader_set : string) (each : value) :
  emits P (apply_to_mesh w shader_set each).
Proof.
  unfold apply_to_mesh. apply emits_bind; [apply emits_lift|]. intros mesh.
  apply emits_bind; [apply emits_ask|]. intros exists_.
  destruct exists_; [|apply emits_ret].
  apply emits_run. apply allows_forceElement.
Qed.

Lemma create_network_emits (entry : string * value) :
  emits P (create_network w entry).
Proof.
  unfold create_network. destruct entry as [shading_engine shader_network].
  apply emits_bind; [apply emits_lift|]. intros base_material.
  apply emits_bind; [apply emits_lift|]. intros material_type0.
  apply emits_bind; [apply emits_lift|]. intros name0.
  apply emits_bind; [apply emits_lift|]. intros material_type.
  apply emits_bind; [apply emits_lift|]. intros name.
  apply emits_bind; [apply emits_run; apply allows_shadingNode|].
  intros material_name.
  apply emits_bind; [apply emits_run; apply allows_sets|].
  intros shader_set.
  apply emits_bind.
  { destruct (negb (String.eqb shading_engine shader_set)); [|apply emits_ret].
    apply emits_bind; [apply emits_lift | intros r; apply emits_ret]. }
  intros net1. apply emits_bind.
  { destruct (negb (String.eqb name material_name)); [apply emits_lift | apply emits_ret]. }
  intros net2. apply emits_bind; [apply emits_lift|]. intros nodes.
  apply emits_bind; [apply emits_mfold; intros; apply create_node_emits|].
  intros net3. apply emits_bind; [apply emits_lift|]. intros connections.
  apply emits_bind; [apply emits_mfor; intros; apply connect_emits|]. intros _.
  apply emits_bind; [apply emits_lift|]. intros meshes.
  apply emits_bind; [|intros _; apply emits_ret].
  destruct (0 <? length meshes)%nat; [|apply emits_ret].
  apply emits_mfor. intros. apply apply_to_mesh_emits.
Qed.

Lemma create_networks_emits (shaders_dict : value) :
  emits P (create_networks w shaders_dict).
Proof.
  unfold create_networks. apply emits_bind; [apply emits_lift|]. intros entries.
  apply emits_bind; [|intros _; apply emits_emit; apply allows_info].
  apply emits_mfor. intros entry.
  apply emits_bind; [apply create_network_emits | intros _; apply emits_ret].
Qed.

Lemma conflicts_skip_emits (shaders_dict : value) :
  emits P (conflicts_skip w shaders_dict).
Proof.
  unfold conflicts_skip. apply emits_bind; [apply emits_lift|]. intros entries.
  apply emits_bind; [|intros; apply emits_lift].
  apply emits_mfold. intros skip_list entry.
  apply emits_bind; [apply emits_ask | intros; apply emits_ret].
Qed.

Lemma import_shaders_emits (fs : FileSystem) (depth : nat)
  (importPath shader_conflicts : string) :
  shader_conflicts <> "replace" ->
  emits P (import_shaders w fs depth importPath shader_conflicts).
Proof.
  intros Hmode. unfold import_shaders.
  apply emits_bind; [apply emits_lift|]. intros json_data.
  destruct (String.eqb shader_conflicts "skip").
  { apply emits_bind; [apply conflicts_skip_emits | intros; apply create_networks_emits]. }
  destruct (String.eqb_spec shader_conflicts "replace"); [contradiction|].
  destruct (String.eqb shader_conflicts "rename"); [apply create_networks_emits|].
  destruct (String.eqb shader_conflicts "cancel");
    [apply emits_emit; apply allows_error|].
  apply emits_bind; [apply emits_emit; apply allows_error|].
  intros _. apply create_networks_emits.
Qed.

End Emits.

(** X14. Only the option ["replace"] deletes: with any other value of
    [shader_conflicts], whatever the document and the host, [import_shaders]
    issues no [delete] command, whether it returns or raises. *)
Theorem import_shaders_deletes_nothing (w : World) (fs : FileSystem) (depth : nat)
  (importPath shader_conflicts : string) (st st' : pystate (Scene w))
  (r : result unit) :
  shader_conflicts <> "replace" ->
  import_shaders w fs depth importPath shader_conflicts st = (r, st') ->
  exists evs, trace st' = trace st ++ evs
              /\ forall name, ~ In (HostCmd (CDelete name)) evs.
Proof.
  intros Hmode H.
  assert (E : emits (fun e => negb (is_delete e))
                (import_shaders w fs depth importPath shader_conflicts))
    by (apply import_shaders_emits; try exact Hmode; intros; reflexivity).
  destruct (E _ _ _ H) as (evs & Ht & Hp).
  exists evs. split; [exact Ht|]. intros name Hin.
  rewrite forallb_forall in Hp. apply Hp in Hin. discriminate.
Qed.

Lemma import_shaders_deletes_nothing_witness :
  exists evs,
    trace (snd (import_shaders mini_world (one_file "in.json" two_textures) 100
                               "in.json" "rename" (start scene_with_file1)))
    = trace (start scene_with_file1) ++ evs
    /\ forall name, ~ In (HostCmd (CDelete name)) evs.
Proof.
  apply (import_shaders_deletes_nothing mini_world (one_file "in.json" two_textures) 100
           "in.json" "rename" (start scene_with_file1) _
           (fst (import_shaders mini_world (one_file "in.json" two_textures) 100
                               "in.json" "rename" (start scene_with_file1))));
    [discriminate | apply surjective_pairing].
Defined.

(** *** import_shaders: the connections it makes *)

Lemma mbind_ok {S A B : Type} (m : M S A) (k : A -> M S B) (st st' : pystate S) (b : B) :
  mbind m k st = (Ok b, st') ->
  exists a st1, m st = (Ok a, st1) /\ k a st1 = (Ok b, st').
Proof.
  unfold mbind. destruct (m st) as [[a|e] st1]; [|discriminate].
  intros H. now exists a, st1.
Qed.

Lemma connects_app (a b : list event) : connects (a ++ b) = connects a ++ connects b.
Proof. apply flat_map_app. Qed.

Lemma emits_no_connect {S A : Type} (m : M S A) (st st' : pystate S) (r : result A) :
  emits (fun e => negb (is_connect e)) m ->
  m st = (r, st') ->
  connects (trace st') = connects (trace st).
Proof.
  intros Hm H. destruct (Hm _ _ _ H) as (evs & Ht & Hp).
  rewrite Ht, connects_app.
  assert (E : connects evs = []).
  { clear Ht. induction evs as [|e evs IH]; [reflexivity|].
    cbn in Hp. apply andb_prop in Hp as [He Hp].
    unfold connects in *. cbn [flat_map]. rewrite (IH Hp), app_nil_r.
    destruct e as [| | | |c]; try reflexivity. now destruct c. }
  now rewrite E, app_nil_r.
Qed.

Lemma lift_ok {S A : Type} (x : result A) (st st1 : pystate S) (a : A) :
  lift x st = (Ok a, st1) -> x = Ok a /\ st1 = st.
Proof. intros H. inversion H. now split. Qed.

Lemma ret_ok {S A : Type} (x a : A) (st st1 : pystate S) :
  ret x st = (Ok a, st1) -> a = x /\ st1 = st.
Proof. intros H. inversion H. now split. Qed.

Lemma connect_all (w : World) (conns : list value) :
  forall st st',
    mfor (connect w) conns st = (Ok tt, st') ->
    exists pairs,
      connects (trace st') = connects (trace st) ++ pairs
      /\ Forall2 connection_made conns pairs.
Proof.
  induction conns as [|each conns IH]; intros st st' H; cbn [mfor] in H.
  - inversion H; subst. exists []. rewrite app_nil_r. split; constructor.
  - apply mbind_ok in H as ([] & st1 & H1 & H).
    destruct (IH _ _ H) as (pairs & Ht & Hf).
    unfold connect in H1.
    apply mbind_ok in H1 as (source0 & s0 & L & H1). apply lift_ok in L as [Hs0 ->].
    apply mbind_ok in H1 as (destination0 & s0 & L & H1). apply lift_ok in L as [Hd0 ->].
    apply mbind_ok in H1 as (source & s0 & L & H1). apply lift_ok in L as [Hs ->].
    apply mbind_ok in H1 as (destination & s0 & L & H1). apply lift_ok in L as [Hd ->].
    destruct source0; try discriminate. destruct destination0; try discriminate.
    cbn [as_str] in Hs, Hd. inversion Hs; subst. inversion Hd; subst.
    assert (T : trace st1 = trace st ++ [HostCmd (CConnectAttr source destination)]).
    { unfold run in H1.
      destruct (unit_cmd _ _) as [[a s']|e]; inversion H1; reflexivity. }
    exists ((source, destination) :: pairs). split.
    + rewrite Ht, T, connects_app. cbn. now rewrite <- app_assoc.
    + constructor; [split; assumption | exact Hf].
Qed.

(** X15. A call of the loop body that returns has made the connections of
    the record as it leaves it, that is after the renaming of lines 149-181:
    one [connectAttr] for each element that the loop of line 186 finds in
    ["connections"], in their order, from [each[0]] to [each[1]], and no
    other [connectAttr].  The element is whatever the document holds there:
    for a pair of plug names the two names, for a string its first two
    characters. *)
Theorem create_network_connects (w : World) (shading_engine : string)
  (shader_network network : value) (st st' : pystate (Scene w)) :
  create_network w (shading_engine, shader_network) st = (Ok network, st') ->
  exists evs connections,
    trace st' = trace st ++ evs
    /\ (c <- getitem network "connections" ;; iterate c) = Ok connections
    /\ Forall2 connection_made connections (connects evs).
Proof.
  intros H.
  destruct (create_network_emits w (fun _ => true)
              ltac:(reflexivity) ltac:(reflexivity) ltac:(reflexivity)
              ltac:(reflexivity) ltac:(reflexivity) ltac:(reflexivity)
              ltac:(reflexivity) _ _ _ _ H) as (evs & Ht & _).
  exists evs.
  assert (Q : forall A (c : command) (f : Scene w -> result (A * Scene w)),
             emits (fun e => negb (is_connect e)) (run w c f) ->
             forall s r s', run w c f s = (r, s') ->
                            connects (trace s') = connects (trace s)).
  { intros A c f Hm s r s' Hr. exact (emits_no_connect _ _ _ _ Hm Hr). }
  unfold create_network in H.
  apply mbind_ok in H as (base_material & s0 & L0 & H). apply lift_ok in L0 as [_ ->].
  apply mbind_ok in H as (material_type0 & s0 & L0 & H). apply lift_ok in L0 as [_ ->].
  apply mbind_ok in H as (name0 & s0 & L0 & H). apply lift_ok in L0 as [_ ->].
  apply mbind_ok in H as (material_type & s0 & L0 & H). apply lift_ok in L0 as [_ ->].
  apply mbind_ok in H as (name & s0 & L0 & H). apply lift_ok in L0 as [_ ->].
  apply mbind_ok in H as (material_name & s1 & R1 & H).
  apply Q in R1; [|now apply emits_run].
  apply mbind_ok in H as (shader_set & s2 & R2 & H).
  apply Q in R2; [|now apply emits_run].
  apply mbind_ok in H as (net1 & s3 & R3 & H).
  assert (E3 : s3 = s2).
  { destruct (negb (String.eqb shading_engine shader_set)).
    - apply mbind_ok in R3 as (r & s & Lr & R3).
      apply lift_ok in Lr as [_ ->]. now apply ret_ok in R3.
    - now apply ret_ok in R3. }
  subst s3. clear R3.
  apply mbind_ok in H as (net2 & s3 & R3 & H).
  assert (E3 : s3 = s2).
  { destruct (negb (String.eqb name material_name)).
    - now apply lift_ok in R3.
    - now apply ret_ok in R3. }
  subst s3. clear R3.
  apply mbind_ok in H as (nodes & s3 & L3 & H). apply lift_ok in L3 as [_ ->].
  apply mbind_ok in H as (net3 & s4 & R4 & H).
  apply emits_no_connect in R4;
    [|apply emits_mfold; intros; apply create_node_emits; reflexivity].
  apply mbind_ok in H as (connections & s5 & L5 & H). apply lift_ok in L5 as [L5 ->].
  apply mbind_ok in H as ([] & s6 & R6 & H).
  apply connect_all in R6 as (pairs & R6 & Hf).
  apply mbind_ok in H as (meshes & s7 & L7 & H). apply lift_ok in L7 as [_ ->].
  apply mbind_ok in H as ([] & s8 & R8 & H). apply ret_ok in H as [-> ->].
  assert (E8 : connects (trace s8) = connects (trace s6)).
  { destruct (0 <? length meshes)%nat.
    - eapply emits_no_connect; [|exact R8].
      apply emits_mfor; intros; apply apply_to_mesh_emits; reflexivity.
    - apply ret_ok in R8 as [_ ->]. reflexivity. }
  exists connections. split; [exact Ht|]. split; [exact L5|].
  assert (E : connects (trace st) ++ connects evs = connects (trace st) ++ pairs)
    by (rewrite <- connects_app, <- Ht, E8, R6, R4, R2, R1; reflexivity).
  apply app_inv_head in E. rewrite E. exact Hf.
Qed.

Lemma create_network_connects_witness :
  exists evs connections,
    trace (snd hand_made_run) = trace (start two_chains) ++ evs
    /\ (c <- getitem hand_made_record "connections" ;; iterate c) = Ok connections
    /\ Forall2 connection_made connections (connects evs).
Proof.
  apply (create_network_connects mini_world "sg" hand_made_record hand_made_record
           (start two_chains) (snd hand_made_run)).
  vm_compute. reflexivity.
Defined.

(** On that record, the string ["ab"] gives the command
    [connectAttr("a", "b")]. *)
Lemma create_network_string_entry :
  fst hand_made_run = Ok hand_made_record
  /\ connects (trace (snd hand_made_run)) = [("x.outColor", "mat.color"); ("a", "b")].
Proof. split; reflexivity. Qed.

(** *** import_shaders: a base material without an entry in ["nodes"] *)

Lemma run_ok (w : World) {A : Type} (c : command) (f : Scene w -> result (A * Scene w))
  (st : pystate (Scene w)) (a : A) (s' : Scene w) :
  f (scene st) = Ok (a, s') ->
  run w c f st
  = (Ok a, {| scene := s'; default_node_list := default_node_list st;
              trace := trace st ++ [HostCmd c] |}).
Proof. intros H. unfold run. now rewrite H. Qed.

(** Rewriting the plugs of a record touches its key ["connections"] only. *)
Lemma rewrite_connections_nodes (also_each : bool) (old new : string)
  (shader_network : value) (pairs : list (list string)) (nodes : value) :
  node_name old -> node_name new -> old <> new ->
  getitem shader_network "connections" = Ok (VList (map str_list pairs)) ->
  getitem shader_network "nodes" = Ok nodes ->
  exists shader_network',
    rewrite_connections also_each old new shader_network
    = Ok (shader_network', rewritten_plugs old new pairs)
    /\ getitem shader_network' "connections"
       = Ok (VList (map str_list (map (map (rewrite_plug_name old new)) pairs)))
    /\ getitem shader_network' "nodes" = Ok nodes.
Proof.
  intros [Ho1 Ho2] [_ Hn2] Hon Hc Hn.
  rewrite (rewrite_connections_spec also_each old new
             (rename_sane_names old new Ho1 Ho2 Hn2 Hon) shader_network pairs Hc).
  destruct shader_network as [| | | | | | |d]; try discriminate.
  cbn [setitem bind]. eexists. split; [reflexivity|].
  cbn [getitem] in *. rewrite !dict_lookup_set. cbn. split; [reflexivity | exact Hn].
Qed.

Lemma rename_material_missing (name material_name : string) (shader_network : value)
  (pairs : list (list string)) (nodes : pydict) :
  node_name name -> node_name material_name -> name <> material_name ->
  getitem shader_network "connections" = Ok (VList (map str_list pairs)) ->
  getitem shader_network "nodes" = Ok (VDict nodes) ->
  dict_has name nodes = false ->
  rename_material name material_name shader_network = Raise KeyError.
Proof.
  intros Hn Hm Hne Hc Hnodes Hmiss.
  destruct (rewrite_connections_nodes false name material_name shader_network pairs
              (VDict nodes) Hn Hm Hne Hc Hnodes) as (net' & E & _ & Hn').
  unfold rename_material. rewrite E. cbn [bind fst]. rewrite Hn'. cbn [bind getitem].
  unfold dict_has in Hmiss. destruct (dict_lookup name nodes); [discriminate|reflexivity].
Qed.

(** X16. When the host gives the base material another name than the
    recorded one, as it does when a node of that name is in the scene, and
    ["nodes"] has no entry for the recorded name, the loop body raises
    [KeyError] at line 166: the material and the set have been created by
    then, and nothing else has been done. *)
Theorem create_network_missing_material (w : World) (shading_engine : string)
  (shader_network base_material : value) (material_type name : string)
  (pairs : list (list string)) (nodes : pydict)
  (st : pystate (Scene w)) (material_name shader_set : string) (s1 s2 : Scene w) :
  getitem shader_network "base_material" = Ok base_material ->
  getitem base_material "type" = Ok (VStr material_type) ->
  getitem base_material "name" = Ok (VStr name) ->
  getitem shader_network "connections" = Ok (VList (map str_list pairs)) ->
  getitem shader_network "nodes" = Ok (VDict nodes) ->
  dict_has name nodes = false ->
  shadingNode w (scene st) material_type name = Ok (material_name, s1) ->
  sets w s1 shading_engine = Ok (shader_set, s2) ->
  name <> material_name ->
  node_name name -> node_name material_name ->
  node_name shading_engine -> node_name shader_set ->
  create_network w (shading_engine, shader_network) st
  = (Raise KeyError,
     {| scene := s2; default_node_list := default_node_list st;
        trace := trace st ++ [HostCmd (CShadingNode material_type name);
                              HostCmd (CSets shading_engine)] |}).
Proof.
  intros Hb Ht Hn Hc Hnodes Hmiss Hsn Hsets Hne Nn Nm Ne Ns.
  unfold create_network.
  rewrite Hb, mbind_lift, Ht, mbind_lift, Hn, mbind_lift.
  cbn [as_str]. rewrite !mbind_lift.
  erewrite mbind_run by (apply run_ok; exact Hsn).
  erewrite mbind_run by (apply run_ok; cbn [scene]; exact Hsets).
  cbn [trace default_node_list]. rewrite <- app_assoc. cbn [app].
  assert (R : exists net1 pairs1,
             (if negb (String.eqb shading_engine shader_set)
              then mbind (lift (rewrite_connections true shading_engine shader_set
                                                    shader_network))
                         (fun r => ret (fst r))
              else ret shader_network)
             = ret (S := Scene w) net1
             /\ getitem net1 "connections" = Ok (VList (map str_list pairs1))
             /\ getitem net1 "nodes" = Ok (VDict nodes)).
  { destruct (String.eqb_spec shading_engine shader_set) as [_|Hd]; cbn [negb].
    - exists shader_network, pairs. now split.
    - destruct (rewrite_connections_nodes true shading_engine shader_set shader_network
                  pairs (VDict nodes) Ne Ns Hd Hc Hnodes) as (net1 & E & Hc1 & Hn1).
      exists net1, (map (map (rewrite_plug_name shading_engine shader_set)) pairs).
      rewrite E. now split. }
  destruct R as (net1 & pairs1 & -> & Hc1 & Hn1).
  unfold ret at 1. unfold mbind at 1.
  destruct (String.eqb_spec name material_name) as [|_]; [contradiction|]. cbn [negb].
  rewrite (rename_material_missing name material_name net1 pairs1 nodes Nn Nm Hne Hc1
             Hn1 Hmiss).
  reflexivity.
Qed.

Lemma create_network_missing_material_witness :
  create_network mini_world ("initialShadingGroup", default_material)
                 (start scene_with_lambert1)
  = (Raise KeyError,
     {| scene := scene (snd (create_network mini_world
                                            ("initialShadingGroup", default_material)
                                            (start scene_with_lambert1)));
        default_node_list := default_node_list (start scene_with_lambert1);
        trace := trace (start scene_with_lambert1)
                 ++ [HostCmd (CShadingNode "lambert" "lambert1");
                     HostCmd (CSets "initialShadingGroup")] |}).
Proof.
  eapply (create_network_missing_material mini_world "initialShadingGroup" default_material
           (VDict [("name", VStr "lambert1"); ("type", VStr "lambert")])
           "lambert" "lambert1"
           [["lambert1.outColor"; "initialShadingGroup.surfaceShader"]] []
           (start scene_with_lambert1) "lambert2" "initialShadingGroup1");
    try reflexivity; try discriminate; split; try reflexivity; discriminate.
Defined.

(** *** confirm_attr_order: what it raises, and applying it twice *)

(** X17. [confirm_attr_order] raises [TypeError] on [None] and [IndexError]
    on fewer than two plugs; on two plugs or more it returns the first two,
    in one order or the other, and leaves the rest out.  The order it returns
    is one it keeps when it is called on its own result, unless the host
    lists each of the two plugs as a source of the other. *)
Theorem confirm_attr_order_twice (h : Host) :
  confirm_attr_order h None = Raise TypeError
  /\ confirm_attr_order h (Some []) = Raise IndexError
  /\ (forall a, confirm_attr_order h (Some [a]) = Raise IndexError)
  /\ (forall a b rest,
        exists r,
          confirm_attr_order h (Some (a :: b :: rest)) = Ok r
          /\ (r = [a; b] \/ r = [b; a])
          /\ (listed_source h a b && listed_source h b a = false ->
              confirm_attr_order h (Some r) = Ok r)).
Proof.
  split; [reflexivity|]. split; [reflexivity|]. split; [reflexivity|].
  intros a b rest.
  assert (S : forall x y tl,
             confirm_attr_order h (Some (x :: y :: tl))
             = Ok (if listed_source h x y then [y; x] else [x; y])).
  { intros x y tl. unfold confirm_attr_order, listed_source. cbn [first_of second_of bind].
    destruct (listConnections h x lc_plug_sources) as [[|s l]|]; cbn [nonempty];
      try reflexivity.
    destruct (str_in y (s :: l)); reflexivity. }
  rewrite S. destruct (listed_source h a b) eqn:Eab.
  - exists [b; a]. split; [reflexivity|]. split; [now right|].
    cbn [andb]. intros Eba. now rewrite S, Eba.
  - exists [a; b]. split; [reflexivity|]. split; [now left|].
    intros _. now rewrite S, Eab.
Qed.

(** *** import_shaders with ["replace"] *)

Lemma emits_mfor_in {S A : Type} (P : event -> bool) (body : A -> M S unit)
  (l : list A) :
  (forall x, In x l -> emits P (body x)) -> emits P (mfor body l).
Proof.
  induction l as [|x l IH]; intros Hb; cbn [mfor].
  - apply emits_ret.
  - apply emits_bind; [apply Hb; now left | intros _; apply IH].
    intros y Hy. apply Hb. now right.
Qed.

Lemma delete_related_emits (w : World) (P : event -> bool) (each : string) :
  P (HostCmd (CDelete each)) = true -> emits P (delete_related w each).
Proof.
  intros allows_delete.
  unfold delete_related. apply emits_bind; [apply emits_ask|]. intros defaults.
  destruct (str_in each defaults); [apply emits_ret|].
  apply emits_bind; [apply emits_ask|]. intros exists_.
  destruct exists_; [|apply emits_ret]. apply emits_run. apply allows_delete.
Qed.

Lemma replace_entry_emits (w : World) (P : event -> bool) (depth : nat)
  (entry : string * value) :
  (forall n, P (HostCmd (CDelete n)) = true) ->
  emits P (exists_ <~ ask w (fun h => objExists h (fst entry)) ;;
           if exists_
           then all_related_nodes <~ get_src_nodes_default w depth (fst entry) ;;
                mfor (delete_related w) all_related_nodes
           else ret tt).
Proof.
  intros allows_delete.
  apply emits_bind; [apply emits_ask|]. intros exists_.
  destruct exists_; [|apply emits_ret].
  apply emits_bind; [apply emits_get_src_nodes_default|]. intros l.
  apply emits_mfor. intros. now apply delete_related_emits.
Qed.

Lemma mbind_emits {S A B : Type} (P : event -> bool) (m : M S A) (k : A -> M S B)
  (st st' : pystate S) (r : result B) :
  (forall a, emits P (k a)) ->
  mbind m k st = (r, st') ->
  exists r1 st1 evs,
    m st = (r1, st1) /\ trace st' = trace st1 ++ evs /\ forallb P evs = true.
Proof.
  intros Hk H. unfold mbind in H. destruct (m st) as [[a|e] st1].
  - destruct (Hk a _ _ _ H) as (evs & Ht & Hp). now exists (Ok a), st1, evs.
  - inversion H; subst. exists (Raise e), st', []. now rewrite app_nil_r.
Qed.

Lemma mbind_extends {S A B : Type} (m : M S A) (k : A -> M S B) (st st' : pystate S)
  (r : result B) :
  (forall a, emits (fun _ => true) (k a)) ->
  mbind m k st = (r, st') ->
  exists r1 st1 evs, m st = (r1, st1) /\ trace st' = trace st1 ++ evs.
Proof.
  intros Hk H. destruct (mbind_emits _ _ _ _ _ _ Hk H) as (r1 & st1 & evs & E & T & _).
  now exists r1, st1, evs.
Qed.

(** Nothing of the document exists in the scene: nothing is looked up and
    nothing deleted. *)
Lemma conflicts_replace_fresh (w : World) (depth : nat) (entries : pydict)
  (st : pystate (Scene w)) :
  (forall k, In k (dict_keys entries) -> objExists (queries w (scene st)) k = false) ->
  conflicts_replace w depth (VDict entries) st = (Ok tt, st).
Proof.
  intros H. unfold conflicts_replace. cbn [items_of]. rewrite mbind_lift.
  induction entries as [|[k v] entries IH]; cbn [mfor]; [reflexivity|].
  unfold mbind at 1. unfold mbind at 1. unfold ask at 1. cbn [fst].
  rewrite (H k) by now left. unfold ret at 1.
  apply IH. intros k' Hk'. apply H. now right.
Qed.

(** X18. With [shader_conflicts="replace"] and a document none of whose
    shading engines exists in the scene, [import_shaders] does what it does
    with ["rename"]: nothing is deleted, and the default list of
    [get_src_nodes] is not touched. *)
Theorem import_shaders_replace_fresh (w : World) (fs : FileSystem) (depth : nat)
  (importPath : string) (entries : pydict) (st : pystate (Scene w)) :
  json_load fs importPath = Ok (VDict entries) ->
  (forall k, In k (dict_keys entries) -> objExists (queries w (scene st)) k = false) ->
  import_shaders w fs depth importPath "replace" st
  = import_shaders w fs depth importPath "rename" st.
Proof.
  intros Hj Hf. unfold import_shaders. rewrite Hj, !mbind_lift.
  cbn [String.eqb Ascii.eqb Bool.eqb andb].
  erewrite mbind_run by (apply conflicts_replace_fresh; exact Hf).
  reflexivity.
Qed.

Lemma import_shaders_replace_fresh_witness :
  import_shaders mini_world (one_file "in.json" two_textures) 100 "in.json" "replace"
                 (start scene_with_file1)
  = import_shaders mini_world (one_file "in.json" two_textures) 100 "in.json" "rename"
                   (start scene_with_file1).
Proof.
  apply (import_shaders_replace_fresh mini_world (one_file "in.json" two_textures) 100
           "in.json" (match two_textures with VDict e => e | _ => [] end)
           (start scene_with_file1)).
  - reflexivity.
  - intros k [<-|[]]. reflexivity.
Defined.

(** X19. With [shader_conflicts="replace"], the nodes that are deleted are
    those of the list [get_src_nodes] returns when [node_list] is left out
    (line 123), and that list begins with what earlier calls have left in the
    parameter's default.  So a node [x] at the head of that list, in the scene
    and not a default node, is deleted as soon as the first shading engine of
    the document exists, whether or not [x] has to do with the document: the
    first thing the import does to the scene is [delete x]. *)
Theorem import_shaders_replace_deletes_leftover (w : World) (fs : FileSystem)
  (depth : nat) (importPath shading_engine : string) (shader_network : value)
  (more : pydict) (x : string) (rest all_related_nodes : list string)
  (st st' : pystate (Scene w)) (r : result unit) :
  json_load fs importPath = Ok (VDict ((shading_engine, shader_network) :: more)) ->
  default_node_list st = x :: rest ->
  objExists (queries w (scene st)) shading_engine = true ->
  objExists (queries w (scene st)) x = true ->
  str_in x (ls_defaultNodes (queries w (scene st))) = false ->
  get_src_nodes (queries w (scene st)) depth shading_engine (x :: rest)
  = Ok all_related_nodes ->
  import_shaders w fs depth importPath "replace" st = (r, st') ->
  exists evs, trace st' = trace st ++ HostCmd (CDelete x) :: evs.
Proof.
  intros Hj Hd He Hx Hnd Hw H.
  unfold import_shaders in H. rewrite Hj, mbind_lift in H.
  cbn [String.eqb Ascii.eqb Bool.eqb andb] in H.
  apply mbind_extends in H as (ra & sa & evs_a & H & Ta);
    [|intros _; apply create_networks_emits; reflexivity].
  unfold conflicts_replace in H. cbn [items_of] in H. rewrite mbind_lift in H.
  cbn [mfor] in H.
  apply mbind_extends in H as (rb & sb & evs_b & H & Tb);
    [|intros _; apply emits_mfor; intros; apply replace_entry_emits; reflexivity].
  unfold mbind at 1 in H. unfold ask at 1 in H. cbn [fst] in H. rewrite He in H.
  assert (G : get_src_nodes_default w depth shading_engine st
              = (Ok all_related_nodes,
                 {| scene := scene st; default_node_list := all_related_nodes;
                    trace := trace st |})).
  { unfold get_src_nodes_default. now rewrite Hd, Hw. }
  rewrite (mbind_run _ _ _ _ _ G) in H.
  destruct (get_src_nodes_extends _ _ _ _ _ Hw) as [(added & ->) _].
  cbn [app mfor] in H.
  apply mbind_extends in H as (rc & sc & evs_c & H & Tc);
    [|intros _; apply emits_mfor; intros; now apply delete_related_emits].
  unfold delete_related in H.
  unfold mbind at 1 in H. unfold ask at 1 in H. cbn [scene] in H. rewrite Hnd in H.
  unfold mbind at 1 in H. unfold ask at 1 in H. cbn [scene] in H. rewrite Hx in H.
  assert (Td : trace sc = trace st ++ [HostCmd (CDelete x)]).
  { unfold run in H. cbn [scene trace] in H.
    destruct (unit_cmd _ _) as [[a s']|e]; inversion H; reflexivity. }
  exists (evs_c ++ evs_b ++ evs_a).
  rewrite Ta, Tb, Tc, Td, <- !app_assoc. reflexivity.
Qed.

Lemma import_shaders_replace_deletes_leftover_witness :
  exists evs,
    trace (snd (import_shaders mini_world (one_file "in.json" two_textures) 100 "in.json"
                               "replace" after_earlier_call))
    = trace after_earlier_call ++ HostCmd (CDelete "ramp1") :: evs.
Proof.
  apply (import_shaders_replace_deletes_leftover mini_world
           (one_file "in.json" two_textures) 100 "in.json" "matSG"
           (snd two_textures_entry) [] "ramp1" [] ["ramp1"]
           after_earlier_call _
           (fst (import_shaders mini_world (one_file "in.json" two_textures) 100 "in.json"
                                "replace" after_earlier_call)));
    [reflexivity | reflexivity | reflexivity | reflexivity | reflexivity
    | vm_compute; reflexivity | apply surjective_pairing].
Defined.

(** *** Loops that end by an exception *)

(** A loop that returns has reached the state it returns. *)
Lemma for_each_reached_returned {A S : Type} (body : S -> A -> result S)
  (reached : S -> A -> S) (l : list A) :
  forall s r, for_each body l s = Ok r -> for_each_reached body reached l s = r.
Proof.
  induction l as [|x l IH]; intros s r H; cbn [for_each] in H; cbn [for_each_reached].
  - now inversion H.
  - destruct (body s x) as [s'|e]; cbn [bind] in H; [now apply IH | discriminate].
Qed.

(** What a run of the rewriting loop that returns has written is what it
    hands back. *)
Lemma written_by_returned (also_each : bool) (old new : string)
  (shader_network shader_network' : value) (written : list value) :
  rewrite_connections also_each old new shader_network = Ok (shader_network', written) ->
  written_by also_each old new shader_network = written.
Proof.
  unfold rewrite_connections, written_by. intros H. bind_inv H. rewrite Hx.
  destruct x as [| | | |s|connections|connections|d]; try discriminate.
  - bind_inv H. now inversion H.
  - bind_inv H. bind_inv H. inversion H; subst.
    now rewrite (for_each_reached_returned _ _ _ _ _ Hx0).
  - bind_inv H. bind_inv H. inversion H; subst.
    now rewrite (for_each_reached_returned _ _ _ _ _ Hx0).
  - destruct d; [now inversion H | discriminate].
Qed.

(** *** get_src_nodes: the list as an object *)

(** When the call returns, the list object holds what is returned. *)
Lemma get_src_nodes_leaves_returned (h : Host) (depth : nat) :
  forall n l r,
    get_src_nodes h depth n l = Ok r -> get_src_nodes_leaves h depth n l = r.
Proof.
  induction depth as [|depth IH]; intros n l r H; [discriminate|].
  cbn [get_src_nodes] in H. cbn [get_src_nodes_leaves].
  destruct (listConnections h n lc_node_sources) as [L|].
  - destruct (nonempty (Some L)) eqn:Hne.
    + destruct (collect_shapes h L) as [rs|e]; cbn [bind] in H; [|discriminate].
      destruct (nonempty (Some (drop_shapes rs L))) eqn:Hne2.
      * destruct (add_sources h (drop_shapes rs L) l) as [l1|e]; cbn [bind] in H;
          [|discriminate].
        revert l1 H. generalize (drop_shapes rs L) as todo.
        induction todo as [|each todo IHt]; intros l1 H; cbn [for_each] in H;
          cbn [for_each_reached].
        -- now inversion H.
        -- destruct (get_src_nodes h depth each l1) as [l2|e]; cbn [bind] in H;
             [|discriminate].
           now apply IHt.
      * now inversion H.
    + cbn [bind] in H. rewrite Hne in H. now inversion H.
  - cbn [nonempty bind] in H. now inversion H.
Qed.



(** *** get_src_nodes: a walk that returns has met no cycle *)

Lemma for_each_each {A S : Type} (body : S -> A -> result S) (l : list A) :
  forall s r,
    for_each body l s = Ok r ->
    forall x, In x l -> exists s1 s2, body s1 x = Ok s2.
Proof.
  induction l as [|y l IH]; intros s r H x Hx; [destruct Hx|].
  cbn [for_each] in H. bind_inv H.
  destruct Hx as [<-|Hx]; [eauto | eapply IH; eauto].
Qed.

(** A frame that returns has called the function, one frame deeper, on
    every source it keeps, and each of these calls has returned. *)
Lemma get_src_nodes_descend (h : Host) (depth : nat) (n m : string) (l r : list string) :
  get_src_nodes h (S depth) n l = Ok r ->
  feeds h n m ->
  exists l' r', get_src_nodes h depth m l' = Ok r'.
Proof.
  intros H Hf.
  apply get_src_nodes_frame in H as [[Hno _]|(L & l1 & HL & Hty & _ & Hrec)].
  - destruct (Hno _ Hf).
  - destruct Hf as (L0 & E & Hin & Hm). rewrite HL in E. inversion E; subst L0.
    apply (for_each_each _ _ _ _ Hrec). apply kept_sources; auto.
Qed.

Lemma get_src_nodes_descend_upstream (h : Host) (n m : string) :
  upstream h n m ->
  forall depth l r,
    get_src_nodes h depth n l = Ok r ->
    exists depth' l' r', depth' < depth /\ get_src_nodes h depth' m l' = Ok r'.
Proof.
  induction 1 as [n m Hf|n m k Hf _ IH]; intros depth l r H;
    (destruct depth as [|depth]; [discriminate|]);
    destruct (get_src_nodes_descend _ _ _ _ _ _ H Hf) as (l' & r' & H').
  - exists depth, l', r'. split; [lia | exact H'].
  - destruct (IH _ _ _ H') as (d & l2 & r2 & Hd & H2).
    exists d, l2, r2. split; [lia | exact H2].
Qed.

Lemma get_src_nodes_no_cycle (h : Host) (depth : nat) :
  forall n l r, get_src_nodes h depth n l = Ok r -> ~ upstream h n n.
Proof.
  induction depth as [depth IH] using lt_wf_ind. intros n l r H Hup.
  destruct (get_src_nodes_descend_upstream _ _ _ Hup _ _ _ H) as (d & l' & r' & Hd & H').
  exact (IH d Hd _ _ _ H' Hup).
Qed.

(** X20. A call of [get_src_nodes] that returns has met no cycle: neither
    the node it was called on nor a node upstream of it is upstream of
    itself.  So the node the walk starts from is in the result only when it
    was in the list given. *)
Theorem get_src_nodes_acyclic (h : Host) (depth : nat) (node_name : string)
  (node_list r : list string) :
  get_src_nodes h depth node_name node_list = Ok r ->
  (forall m, m = node_name \/ upstream h node_name m -> ~ upstream h m m)
  /\ (In node_name r <-> In node_name node_list).
Proof.
  intros H. split.
  - intros m [->|Hup].
    + exact (get_src_nodes_no_cycle _ _ _ _ _ H).
    + destruct (get_src_nodes_descend_upstream _ _ _ Hup _ _ _ H)
        as (d & l' & r' & _ & H').
      exact (get_src_nodes_no_cycle _ _ _ _ _ H').
  - rewrite (get_src_nodes_upstream_iff h depth node_name node_list r H node_name).
    split; [|auto]. intros [Hin|Hup]; [exact Hin|].
    destruct (get_src_nodes_no_cycle _ _ _ _ _ H Hup).
Qed.

Lemma get_src_nodes_acyclic_witness :
  (forall m, m = "a" \/ upstream (mini_host two_chains) "a" m
             -> ~ upstream (mini_host two_chains) m m)
  /\ (In "a" ["y"; "x"] <-> In "a" ["y"]).
Proof.
  apply (get_src_nodes_acyclic (mini_host two_chains) 10 "a" ["y"] ["y"; "x"]).
  reflexivity.
Defined.

(** *** import_shaders with ["replace"]: the shading engine stays *)

(** X21. With [shader_conflicts="replace"] the shading engine that exists
    is not deleted: what line 123 collects are the nodes upstream of it, and
    the engine is not one of them.  For a document with one shading engine,
    imported when the default list of [get_src_nodes] does not hold the
    engine, no [delete] of the engine is issued, whether the import returns
    or raises. *)
Theorem import_shaders_replace_keeps_engine (w : World) (fs : FileSystem) (depth : nat)
  (importPath shading_engine : string) (shader_network : value)
  (st st' : pystate (Scene w)) (r : result unit) :
  json_load fs importPath = Ok (VDict [(shading_engine, shader_network)]) ->
  ~ In shading_engine (default_node_list st) ->
  import_shaders w fs depth importPath "replace" st = (r, st') ->
  exists evs, trace st' = trace st ++ evs
              /\ ~ In (HostCmd (CDelete shading_engine)) evs.
Proof.
  intros Hj Hd. set (P := not_delete_of shading_engine). intros H.
  assert (G : exists evs, trace st' = trace st ++ evs /\ forallb P evs = true).
  { unfold import_shaders in H. rewrite Hj, mbind_lift in H.
    cbn [String.eqb Ascii.eqb Bool.eqb andb] in H.
    apply (mbind_emits P) in H as (ra & sa & evs_a & H & Ta & Pa);
      [|intros _; apply create_networks_emits; reflexivity].
    unfold conflicts_replace in H. cbn [items_of] in H. rewrite mbind_lift in H.
    cbn [mfor] in H.
    apply (mbind_emits P) in H as (rb & sb & evs_b & H & Tb & Pb);
      [|intros _; apply emits_ret].
    assert (Gc : exists evs_c, trace sb = trace st ++ evs_c /\ forallb P evs_c = true).
    { unfold mbind at 1 in H. unfold ask at 1 in H. cbn [fst] in H.
      destruct (objExists (queries w (scene st)) shading_engine).
      - unfold mbind at 1 in H. unfold get_src_nodes_default at 1 in H.
        destruct (get_src_nodes (queries w (scene st)) depth shading_engine
                                (default_node_list st)) as [nl|e] eqn:Hw.
        + assert (Hn : ~ In shading_engine nl)
            by (intros Hin; apply Hd;
                rewrite (get_src_nodes_upstream_iff _ _ _ _ _ Hw) in Hin;
                destruct Hin as [Hin|Hup]; [exact Hin|];
                destruct (get_src_nodes_no_cycle _ _ _ _ _ Hw Hup)).
          assert (E : emits P (mfor (delete_related w) nl)).
          { apply emits_mfor_in. intros x Hx. apply delete_related_emits.
            unfold P, not_delete_of.
            destruct (String.eqb_spec x shading_engine) as [->|_];
              [contradiction | reflexivity]. }
          apply E in H. exact H.
        + assert (E : trace sb = trace st) by (inversion H; reflexivity).
          rewrite E. exists []. now rewrite app_nil_r.
      - assert (E : sb = st) by (inversion H; reflexivity).
        rewrite E. exists []. now rewrite app_nil_r. }
    destruct Gc as (evs_c & Tc & Pc).
    exists (evs_c ++ evs_b ++ evs_a).
    rewrite Ta, Tb, Tc, <- !app_assoc. split; [reflexivity|].
    now rewrite !forallb_app, Pa, Pb, Pc. }
  destruct G as (evs & Ht & Hp). exists evs. split; [exact Ht|].
  intros Hin. rewrite forallb_forall in Hp. apply Hp in Hin.
  unfold P, not_delete_of in Hin. now rewrite String.eqb_refl in Hin.
Qed.

Lemma import_shaders_replace_keeps_engine_witness :
  exists evs,
    trace (snd (import_shaders mini_world (one_file "in.json" two_textures) 100 "in.json"
                               "replace" after_earlier_call))
    = trace after_earlier_call ++ evs
    /\ ~ In (HostCmd (CDelete "matSG")) evs.
Proof.
  apply (import_shaders_replace_keeps_engine mini_world
           (one_file "in.json" two_textures) 100 "in.json" "matSG"
           (snd two_textures_entry) after_earlier_call _
           (fst (import_shaders mini_world (one_file "in.json" two_textures) 100 "in.json"
                                "replace" after_earlier_call))).
  - reflexivity.
  - intros [H|[]]. discriminate.
  - apply surjective_pairing.
Defined.

(** *** get_src_nodes with [node_list] left out: what the call leaves *)


